(** * skill-forge: workspace resolver, inventory, cleanup and packaging

    A shallow embedding of [scripts/cleanup_materials.py], of the boundary
    search of [scripts/fetch_source.py] and of the file filter of
    [scripts/package_skill.py], together with the properties of the
    workspace specification that these functions decide.

    The scripts are sequential Python programs acting on the local disk, the
    terminal and the process environment.  They are modelled as computations
    in a state-and-exception monad over a [world] that holds the directory
    tree, the working directory, the home directory, the lines still to be
    typed by the operator and the text printed so far. *)

From stdpp Require Import base list strings sorting.
From Stdlib Require Import ZArith Lia Ascii DecimalString.

Set Default Proof Using "Type".

(** ** Exceptions and results *)

(** The exception classes the scripts can meet.  [PermissionError],
    [NotADirectoryError], [FileNotFoundError], [FileExistsError] and
    [IsADirectoryError] are subclasses of
    [OSError]; [OSError] itself stands for the remaining operating system
    errors.  All of them, and [EOFError] and [IndexError], are subclasses of
    [Exception]. *)
Inductive exn :=
| PermissionError
| NotADirectoryError
| FileNotFoundError
| FileExistsError
| IsADirectoryError
| OSError
| EOFError
| IndexError.

(** The outcome of running a piece of Python: a value, an exception that
    propagates, or [Diverged] when a loop of the model was cut off by its
    iteration bound.  The bounds are shown never to be reached. *)
Inductive result (A : Type) :=
| Ok (a : A)
| Raise (e : exn)
| Diverged.
Arguments Ok {A} a.
Arguments Raise {A} e.
Arguments Diverged {A}.

(** ** Paths and the directory tree *)

Module Fs.

(** A resolved absolute POSIX path, as [Path.resolve()] returns it: the
    components below the filesystem root, outermost first.  [[]] is ["/"]. *)
Definition path := list string.

(** [Path.parent]; the parent of the root is the root itself. *)
Definition parent (p : path) : path := removelast p.

(** [Path.name]; the name of the root is the empty string. *)
Definition name (p : path) : string := List.last p "".

(** [p / c] for a single path component [c]. *)
Definition joinpath (p : path) (c : string) : path := p ++ [c].

(** [str(p)]. *)
Definition str (p : path) : string := "/" +:+ String.concat "/" p.

(** Permission bits of a directory as seen by the running user: [can_read]
    allows listing it, [can_write] allows removing entries from it.  Search
    permission is not modelled: every directory can be traversed. *)
Record mode := Mode { can_read : bool; can_write : bool }.

Definition rw : mode := Mode true true.

(** What a directory entry is.  A symbolic link carries its target, which is
    taken to be an absolute resolved path. *)
#[local] Unset Elimination Schemes.
Inductive node :=
| File (st_size : Z)
| Symlink (target : path)
| Dir (perm : mode) (entries : list (string * node)).
#[local] Set Elimination Schemes.

(** Induction over a tree, with the hypothesis for every entry of a
    directory. *)
Fixpoint node_ind (P : node -> Prop)
    (HF : forall s, P (File s)) (HS : forall t, P (Symlink t))
    (HD : forall m kids, Forall (fun e => P (snd e)) kids -> P (Dir m kids))
    (n : node) : P n :=
  match n with
  | File s => HF s
  | Symlink t => HS t
  | Dir m kids =>
      HD m kids
        ((fix all (l : list (string * node)) : Forall (fun e => P (snd e)) l :=
            match l with
            | [] => List.Forall_nil _
            | (c, k) :: rest =>
                @List.Forall_cons _ (fun e => P (snd e)) (c, k) rest
                  (node_ind P HF HS HD k) (all rest)
            end) kids)
  end.

Fixpoint assoc {A} (c : string) (l : list (string * A)) : option A :=
  match l with
  | [] => None
  | (k, v) :: l' => if String.eqb k c then Some v else assoc c l'
  end.

(** [os.lstat]: walks the components without following a link in the last
    position.  A link in an inner position is not traversed: the paths the
    scripts build hang below resolved directories. *)
Fixpoint lstat (n : node) (p : path) : option node :=
  match p with
  | [] => Some n
  | c :: rest =>
      match n with
      | Dir _ kids =>
          match assoc c kids with
          | Some k => lstat k rest
          | None => None
          end
      | _ => None
      end
  end.

(** Follows a chain of links from [n]; gives up after [fuel] links, as the
    kernel does with [ELOOP]. *)
Fixpoint follow (fuel : nat) (fs n : node) : option node :=
  match n with
  | Symlink t =>
      match fuel with
      | 0 => None
      | S fuel' =>
          match lstat fs t with
          | Some n' => follow fuel' fs n'
          | None => None
          end
      end
  | _ => Some n
  end.

Definition MAXSYMLINKS : nat := 40.

(** [os.stat]: [lstat], then the link chain. *)
Definition stat (fs : node) (p : path) : option node :=
  match lstat fs p with
  | Some n => follow MAXSYMLINKS fs n
  | None => None
  end.

(** [Path.exists()] and [Path.is_dir()], both following links. *)
Definition exists_ (fs : node) (p : path) : bool :=
  match stat fs p with Some _ => true | None => false end.

Definition is_dir (fs : node) (p : path) : bool :=
  match stat fs p with Some (Dir _ _) => true | _ => false end.

Definition is_file (fs : node) (p : path) : bool :=
  match stat fs p with Some (File _) => true | _ => false end.

(** Puts [v] in the place of the entry called [c]. *)
Fixpoint set_entry (c : string) (v : node)
    (l : list (string * node)) : list (string * node) :=
  match l with
  | [] => []
  | (k, v0) :: l' =>
      if String.eqb k c then (k, v) :: l'
      else (k, v0) :: set_entry c v l'
  end.

(** Takes the entry called [c] out of a directory. *)
Fixpoint remove_entry (c : string)
    (l : list (string * node)) : list (string * node) :=
  match l with
  | [] => []
  | (k, v0) :: l' =>
      if String.eqb k c then remove_entry c l'
      else (k, v0) :: remove_entry c l'
  end.

(** [os.scandir(p)] / [Path.iterdir()]: the entries of the directory that
    [p] names, in the order the directory yields them. *)
Definition scandir (fs : node) (p : path) : result (list (string * node)) :=
  match stat fs p with
  | Some (Dir m kids) => if can_read m then Ok kids else Raise PermissionError
  | Some _ => Raise NotADirectoryError
  | None => Raise FileNotFoundError
  end.

(** The body of [shutil.rmtree] below the directory [n]: entries are removed
    in directory order, links and files by [os.unlink], directories by a
    recursive descent followed by [os.rmdir].  The first error stops the
    descent and is raised; what was removed before stays removed.  The
    result is the directory as it is left behind. *)
Fixpoint rmtree_contents (n : node) : node * option exn :=
  match n with
  | Dir m kids =>
      if can_read m then
        let fix go (l : list (string * node)) : list (string * node) * option exn :=
          match l with
          | [] => ([], None)
          | (c, k) :: rest =>
              match k with
              | Dir _ _ =>
                  match rmtree_contents k with
                  | (k', Some e) => ((c, k') :: rest, Some e)
                  | (k', None) =>
                      if can_write m then go rest
                      else ((c, k') :: rest, Some PermissionError)
                  end
              | _ =>
                  if can_write m then go rest
                  else (l, Some PermissionError)
              end
          end in
        let (kids', e) := go kids in (Dir m kids', e)
      else (n, Some PermissionError)
  | _ => (n, Some NotADirectoryError)
  end.

(** [shutil.rmtree(p)] seen from the directory [n] that [p] is relative to.
    Refuses a symbolic link, fails on anything that is not a directory, and
    removes the emptied directory from its parent last.  Asked to remove the
    filesystem root it empties it and then fails on the final [rmdir]. *)
Fixpoint rmtree_at (n : node) (p : path) : node * option exn :=
  match p with
  | [] =>
      match rmtree_contents n with
      | (n', Some e) => (n', Some e)
      | (n', None) => (n', Some OSError)
      end
  | c :: rest =>
      match n with
      | Dir m kids =>
          match assoc c kids with
          | None => (n, Some FileNotFoundError)
          | Some k =>
              match rest with
              | [] =>
                  match k with
                  | Symlink _ => (n, Some OSError)
                  | _ =>
                      match rmtree_contents k with
                      | (k', Some e) =>
                          (Dir m (set_entry c k' kids), Some e)
                      | (k', None) =>
                          if can_write m
                          then (Dir m (remove_entry c kids), None)
                          else (Dir m (set_entry c k' kids),
                                Some PermissionError)
                      end
                  end
              | _ :: _ =>
                  let (k', e) := rmtree_at k rest in
                  (Dir m (set_entry c k' kids), e)
              end
          end
      | _ => (n, Some NotADirectoryError)
      end
  end.

(** [Path.mkdir(parents=True, exist_ok=True)] seen from the directory [n]:
    missing directories are created along the way, an existing directory at
    the end is accepted, anything else in the way is an error:
    [FileExistsError] for what stands at the end and is no directory,
    [NotADirectoryError] for what stands further up and is none,
    [PermissionError] where a directory that does not allow it would have
    to take a new entry. *)
Fixpoint mkdir_p (n : node) (p : path) : node * option exn :=
  match p with
  | [] =>
      match n with
      | Dir _ _ => (n, None)
      | _ => (n, Some FileExistsError)
      end
  | c :: rest =>
      match n with
      | Dir m kids =>
          match assoc c kids with
          | Some k =>
              let (k', e) := mkdir_p k rest in
              (Dir m (set_entry c k' kids), e)
          | None =>
              if can_write m then
                let (k', e) := mkdir_p (Dir rw []) rest in
                (Dir m (kids ++ [(c, k')]), e)
              else (n, Some PermissionError)
          end
      | _ => (n, Some NotADirectoryError)
      end
  end.

(** [open(p, 'wb')] seen from the directory [n]: creates an empty file or
    empties the one that is there.  The size of what is written to it
    afterwards is not tracked. *)
Fixpoint create_file (n : node) (p : path) : node * option exn :=
  match p with
  | [] => (n, Some IsADirectoryError)
  | c :: rest =>
      match n with
      | Dir m kids =>
          match assoc c kids, rest with
          | Some (Dir _ _), [] => (n, Some IsADirectoryError)
          | Some _, [] =>
              (Dir m (set_entry c (File 0) kids), None)
          | None, [] =>
              if can_write m then (Dir m (kids ++ [(c, File 0)]), None)
              else (n, Some PermissionError)
          | Some k, _ :: _ =>
              let (k', e) := create_file k rest in
              (Dir m (set_entry c k' kids), e)
          | None, _ :: _ => (n, Some FileNotFoundError)
          end
      | _ => (n, Some NotADirectoryError)
      end
  end.

(** Opening for writing goes through a link at [p] to the file it names. *)
Fixpoint open_w (fuel : nat) (fs : node) (p : path) : node * option exn :=
  match lstat fs p, fuel with
  | Some (Symlink t), S fuel' => open_w fuel' fs t
  | Some (Symlink _), 0 => (fs, Some OSError)
  | _, _ => create_file fs p
  end.

(** [Path.rglob('*')] below the directory [n] found at [here]: the entries
    of the directory itself, then those of each real subdirectory in turn.
    Directories that cannot be listed yield nothing, and links to
    directories are not descended into. *)
Fixpoint rglob_node (n : node) (here : path) : list path :=
  match n with
  | Dir m kids =>
      if can_read m then
        map (fun e => here ++ [fst e]) kids ++
        (fix below (l : list (string * node)) : list path :=
           match l with
           | [] => []
           | (c, k) :: rest =>
               match k with
               | Dir _ _ => rglob_node k (here ++ [c]) ++ below rest
               | _ => below rest
               end
           end) kids
      else []
  | _ => []
  end.

Definition rglob (fs : node) (p : path) : list path :=
  match stat fs p with
  | Some n => rglob_node n p
  | None => []
  end.

(** [p.relative_to(base)] for a [base] that [p] lies below. *)
Definition relative_to (p base : path) : path := drop (length base) p.

(** [str] of a relative path. *)
Definition str_rel (p : path) : string :=
  match p with [] => "." | _ => String.concat "/" p end.

(** The order of [Path] objects: the component lists compared
    lexicographically, components by code point. *)
Fixpoint path_leb (p q : path) : bool :=
  match p, q with
  | [], _ => true
  | _ :: _, [] => false
  | a :: p', b :: q' =>
      match String.compare a b with
      | Lt => true
      | Eq => path_leb p' q'
      | Gt => false
      end
  end.

Definition path_le (p q : path) : Prop := path_leb p q = true.

#[global] Instance path_le_dec : RelDecision path_le.
Proof. intros p q. unfold path_le. apply _. Defined.

(** [sorted(paths)]. *)
Definition sorted (l : list path) : list path := merge_sort path_le l.

End Fs.

(** ** The world and the monad of the scripts *)

Module Py.
Import Fs.

Record world := World {
  fs : node;                (* the directory tree, seen from "/" *)
  cwd : path;               (* Path.cwd(), resolved *)
  home : path;              (* Path.home() *)
  script : path;            (* __file__ of the running script, resolved *)
  stdin : list string;      (* the lines the operator will still type *)
  stdout : list string;     (* what was printed so far, oldest first *)
  rmtree_log : list path;   (* history: the arguments of the shutil.rmtree
                               calls made so far, oldest first *)
  zip_log : list (path * path)
                            (* history: the (file, arcname) pairs handed to
                               ZipFile.write so far, oldest first *)
}.

Definition M (A : Type) : Type := world -> result A * world.

Definition ret {A} (a : A) : M A := fun w => (Ok a, w).

Definition bind {A B} (m : M A) (k : A -> M B) : M B :=
  fun w =>
    match m w with
    | (Ok a, w') => k a w'
    | (Raise e, w') => (Raise e, w')
    | (Diverged, w') => (Diverged, w')
    end.

Definition raise {A} (e : exn) : M A := fun w => (Raise e, w).

Definition diverge {A} : M A := fun w => (Diverged, w).

(** [try: body / except ...: handler]: [handler e] is [None] for the
    exceptions the clause does not catch. *)
Definition try_except {A} (body : M A) (handler : exn -> option (M A)) : M A :=
  fun w =>
    match body w with
    | (Raise e, w') =>
        match handler e with
        | Some h => h w'
        | None => (Raise e, w')
        end
    | r => r
    end.

Definition gets {A} (f : world -> A) : M A := fun w => (Ok (f w), w).

Definition set_stdout (w : world) (out : list string) : world :=
  World (fs w) (cwd w) (home w) (script w) (stdin w) out
        (rmtree_log w) (zip_log w).

Definition set_stdin (w : world) (inp : list string) : world :=
  World (fs w) (cwd w) (home w) (script w) inp (stdout w)
        (rmtree_log w) (zip_log w).

Definition set_fs (w : world) (t : node) : world :=
  World t (cwd w) (home w) (script w) (stdin w) (stdout w)
        (rmtree_log w) (zip_log w).

Definition log_rmtree (w : world) (p : path) : world :=
  World (fs w) (cwd w) (home w) (script w) (stdin w) (stdout w)
        (rmtree_log w ++ [p]) (zip_log w).

Definition log_zip (w : world) (file arcname : path) : world :=
  World (fs w) (cwd w) (home w) (script w) (stdin w) (stdout w)
        (rmtree_log w) (zip_log w ++ [(file, arcname)]).

(** [print(s)]: one element of [stdout] per call, without the newline that
    ends it. *)
Definition print (s : string) : M unit :=
  fun w => (Ok tt, set_stdout w (stdout w ++ [s])).

(** [input(prompt)]: shows the prompt, then reads one line; [EOFError] when
    the operator has nothing more to say. *)
Definition input (prompt : string) : M string :=
  fun w =>
    let w' := set_stdout w (stdout w ++ [prompt]) in
    match stdin w with
    | [] => (Raise EOFError, w')
    | l :: rest => (Ok l, set_stdin w' rest)
    end.

Definition path_exists (p : path) : M bool := gets (fun w => exists_ (fs w) p).

Definition path_is_dir (p : path) : M bool := gets (fun w => is_dir (fs w) p).

(** [p.iterdir()], consumed at once: the children of [p] as paths. *)
Definition iterdir (p : path) : M (list path) :=
  fun w =>
    match scandir (fs w) p with
    | Ok kids => (Ok (map (fun e => joinpath p (fst e)) kids), w)
    | Raise e => (Raise e, w)
    | Diverged => (Diverged, w)
    end.

(** [shutil.rmtree(p)]. *)
Definition rmtree (p : path) : M unit :=
  fun w =>
    let '(t, e) := rmtree_at (fs w) p in
    let w' := log_rmtree (set_fs w t) p in
    match e with
    | None => (Ok tt, w')
    | Some e => (Raise e, w')
    end.

Definition path_is_file (p : path) : M bool := gets (fun w => is_file (fs w) p).

(** [Path.mkdir(parents=True, exist_ok=True)]. *)
Definition mkdir_parents (p : path) : M unit :=
  fun w =>
    let '(t, e) := mkdir_p (fs w) p in
    match e with
    | None => (Ok tt, set_fs w t)
    | Some e => (Raise e, set_fs w t)
    end.

(** [zipfile.ZipFile(p, 'w', ...)]: the archive file is created, or emptied,
    when the object is made. *)
Definition zip_open (p : path) : M unit :=
  fun w =>
    let '(t, e) := open_w MAXSYMLINKS (fs w) p in
    match e with
    | None => (Ok tt, set_fs w t)
    | Some e => (Raise e, set_fs w t)
    end.

(** [zipf.write(file, arcname)], taken to succeed.  The real call raises
    for a file that cannot be read or that is older than 1980; it stands
    inside the [try] of [package_skill], which catches what it raises. *)
Definition zip_write (file arcname : path) : M unit :=
  fun w => (Ok tt, log_zip w file arcname).

(** The newline character. *)
Definition nl : string := String (ascii_of_nat 10) EmptyString.

(** [str(n)] for an integer. *)
Definition str_int (z : Z) : string := NilZero.string_of_int (Z.to_int z).

(** Whitespace that [str.strip()] removes, among the ASCII characters. *)
Definition is_space (c : ascii) : bool :=
  let n := nat_of_ascii c in
  ((9 <=? n) && (n <=? 13)) || ((28 <=? n) && (n <=? 32)).

Fixpoint lstrip (s : string) : string :=
  match s with
  | String c s' => if is_space c then lstrip s' else s
  | EmptyString => EmptyString
  end.

Definition strip (s : string) : string :=
  String.rev (lstrip (String.rev (lstrip s))).

(** [str.lower()] on the ASCII letters. *)
Definition lower_char (c : ascii) : ascii :=
  let n := nat_of_ascii c in
  if (65 <=? n) && (n <=? 90) then ascii_of_nat (n + 32) else c.

Fixpoint lower (s : string) : string :=
  match s with
  | String c s' => String (lower_char c) (lower s')
  | EmptyString => EmptyString
  end.

(** [s.startswith(t)]. *)
Definition startswith (s t : string) : bool := String.prefix t s.

(** [s.endswith(t)]. *)
Definition endswith (s t : string) : bool :=
  String.prefix (String.rev t) (String.rev s).

(** The padding of the format specifications [:<n] and [:>n]. *)
Fixpoint spaces (n : nat) : string :=
  match n with 0 => "" | S n' => String " " (spaces n') end.

Definition ljust (s : string) (n : nat) : string :=
  s +:+ spaces (n - String.length s).

Definition rjust (s : string) (n : nat) : string :=
  spaces (n - String.length s) +:+ s.

(** [int(s)] for a string already stripped: an optional sign and decimal
    digits, single underscores allowed between digits.  [None] is
    [ValueError].  Digits outside ASCII are not recognised. *)
Definition digit_val (c : ascii) : option Z :=
  let n := nat_of_ascii c in
  if (48 <=? n) && (n <=? 57) then Some (Z.of_nat (n - 48)) else None.

Fixpoint parse_digits (s : string) (acc : Z) (after_digit : bool) : option Z :=
  match s with
  | EmptyString => if after_digit then Some acc else None
  | String c s' =>
      match digit_val c with
      | Some d => parse_digits s' (10 * acc + d) true
      | None =>
          if Ascii.eqb c "_" && after_digit
          then match s' with
               | EmptyString => None
               | _ => parse_digits s' acc false
               end
          else None
      end
  end.

Definition int_of_str (s : string) : option Z :=
  match s with
  | String c s' =>
      if Ascii.eqb c "-" then Z.opp <$> parse_digits s' 0 false
      else if Ascii.eqb c "+" then parse_digits s' 0 false
      else parse_digits s 0 false
  | EmptyString => None
  end.

(** [str(e)] for a caught exception, without the file name that the
    operating system adds to it. *)
Definition str_exn (e : exn) : string :=
  match e with
  | PermissionError => "[Errno 13] Permission denied"
  | NotADirectoryError => "[Errno 20] Not a directory"
  | FileNotFoundError => "[Errno 2] No such file or directory"
  | FileExistsError => "[Errno 17] File exists"
  | IsADirectoryError => "[Errno 21] Is a directory"
  | OSError => "Cannot call rmtree on a symbolic link"
  | EOFError => "EOF when reading a line"
  | IndexError => "list index out of range"
  end.

End Py.

Notation "x <- m ;; k" := (Py.bind m (fun x => k))
  (at level 100, m at next level, right associativity).
Notation "m ;; k" := (Py.bind m (fun _ => k))
  (at level 100, right associativity).

(** ** [scripts/cleanup_materials.py] *)

Module Cleanup.
Import Fs Py.

(** The [while current != current.parent] loop of [find_project_root].
    [fuel] bounds the number of iterations. *)
Fixpoint walk_up (fuel : nat) (current : path) : M (option path) :=
  match fuel with
  | 0 => diverge
  | S fuel' =>
      if bool_decide (current <> parent current) then
        git <- path_exists (joinpath current ".git") ;;
        marked <- (if git then ret true
                   else path_exists (joinpath current ".claude")) ;;
        if marked then ret (Some current)
        else walk_up fuel' (parent current)
      else ret None
  end.

(** [find_project_root(start_path=None)].  A given [start_path] is taken as
    already resolved.  [Path.cwd()] is read off the world: the script is
    taken to be started in a working directory that exists (in one that
    was removed the call raises [FileNotFoundError]). *)
Definition find_project_root (start_path : option path) : M (option path) :=
  start <- match start_path with
           | None => gets cwd
           | Some p => ret p
           end ;;
  let current := start in
  walk_up (S (length current)) current.

(** [get_materials_dirs()]: the list of [(path, mode_name)] pairs. *)
Definition get_materials_dirs : M (list (path * string)) :=
  let dirs := [] in
  project_root <- find_project_root None ;;
  dirs <- match project_root with
          | Some root =>
              let project_materials :=
                joinpath (joinpath root ".claude") "temp-materials" in
              e <- path_exists project_materials ;;
              ret (if e then dirs ++ [(project_materials, "project")] else dirs)
          | None => ret dirs
          end ;;
  h <- gets home ;;
  let global_materials := joinpath h "skill-materials" in
  e <- path_exists global_materials ;;
  ret (if e then dirs ++ [(global_materials, "global")] else dirs).

(** [get_materials_dir()]. *)
Definition get_materials_dir : M path :=
  dirs <- get_materials_dirs ;;
  match dirs with
  | (d, _) :: _ => ret d
  | [] =>
      project_root <- find_project_root None ;;
      match project_root with
      | Some root => ret (joinpath (joinpath root ".claude") "temp-materials")
      | None => h <- gets home ;; ret (joinpath h "skill-materials")
      end
  end.

(** [get_dir_size] on the directory that [n] is.  [os.scandir] of an
    unreadable directory raises [PermissionError] before the first
    iteration; the [except PermissionError: pass] of the same call catches
    it, and also a [PermissionError] that escapes from an iteration, and the
    total reached so far is returned. *)
Fixpoint walk_size (n : node) : result Z :=
  match n with
  | Dir m kids =>
      if can_read m then
        (fix loop (l : list (string * node)) (total : Z) : result Z :=
           match l with
           | [] => Ok total
           | (_, k) :: rest =>
               match k with
               | File st_size => loop rest (total + st_size)%Z
               | Dir _ _ =>
                   match walk_size k with
                   | Ok s => loop rest (total + s)%Z
                   | Raise PermissionError => Ok total
                   | Raise e => Raise e
                   | Diverged => Diverged
                   end
               | Symlink _ => loop rest total
               end
           end) kids 0%Z
      else Ok 0%Z
  | _ => Raise NotADirectoryError
  end.

(** [get_dir_size(path)]: [os.scandir(path)] follows a link in [path]
    itself, the walk below it follows none. *)
Definition get_dir_size (p : path) : M Z :=
  fun w =>
    match stat (fs w) p with
    | Some n => (walk_size n, w)
    | None => (Raise FileNotFoundError, w)
    end.

(** One decimal place, as [f"{x:.1f}"] prints the exact quotient
    [num / den]: rounded to nearest, ties to even. *)
Definition fmt_1f (num den : Z) : string :=
  let t := (10 * num)%Z in
  let q := (t / den)%Z in
  let r := (t mod den)%Z in
  let tenths :=
    if (2 * r <? den)%Z then q
    else if (den <? 2 * r)%Z then (q + 1)%Z
    else if Z.even q then q else (q + 1)%Z in
  str_int (tenths / 10) +:+ "." +:+ str_int (tenths mod 10).

(** The loop of [format_size]: [bytes_size] is [num / den].  Division by
    [1024.0] is exact in binary floating point, so the quotient is the
    exact one for sizes below [2^53]. *)
Fixpoint format_size_units (units : list string) (num den : Z) : string :=
  match units with
  | [] => fmt_1f num den +:+ " TB"
  | unit :: rest =>
      if (num <? 1024 * den)%Z then fmt_1f num den +:+ " " +:+ unit
      else format_size_units rest num (den * 1024)%Z
  end.

Definition format_size (bytes_size : Z) : string :=
  format_size_units ["B"; "KB"; "MB"; "GB"] bytes_size 1%Z.

(** The dictionary built for each material. *)
Record material := Material {
  m_name : string;
  m_path : path;
  m_size : Z;
  m_size_str : string;
  m_mode : string
}.

(** The inner loop of [list_materials] over the sorted items of one
    directory. *)
Fixpoint scan_items (items : list path) (mode : string)
    (materials : list material) : M (list material) :=
  match items with
  | [] => ret materials
  | item :: rest =>
      d <- path_is_dir item ;;
      if d && negb (startswith (name item) ".") then
        size <- get_dir_size item ;;
        scan_items rest mode
          (materials ++ [Material (name item) item size (format_size size) mode])
      else scan_items rest mode materials
  end.

(** The outer loop of [list_materials] over the directories. *)
Fixpoint scan_dirs (dirs : list (path * string))
    (materials : list material) : M (list material) :=
  match dirs with
  | [] => ret materials
  | (materials_dir, mode) :: rest =>
      items <- iterdir materials_dir ;;
      materials <- scan_items (sorted items) mode materials ;;
      scan_dirs rest materials
  end.

(** [list_materials()]. *)
Definition list_materials : M (list material) :=
  dirs <- get_materials_dirs ;;
  match dirs with
  | [] =>
      print (nl +:+ "📂 No materials directories found") ;;
      print "   Checked:" ;;
      project_root <- find_project_root None ;;
      match project_root with
      | Some root =>
          print ("   - " +:+ str root +:+ "/.claude/temp-materials/ (project mode)")
      | None => ret tt
      end ;;
      print "   - ~/skill-materials/ (global mode)" ;;
      ret []
  | _ :: _ => scan_dirs dirs []
  end.

(** [str(project_root)] inside an f-string; [None] prints as its name. *)
Definition str_opt (p : option path) : string :=
  match p with Some p => str p | None => "None" end.

(** The numbered lines of one group of [print_materials_list]. *)
Fixpoint print_group (l : list material) (index total_size : Z) : M (Z * Z) :=
  match l with
  | [] => ret (index, total_size)
  | mat :: rest =>
      print ("     " +:+ str_int index +:+ ". " +:+ ljust (m_name mat) 28
             +:+ " " +:+ rjust (m_size_str mat) 10) ;;
      print_group rest (index + 1)%Z (total_size + m_size mat)%Z
  end.

(** [print_materials_list(materials)]. *)
Definition print_materials_list (materials : list material) : M unit :=
  match materials with
  | [] => print (nl +:+ "✅ No materials found")
  | _ :: _ =>
      let project_materials :=
        filter (fun m => m_mode m = "project") materials in
      let global_materials :=
        filter (fun m => m_mode m = "global") materials in
      print (nl +:+ "📂 Source materials:" +:+ nl) ;;
      st <- match project_materials with
            | [] => ret (1%Z, 0%Z)
            | _ :: _ =>
                project_root <- find_project_root None ;;
                print ("  📍 Project mode (" +:+ str_opt project_root
                       +:+ "/.claude/temp-materials/):") ;;
                st <- print_group project_materials 1%Z 0%Z ;;
                print "" ;;
                ret st
            end ;;
      st <- match global_materials with
            | [] => ret st
            | _ :: _ =>
                print "  🌍 Global mode (~/skill-materials/):" ;;
                st <- print_group global_materials (fst st) (snd st) ;;
                print "" ;;
                ret st
            end ;;
      print ("  Total: " +:+ str_int (Z.of_nat (length materials))
             +:+ " projects, " +:+ format_size (snd st))
  end.

(** [confirm_deletion(name, size_str)]. *)
Definition confirm_deletion (name size_str : string) : M bool :=
  print (nl +:+ "⚠️  About to delete: " +:+ name +:+ " (" +:+ size_str +:+ ")") ;;
  r <- input "   Confirm deletion? (y/n): " ;;
  let response := lower (strip r) in
  ret (String.eqb response "y").

(** [delete_material(material, force=False)].  [except Exception] catches
    every exception of the model. *)
Definition delete_material (mat : material) (force : bool) : M bool :=
  go <- (if negb force then confirm_deletion (m_name mat) (m_size_str mat)
         else ret true) ;;
  if negb go then
    print "   Skipped" ;; ret false
  else
    try_except
      (rmtree (m_path mat) ;;
       print ("   ✅ Deleted: " +:+ m_name mat +:+ " (" +:+ m_size_str mat +:+ ")") ;;
       ret true)
      (fun e => Some (
         print ("   ❌ Error deleting " +:+ m_name mat +:+ ": " +:+ str_exn e) ;;
         ret false)).

(** The [for mat in materials] loop of the [all] branch of
    [interactive_cleanup]. *)
Fixpoint delete_each (materials : list material) (deleted_count : Z) : M Z :=
  match materials with
  | [] => ret deleted_count
  | mat :: rest =>
      ok <- delete_material mat false ;;
      delete_each rest (if ok then deleted_count + 1 else deleted_count)%Z
  end.

(** [l[index]]: a negative index counts from the end, an index out of
    range raises [IndexError]. *)
Definition list_index {A} (l : list A) (index : Z) : option A :=
  let n := Z.of_nat (length l) in
  if (0 <=? index)%Z then l !! Z.to_nat index
  else if (- n <=? index)%Z then l !! Z.to_nat (n + index)
  else None.

(** [materials[index]]. *)
Definition nth_material (materials : list material) (index : Z) : M material :=
  match list_index materials index with
  | Some mat => ret mat
  | None => raise IndexError
  end.

(** The [while True] loop of [interactive_cleanup]; [fuel] bounds the
    number of iterations. *)
Fixpoint interactive_loop (fuel : nat) (materials : list material) : M unit :=
  match fuel with
  | 0 => diverge
  | S fuel' =>
      r <- input (nl +:+ "Your choice: ") ;;
      let response := lower (strip r) in
      if String.eqb response "quit" then
        print (nl +:+ "Exiting without changes")
      else if String.eqb response "all" then
        print (nl +:+ "⚠️  WARNING: This will delete ALL "
               +:+ str_int (Z.of_nat (length materials)) +:+ " materials!") ;;
        c <- input "   Type 'DELETE ALL' to confirm: " ;;
        let confirm := strip c in
        if String.eqb confirm "DELETE ALL" then
          deleted_count <- delete_each materials 0%Z ;;
          print (nl +:+ "✅ Deleted " +:+ str_int deleted_count +:+ "/"
                 +:+ str_int (Z.of_nat (length materials)) +:+ " materials")
        else print "   Cancelled"
      else
        match int_of_str response with
        | Some i =>
            let index := (i - 1)%Z in
            (if (0 <=? index)%Z && (index <? Z.of_nat (length materials))%Z then
               mat <- nth_material materials index ;;
               delete_material mat false ;; ret tt
             else
               print ("   Invalid index. Choose 1-"
                      +:+ str_int (Z.of_nat (length materials)))) ;;
            interactive_loop fuel' materials
        | None =>
            print "   Invalid input. Try again or type 'quit'" ;;
            interactive_loop fuel' materials
        end
  end.

(** [interactive_cleanup()].  Every iteration of the loop reads a line, so
    it cannot run more often than there are lines to read, plus once. *)
Definition interactive_cleanup : M unit :=
  materials <- list_materials ;;
  match materials with
  | [] => ret tt
  | _ :: _ =>
      print_materials_list materials ;;
      print (nl +:+ "💡 Options:") ;;
      print "   1-N: Delete specific project" ;;
      print "   'all': Delete all materials" ;;
      print "   'quit': Exit without deleting" ;;
      lines <- gets stdin ;;
      interactive_loop (S (length lines)) materials
  end.

(** A name that is one component of a path: it is not empty, it is neither
    [.] nor [..], it holds no slash, and it is no longer than the 255
    bytes of a file name.  For such a name [materials_dir / name] is the
    entry [name] of [materials_dir], which is how the search below takes
    it.  The other names lead elsewhere and lie outside this model:
    [pathlib] drops a component [.], so that [materials_dir / "."] is
    [materials_dir] itself, the system reads [..] as the directory above,
    a slash makes several components or an absolute path, and a name that
    is too long makes the system refuse the question whether it exists. *)
Fixpoint has_slash (s : string) : bool :=
  match s with
  | EmptyString => false
  | String c s' => Ascii.eqb c "/"%char || has_slash s'
  end.

Definition is_component (name : string) : bool :=
  negb (String.eqb name "") && negb (String.eqb name ".")
  && negb (String.eqb name "..") && negb (has_slash name)
  && Nat.leb (String.length name) 255.

(** The search loop of [cleanup_specific]: the first directory that holds
    [name], with its mode.  The [name] is one component of a path
    ([is_component]). *)
Fixpoint search_dirs (dirs : list (path * string)) (name : string)
    : M (option (path * string)) :=
  match dirs with
  | [] => ret None
  | (materials_dir, dir_mode) :: rest =>
      let candidate := joinpath materials_dir name in
      e <- path_exists candidate ;;
      if e then ret (Some (candidate, dir_mode))
      else search_dirs rest name
  end.

(** The loop that prints the directories searched. *)
Fixpoint print_searched (dirs : list (path * string)) : M unit :=
  match dirs with
  | [] => ret tt
  | (materials_dir, dir_mode) :: rest =>
      print ("   - " +:+ str materials_dir +:+ " (" +:+ dir_mode +:+ " mode)") ;;
      print_searched rest
  end.

(** [cleanup_specific(name, force=False)], for a [name] that is one
    component of a path ([is_component]). *)
Definition cleanup_specific (name : string) (force : bool) : M bool :=
  dirs <- get_materials_dirs ;;
  dirs <- match dirs with
          | [] => d <- get_materials_dir ;; ret [(d, "auto")]
          | _ :: _ => ret dirs
          end ;;
  target <- search_dirs dirs name ;;
  match target with
  | None =>
      print (nl +:+ "❌ Material not found: " +:+ name) ;;
      print "   Searched in:" ;;
      print_searched dirs ;;
      ret false
  | Some (target_path, mode) =>
      size <- get_dir_size target_path ;;
      let size_str := format_size size in
      let mat := Material name target_path size size_str mode in
      print ("   Found in: " +:+ mode +:+ " mode - " +:+ str (parent target_path)) ;;
      delete_material mat force
  end.

(** The deletion loop of [cleanup_all]. *)
Fixpoint remove_each (materials : list material) (deleted_count : Z) : M Z :=
  match materials with
  | [] => ret deleted_count
  | mat :: rest =>
      deleted_count <-
        try_except
          (rmtree (m_path mat) ;;
           let deleted_count := (deleted_count + 1)%Z in
           print ("   ✅ Deleted: " +:+ m_name mat +:+ " (" +:+ m_size_str mat +:+ ")") ;;
           ret deleted_count)
          (fun e => Some (
             print ("   ❌ Error deleting " +:+ m_name mat +:+ ": " +:+ str_exn e) ;;
             ret deleted_count)) ;;
      remove_each rest deleted_count
  end.

(** [cleanup_all(force=False)]. *)
Definition cleanup_all (force : bool) : M unit :=
  materials <- list_materials ;;
  match materials with
  | [] => ret tt
  | _ :: _ =>
      print_materials_list materials ;;
      go <- (if negb force then
               print (nl +:+ "⚠️  WARNING: This will delete ALL "
                      +:+ str_int (Z.of_nat (length materials)) +:+ " materials!") ;;
               c <- input "   Type 'DELETE ALL' to confirm: " ;;
               let confirm := strip c in
               if negb (String.eqb confirm "DELETE ALL") then
                 print "   Cancelled" ;; ret false
               else ret true
             else ret true) ;;
      if go then
        deleted_count <- remove_each materials 0%Z ;;
        print (nl +:+ "✅ Deleted " +:+ str_int deleted_count +:+ "/"
               +:+ str_int (Z.of_nat (length materials)) +:+ " materials")
      else ret tt
  end.

(** The parsed command line. *)
Record args := Args {
  a_name : option string;
  a_list : bool;
  a_all : bool;
  a_force : bool
}.

(** [main()] after [parse_args]. *)
Definition main (a : args) : M unit :=
  print (nl +:+ "============================================================") ;;
  print "SOURCE MATERIALS CLEANUP" ;;
  print "============================================================" ;;
  if a_list a then
    materials <- list_materials ;;
    print_materials_list materials
  else if a_all a then cleanup_all (a_force a)
  else
    match a_name a with
    | Some (String c s) => cleanup_specific (String c s) (a_force a) ;; ret tt
    | _ => interactive_cleanup
    end.

End Cleanup.

(** ** The boundary search of [scripts/fetch_source.py] *)

Module Fetch.
Import Fs Py.

(** The loop of [find_project_root] with the exclusion of the tool's own
    directory.  [fuel] bounds the number of iterations. *)
Fixpoint walk_up (fuel : nat) (is_skill_forge_dir : bool) (script_dir : path)
    (current : path) : M (option path) :=
  match fuel with
  | 0 => diverge
  | S fuel' =>
      if bool_decide (current <> parent current) then
        git <- path_exists (joinpath current ".git") ;;
        marked <- (if git then ret true
                   else path_exists (joinpath current ".claude")) ;;
        if marked then
          if is_skill_forge_dir && bool_decide (current = script_dir) then
            walk_up fuel' is_skill_forge_dir script_dir (parent current)
          else ret (Some current)
        else walk_up fuel' is_skill_forge_dir script_dir (parent current)
      else ret None
  end.

(** [find_project_root(start_path=None)].  As in the cleanup tool,
    [Path.cwd()] is read off the world. *)
Definition find_project_root (start_path : option path) : M (option path) :=
  start <- match start_path with
           | None => gets cwd
           | Some p => ret p
           end ;;
  let current := start in
  file <- gets script ;;
  let script_dir := parent (parent file) in
  has_skill_md <- path_exists (joinpath script_dir "SKILL.md") ;;
  let is_skill_forge_dir :=
    has_skill_md && String.eqb (name script_dir) "skill-forge" in
  walk_up (S (length current)) is_skill_forge_dir script_dir current.

(** [get_smart_materials_dir(project_name)]. *)
Definition get_smart_materials_dir (project_name : string) : M (path * bool) :=
  project_root <- find_project_root None ;;
  match project_root with
  | Some root =>
      ret (joinpath (joinpath root ".claude") "temp-materials", true)
  | None =>
      h <- gets home ;;
      ret (joinpath h "skill-materials", false)
  end.

End Fetch.

(** ** [scripts/package_skill.py] *)

Module Package.
Import Fs Py.

Definition allowed_paths : list string := ["scripts"; "references"; "assets"].

(** The test that sets [should_include], on the path of a file relative to
    the skill directory and the name of the file. *)
Definition should_include (rel_path : path) (file_name : string) : bool :=
  if String.eqb (name rel_path) "SKILL.md" && (length rel_path =? 1) then true
  else if (0 <? length rel_path)
          && match rel_path with
             | top :: _ => bool_decide (top ∈ allowed_paths)
             | [] => false
             end then
    if negb (bool_decide ("__pycache__" ∈ rel_path))
       && negb (endswith file_name ".pyc")
    then true else false
  else false.

(** The body of the loop over [skill_path.rglob('*')]. *)
Fixpoint add_files (skill_path : path) (files : list path) : M unit :=
  match files with
  | [] => ret tt
  | file_path :: rest =>
      f <- path_is_file file_path ;;
      (if f then
         let rel_path := relative_to file_path skill_path in
         if should_include rel_path (name file_path) then
           let arcname := relative_to file_path (parent skill_path) in
           zip_write file_path arcname ;;
           print ("  Added: " +:+ str_rel arcname)
         else
           print ("  Skipped: "
                  +:+ str_rel (relative_to file_path (parent skill_path)))
       else ret tt) ;;
      add_files skill_path rest
  end.

Section WithValidator.

(** [quick_validate.validate_skill], which is not part of these sources:
    it reads the skill directory and returns a verdict and a message.  It
    is taken to return: the call stands outside the [try] of
    [package_skill], so that an exception of the validator would leave
    the function. *)
Variable validate_skill : node -> path -> bool * string.

(** [package_skill(skill_path, output_dir=None)].  Both paths are taken as
    resolved; an [output_dir] that is the empty string counts as [None]. *)
Definition package_skill (skill_path : path) (output_dir : option path)
    : M (option path) :=
  e <- path_exists skill_path ;;
  if negb e then
    print ("❌ Error: Skill folder not found: " +:+ str skill_path) ;;
    ret None
  else
  d <- path_is_dir skill_path ;;
  if negb d then
    print ("❌ Error: Path is not a directory: " +:+ str skill_path) ;;
    ret None
  else
  let skill_md := joinpath skill_path "SKILL.md" in
  e <- path_exists skill_md ;;
  if negb e then
    print ("❌ Error: SKILL.md not found in " +:+ str skill_path) ;;
    ret None
  else
  print "🔍 Validating skill..." ;;
  verdict <- gets (fun w => validate_skill (fs w) skill_path) ;;
  let (valid, message) := verdict in
  if negb valid then
    print ("❌ Validation failed: " +:+ message) ;;
    print "   Please fix the validation errors before packaging." ;;
    ret None
  else
  print ("✅ " +:+ message +:+ nl) ;;
  let skill_name := name skill_path in
  output_path <- match output_dir with
                 | Some o => mkdir_parents o ;; ret o
                 | None => ret skill_path
                 end ;;
  let zip_filename := joinpath output_path (skill_name +:+ ".zip") in
  try_except
    (zip_open zip_filename ;;
     files <- gets (fun w => rglob (fs w) skill_path) ;;
     add_files skill_path files ;;
     print (nl +:+ "✅ Successfully packaged skill to: " +:+ str zip_filename) ;;
     ret (Some zip_filename))
    (fun e => Some (
       print ("❌ Error creating zip file: " +:+ str_exn e) ;;
       ret None)).

End WithValidator.

End Package.

(** ** What the functions compute, read off the world

    The definitions of this module describe results directly in terms of the
    directory tree.  The theorems further down show that the functions of
    the scripts compute them. *)

Module Reading.
Import Fs Py Cleanup.

(** A directory is marked when it holds [.git] or [.claude]. *)
Definition has_marker (t : node) (d : path) : bool :=
  exists_ t (joinpath d ".git") || exists_ t (joinpath d ".claude").

(** The directories an upward walk from [p] tests, nearest first: [p]
    itself and its ancestors strictly below the filesystem root. *)
Definition ancestors (p : path) : list path :=
  map (fun n => take n p) (rev (seq 1 (length p))).

(** The project boundary as [cleanup_materials.py] finds it. *)
Definition project_root (w : world) : option path :=
  find (has_marker (fs w)) (ancestors (cwd w)).

(** The directory two levels above the running script, and whether it is
    recognised as the tool's own directory. *)
Definition tool_dir (w : world) : path := parent (parent (script w)).

Definition is_tool_dir (w : world) : bool :=
  exists_ (fs w) (joinpath (tool_dir w) "SKILL.md")
  && String.eqb (name (tool_dir w)) "skill-forge".

(** The directories the walk of [fetch_source.py] may answer with. *)
Definition fetch_boundary (w : world) (d : path) : bool :=
  has_marker (fs w) d
  && negb (is_tool_dir w && bool_decide (d = tool_dir w)).

Definition fetch_project_root (w : world) : option path :=
  find (fetch_boundary w) (ancestors (cwd w)).

Definition project_materials (root : path) : path :=
  joinpath (joinpath root ".claude") "temp-materials".

Definition global_materials (w : world) : path :=
  joinpath (home w) "skill-materials".

(** The roots that exist, Project before Global. *)
Definition candidate_roots (w : world) : list (path * string) :=
  match project_root w with
  | Some root =>
      if exists_ (fs w) (project_materials root)
      then [(project_materials root, "project")] else []
  | None => []
  end ++
  (if exists_ (fs w) (global_materials w)
   then [(global_materials w, "global")] else []).

(** Where new material goes. *)
Definition default_target (w : world) : path :=
  match project_root w with
  | Some root => project_materials root
  | None => global_materials w
  end.

(** The bytes of the regular files that can be reached from [n] through
    directories that can be listed, no link followed. *)
Fixpoint readable_size (n : node) : Z :=
  match n with
  | File st_size => st_size
  | Symlink _ => 0
  | Dir m kids =>
      if can_read m then
        (fix sum (l : list (string * node)) : Z :=
           match l with
           | [] => 0
           | (_, k) :: rest => readable_size k + sum rest
           end) kids
      else 0
  end%Z.

(** The bytes of all regular files below [n], no link followed. *)
Fixpoint tree_size (n : node) : Z :=
  match n with
  | File st_size => st_size
  | Symlink _ => 0
  | Dir m kids =>
      (fix sum (l : list (string * node)) : Z :=
         match l with
         | [] => 0
         | (_, k) :: rest => tree_size k + sum rest
         end) kids
  end%Z.

(** No file has a negative size. *)
Fixpoint sizes_ok (n : node) : bool :=
  match n with
  | File st_size => (0 <=? st_size)%Z
  | Symlink _ => true
  | Dir m kids =>
      (fix all (l : list (string * node)) : bool :=
         match l with
         | [] => true
         | (_, k) :: rest => sizes_ok k && all rest
         end) kids
  end.

(** Every directory below [n] can be listed. *)
Fixpoint all_readable (n : node) : bool :=
  match n with
  | Dir m kids =>
      can_read m &&
      (fix all (l : list (string * node)) : bool :=
         match l with
         | [] => true
         | (_, k) :: rest => all_readable k && all rest
         end) kids
  | _ => true
  end.

(** An entry of a directory that the size walk passes over: a link, or a
    directory that cannot be listed. *)
Definition skipped (k : node) : Prop :=
  match k with
  | Symlink _ => True
  | Dir m _ => can_read m = false
  | File _ => False
  end.

Definition size_at (t : node) (p : path) : Z :=
  match stat t p with
  | Some n => readable_size n
  | None => 0%Z
  end.

(** An item of a root is an entry when it is a directory whose name does
    not start with a dot. *)
Definition hidden (name : string) : bool := startswith name ".".

Definition qualifies (t : node) (item : path) : bool :=
  is_dir t item && negb (hidden (name item)).

Definition entry_of (t : node) (mode : string) (item : path) : material :=
  Material (name item) item (size_at t item) (format_size (size_at t item)) mode.

(** The entries of one root, given its items in listing order. *)
Definition collect (t : node) (mode : string) (items : list path) : list material :=
  map (entry_of t mode) (filter (fun item => qualifies t item = true) items).

(** The items of a root directory whose entries are [kids]. *)
Definition items_of (d : path) (kids : list (string * node)) : list path :=
  map (fun e => joinpath d (fst e)) kids.

(** The inventory over a list of roots; listing a root may fail. *)
Fixpoint inventory (t : node) (dirs : list (path * string)) : result (list material) :=
  match dirs with
  | [] => Ok []
  | (d, mode) :: rest =>
      match scandir t d with
      | Ok kids =>
          match inventory t rest with
          | Ok ms => Ok (collect t mode (sorted (items_of d kids)) ++ ms)
          | r => r
          end
      | Raise e => Raise e
      | Diverged => Diverged
      end
  end.

(** Two paths neither of which lies at or below the other. *)
Definition apart (p q : path) : Prop := ~ p `prefix_of` q /\ ~ q `prefix_of` p.

(** What [steps] of [shutil.rmtree] calls, made in this order, leave of a
    tree. *)
Definition after_rmtrees (t : node) (steps : list path) : node :=
  foldl (fun t p => fst (rmtree_at t p)) t steps.

(** How many of the [shutil.rmtree] calls [steps], made in this order
    from the tree [t], succeed. *)
Fixpoint succeeded (t : node) (steps : list path) : nat :=
  match steps with
  | [] => 0
  | p :: rest =>
      (match snd (rmtree_at t p) with None => 1 | Some _ => 0 end)
      + succeeded (fst (rmtree_at t p)) rest
  end.

(** [w'] is reached from [w] by printing, by reading lines and by the
    [shutil.rmtree] calls [steps], in this order, and by nothing else. *)
Record reached (steps : list path) (w w' : world) : Prop := Reached {
  reached_cwd : cwd w' = cwd w;
  reached_home : home w' = home w;
  reached_script : script w' = script w;
  reached_zip : zip_log w' = zip_log w;
  reached_log : rmtree_log w' = rmtree_log w ++ steps;
  reached_fs : fs w' = after_rmtrees (fs w) steps;
  reached_out : stdout w `prefix_of` stdout w';
  reached_in : stdin w' `suffix_of` stdin w
}.

(** The paths of the entries of the inventory. *)
Definition inventory_paths (w : world) : list path :=
  match inventory (fs w) (candidate_roots w) with
  | Ok ms => map m_path ms
  | _ => []
  end.

(** The directories [cleanup_specific] searches: the candidate roots, or
    the default target alone when there is none. *)
Definition searched (w : world) : list (path * string) :=
  match candidate_roots w with
  | [] => [(default_target w, "auto")]
  | dirs => dirs
  end.

(** The first of [dirs] that holds something called [name]: the path found
    and the mode of the directory. *)
Fixpoint first_holding (t : node) (dirs : list (path * string)) (name : string)
    : option (path * string) :=
  match dirs with
  | [] => None
  | (d, mode) :: rest =>
      if exists_ t (joinpath d name) then Some (joinpath d name, mode)
      else first_holding t rest name
  end.

(** The line that names a searched directory. *)
Definition searched_line (dir : path * string) : string :=
  "   - " +:+ str (fst dir) +:+ " (" +:+ snd dir +:+ " mode)".

(** Running [m] in [w] makes [shutil.rmtree] calls on members of [T] only,
    and beyond them only prints and reads lines. *)
Definition confined {A} (T : list path) (m : M A) (w : world) : Prop :=
  exists steps, reached steps w (snd (m w)) /\ Forall (fun p => p ∈ T) steps.

(** The listing order: the entries of the Project root before those of the
    Global root, each group by name. *)
Definition listed_in_order (ms : list material) : Prop :=
  exists ps gs,
    ms = ps ++ gs
    /\ Forall (fun m => m_mode m = "project") ps
    /\ Forall (fun m => m_mode m = "global") gs
    /\ StronglySorted String.le (map m_name ps)
    /\ StronglySorted String.le (map m_name gs).

(** A file of a skill directory, given by its path [rel] relative to the
    directory, belongs in the archive: it is the marker file at the top, or
    its first component is one of the allowed names and it is no Python
    cache artifact. *)
Definition packable (rel : path) : Prop :=
  rel = ["SKILL.md"]
  \/ (exists top rest,
        rel = top :: rest
        /\ top ∈ Package.allowed_paths
        /\ ("__pycache__" ∉ rel)
        /\ endswith (name rel) ".pyc" = false).

(** The regular files that the walk over a skill directory meets. *)
Definition walked_files (t : node) (skill_path : path) : list path :=
  filter (fun f => is_file t f = true) (rglob t skill_path).

(** The line printed for a walked file. *)
Definition report_line (skill_path file_path : path) : string :=
  (if Package.should_include (relative_to file_path skill_path) (name file_path)
   then "  Added: " else "  Skipped: ")
  +:+ str_rel (relative_to file_path (parent skill_path)).

(** The members written for a list of walked files. *)
Definition members (skill_path : path) (files : list path) : list (path * path) :=
  map (fun f => (f, relative_to f (parent skill_path)))
    (filter (fun f => Package.should_include (relative_to f skill_path) (name f)
                      = true) files).

(** Running [m] in [w] comes to an end within the iteration bounds of the
    model. *)
Definition settles {A} (m : M A) (w : world) : Prop := fst (m w) <> Diverged.

End Reading.

(** ** Concrete worlds

    Small directory trees on which the theorems below are exercised. *)

Module Scenarios.
Import Fs Py Cleanup.

Definition dir (entries : list (string * node)) : node := Dir rw entries.

(** A checkout of the tool inside a larger repository, the operator working
    in the tool's [scripts] directory:
<<
    /work/.git/
    /work/skill-forge/.git/
    /work/skill-forge/.claude/temp-materials/demo/
    /work/skill-forge/SKILL.md
    /work/skill-forge/scripts/fetch_source.py
    /work/skill-forge/scripts/cleanup_materials.py
    /home/u/
>> *)
Definition tool_tree : node :=
  dir [("work", dir [
         (".git", dir []);
         ("skill-forge", dir [
            (".git", dir []);
            (".claude", dir [("temp-materials", dir [("demo", dir [("f", File 4)])])]);
            ("SKILL.md", File 100);
            ("scripts", dir [("fetch_source.py", File 50);
                             ("cleanup_materials.py", File 60)])])]);
       ("home", dir [("u", dir [])])].

Definition tool_world : world :=
  World tool_tree ["work"; "skill-forge"; "scripts"] ["home"; "u"]
        ["work"; "skill-forge"; "scripts"; "cleanup_materials.py"] [] [] [] [].

(** A project with materials of its own and a global root, both holding an
    entry [alpha]; the global root also holds a hidden directory, a plain
    file and a link:
<<
    /home/u/proj/.git/
    /home/u/proj/.claude/temp-materials/alpha/h        (2048 bytes)
    /home/u/proj/.claude/temp-materials/zeta/
    /home/u/proj/src/
    /home/u/skill-materials/beta/g                     (20 bytes)
    /home/u/skill-materials/.cache/x                   (5 bytes)
    /home/u/skill-materials/alpha/f                    (10 bytes)
    /home/u/skill-materials/alpha/l -> /home/u
    /home/u/skill-materials/note.txt
>> *)
Definition two_roots_tree : node :=
  dir [("home", dir [("u", dir [
         ("proj", dir [
            (".git", dir []);
            (".claude", dir [("temp-materials", dir [
               ("zeta", dir []);
               ("alpha", dir [("h", File 2048)])])]);
            ("src", dir [])]);
         ("skill-materials", dir [
            ("beta", dir [("g", File 20)]);
            (".cache", dir [("x", File 5)]);
            ("alpha", dir [("f", File 10); ("l", Symlink ["home"; "u"])]);
            ("note.txt", File 3)])])])].

Definition two_roots (lines : list string) : world :=
  World two_roots_tree ["home"; "u"; "proj"; "src"] ["home"; "u"]
        ["opt"; "skill-forge"; "scripts"; "cleanup_materials.py"] lines [] [] [].

Definition project_root_dir : path :=
  ["home"; "u"; "proj"; ".claude"; "temp-materials"].

Definition global_root_dir : path := ["home"; "u"; "skill-materials"].

(** A global root alone, holding one entry:
<<
    /home/u/skill-materials/alpha/f                    (10 bytes)
>> *)
Definition one_entry_tree : node :=
  dir [("home", dir [("u", dir [
         ("skill-materials", dir [("alpha", dir [("f", File 10)])])])])].

Definition one_entry (lines : list string) : world :=
  World one_entry_tree ["home"; "u"] ["home"; "u"]
        ["opt"; "skill-forge"; "scripts"; "cleanup_materials.py"] lines [] [] [].

(** No root at all; the operator works inside a project:
<<
    /home/u/proj/.git/
>> *)
Definition no_roots_tree : node :=
  dir [("home", dir [("u", dir [("proj", dir [(".git", dir [])])])])].

Definition no_roots : world :=
  World no_roots_tree ["home"; "u"; "proj"] ["home"; "u"]
        ["opt"; "skill-forge"; "scripts"; "cleanup_materials.py"] [] [] [] [].

(** An entry with a subdirectory that cannot be listed:
<<
    /home/u/skill-materials/repo/a                     (7 bytes)
    /home/u/skill-materials/repo/secret/  (no read permission)
    /home/u/skill-materials/repo/secret/k              (1000 bytes)
    /home/u/skill-materials/repo/l -> /home/u
    /home/u/skill-materials/repo/sub/b                 (30 bytes)
>> *)
Definition guarded_tree : node :=
  dir [("home", dir [("u", dir [
         ("skill-materials", dir [
            ("repo", dir [
               ("a", File 7);
               ("secret", Dir (Mode false true) [("k", File 1000)]);
               ("l", Symlink ["home"; "u"]);
               ("sub", dir [("b", File 30)])])])])])].

Definition guarded : world :=
  World guarded_tree ["home"; "u"] ["home"; "u"]
        ["opt"; "skill-forge"; "scripts"; "cleanup_materials.py"] [] [] [] [].

(** A skill directory ready for packaging:
<<
    /work/my-skill/SKILL.md
    /work/my-skill/README.md
    /work/my-skill/scripts/run.py
    /work/my-skill/scripts/run.pyc
    /work/my-skill/scripts/__pycache__/run.cpython-311.pyc
    /work/my-skill/references/api/index.md
    /work/my-skill/tests/test_run.py
>> *)
Definition skill_tree : node :=
  dir [("work", dir [("my-skill", dir [
         ("SKILL.md", File 100);
         ("README.md", File 7);
         ("scripts", dir [("run.py", File 50);
                          ("run.pyc", File 9);
                          ("__pycache__", dir [("run.cpython-311.pyc", File 9)])]);
         ("references", dir [("api", dir [("index.md", File 2)])]);
         ("tests", dir [("test_run.py", File 1)])])])].

Definition skill_world : world :=
  World skill_tree ["work"] ["home"; "u"]
        ["opt"; "skill-forge"; "scripts"; "package_skill.py"] [] [] [] [].

(** A validator that accepts everything. *)
Definition accept_all (_ : node) (_ : path) : bool * string :=
  (true, "Skill is valid!").

End Scenarios.

(** ** How an operation may end *)

Module Escapes.
Import Py.

(** Whatever exception leaves [m] run in [w] satisfies [P], together with
    the world it leaves behind. *)
Definition escapes {A} (P : exn -> world -> Prop) (m : M A) (w : world) : Prop :=
  forall e w', m w = (Raise e, w') -> P e w'.

(** The operator had no line left to give. *)
Definition out_of_input (e : exn) (w' : world) : Prop :=
  e = EOFError /\ stdin w' = [].

(** A directory could not be listed; nothing has been removed since [w]. *)
Definition unlistable (w : world) (e : exn) (w' : world) : Prop :=
  (e = PermissionError \/ e = NotADirectoryError)
  /\ fs w' = fs w /\ rmtree_log w' = rmtree_log w.

(** How an operation of the cleanup tool may fail, seen from the world
    [w0] in which the tool was started. *)
Definition may_fail (w0 : world) (e : exn) (w' : world) : Prop :=
  out_of_input e w' \/ unlistable w0 e w'.

(** How a run of the cleanup tool started in [w] can end. *)
Definition ends_well {A} (w : world) (r : result A * world) : Prop :=
  match r with
  | (Ok _, _) => True
  | (Raise e, w') => may_fail w e w'
  | (Diverged, _) => False
  end.
End Escapes.

(** ** The lines of a listing *)

Module Report.
Import Py Cleanup.

(** The line of a listing that shows an entry beside its number. *)
Definition numbered_line (index : Z) (mat : material) : string :=
  "     " +:+ str_int index +:+ ". " +:+ ljust (m_name mat) 28
  +:+ " " +:+ rjust (m_size_str mat) 10.

(** The lines of a run of entries numbered from [index] on. *)
Fixpoint numbered_from (index : Z) (l : list material) : list string :=
  match l with
  | [] => []
  | mat :: rest => numbered_line index mat :: numbered_from (index + 1) rest
  end.

(** The sizes of a list of entries, added up. *)
Definition total_size (l : list material) : Z :=
  foldr (fun mat acc => (m_size mat + acc)%Z) 0%Z l.
End Report.

(** ** [scripts/split_docs.py] *)

Module SplitDocs.
Import Py.

(** [pattern in s]: [pattern] occurs somewhere in [s]. *)
Fixpoint contains (pattern s : string) : bool :=
  String.prefix pattern s
  || match s with
     | String _ s' => contains pattern s'
     | EmptyString => false
     end.

(** The dictionary [sections], in the order of its keys: the name of the
    output file and its patterns. *)
Definition sections : list (string * list string) :=
  [("getting-started.md", ["introduction"; "installation"; "quickstart"]);
   ("core-concepts.md",
    ["concepts/agents"; "concepts/tasks"; "concepts/crews"; "concepts/tools$"]);
   ("advanced-features.md",
    ["concepts/flows"; "concepts/processes"; "concepts/planning";
     "concepts/reasoning"; "concepts/collaboration"; "concepts/memory";
     "concepts/knowledge"; "concepts/event-listener"]);
   ("llms-and-integrations.md", ["concepts/llms"; "mcp/"]);
   ("tools-reference.md",
    ["tools/ai-ml/"; "tools/cloud-storage/"; "tools/database-data/";
     "tools/file-document/"; "tools/search-research/"; "tools/web-scraping/";
     "tools/automation/"; "tools/integration/"]);
   ("cli-testing-training.md",
    ["concepts/cli"; "concepts/testing"; "concepts/training"]);
   ("guides-best-practices.md",
    ["guides/advanced/"; "guides/agents/"; "guides/concepts/"; "guides/crews/";
     "guides/flows/"]);
   ("examples-tutorials.md", ["learn/"; "examples/"; "observability/"])].

(** The two nested loops that look for the section of a [Source:] line:
    the first section, in the order of the dictionary, one of whose
    patterns occurs in [url]; [None] when nothing matched. *)
Fixpoint match_section (secs : list (string * list string)) (url : string)
    : option string :=
  match secs with
  | [] => None
  | (section_name, patterns) :: rest =>
      if existsb (fun pattern => contains pattern url) patterns
      then Some section_name
      else match_section rest url
  end.

(** The loop over the lines: [current_section] is carried from line to
    line and set anew by every [Source:] line.  The result holds, for each
    line, the entry of [line_sections], [None] where there is none. *)
Fixpoint assign_lines (lines : list string) (current_section : option string)
    : list (option string) :=
  match lines with
  | [] => []
  | line :: rest =>
      let current_section :=
        if startswith line "Source: https://docs.crewai.com/"
        then let url := strip line in match_section sections url
        else current_section in
      current_section :: assign_lines rest current_section
  end.

(** [line_sections] for the lines of the input. *)
Definition line_sections (lines : list string) : list (option string) :=
  assign_lines lines None.

(** The lines collected for one section, in the order of their numbers. *)
Definition section_lines (lines : list string) (section_name : string)
    : list string :=
  (filter (fun p => snd p = Some section_name)
     (zip lines (line_sections lines))).*1.

(** What [split_documentation] writes, given the lines of the input file:
    for each section in the order of the dictionary that was given any
    line, the name of the file and its lines. *)
Definition split_documentation (lines : list string)
    : list (string * list string) :=
  omap (fun sec =>
          let section_name := fst sec in
          match section_lines lines section_name with
          | [] => None
          | ls => Some (section_name, ls)
          end) sections.

End SplitDocs.

(** ** [scripts/detect_llms_txt.py] *)

Module DetectLlms.

(** The two fields of [urlparse(base_url)] that the detector reads. *)
Record parsed := Parsed { scheme : string; netloc : string }.

(** What [requests.head] comes back with: a response with its status
    code, or a [RequestException]. *)
Inductive response :=
| Status (status_code : Z)
| RequestException.

(** The dictionary returned for a variant that was found. *)
Record found := Found { url : string; variant : string; filename : string }.

(** The variants in the order of their priority. *)
Definition LLMS_TXT_VARIANTS : list (string * string) :=
  [("llms-full.txt", "full"); ("llms.txt", "standard"); ("llms-small.txt", "small")].

Section WithNetwork.

(** [urllib.parse.urlparse], and the answer of the network to a [HEAD]
    request with redirects followed.  Neither is part of these sources;
    the network is taken to answer the same request in the same way
    throughout a run. *)
Variable urlparse : string -> parsed.
Variable head : string -> response.

(** [_check_url_exists(url, timeout)]. *)
Definition _check_url_exists (url : string) : bool :=
  match head url with
  | Status status_code => (status_code =? 200)%Z
  | RequestException => false
  end.

(** The loop of [detect_llms_txt]: it returns at the first variant found. *)
Fixpoint first_variant (root_url : string) (variants : list (string * string))
    : option found :=
  match variants with
  | [] => None
  | (filename, variant) :: rest =>
      let url := root_url +:+ "/" +:+ filename in
      if _check_url_exists url then Some (Found url variant filename)
      else first_variant root_url rest
  end.

(** [detect_llms_txt(base_url)]. *)
Definition detect_llms_txt (base_url : string) : option found :=
  let parsed := urlparse base_url in
  let root_url := scheme parsed +:+ "://" +:+ netloc parsed in
  first_variant root_url LLMS_TXT_VARIANTS.

(** The loop of [detect_all_variants]. *)
Fixpoint all_variants (root_url : string) (variants : list (string * string))
    (found_variants : list found) : list found :=
  match variants with
  | [] => found_variants
  | (filename, variant) :: rest =>
      let url := root_url +:+ "/" +:+ filename in
      all_variants root_url rest
        (if _check_url_exists url
         then found_variants ++ [Found url variant filename]
         else found_variants)
  end.

(** [detect_all_variants(base_url)]. *)
Definition detect_all_variants (base_url : string) : list found :=
  let parsed := urlparse base_url in
  let root_url := scheme parsed +:+ "://" +:+ netloc parsed in
  let found_variants := [] in
  all_variants root_url LLMS_TXT_VARIANTS found_variants.

End WithNetwork.

End DetectLlms.

(** ** Trees that grow *)

Module Growth.
Import Fs.

(** Two nodes of the same kind: the same file, the same link, or two
    directories, whatever they hold. *)
Definition same_kind (k k' : node) : Prop :=
  match k, k' with
  | File s, File s' => s = s'
  | Symlink t, Symlink t' => t = t'
  | Dir _ _, Dir _ _ => True
  | _, _ => False
  end.

(** Everything that lies in [t] lies in [t'], and is of the same kind
    there. *)
Definition grows (t t' : node) : Prop :=
  forall q k, lstat t q = Some k ->
              exists k', lstat t' q = Some k' /\ same_kind k k'.

(** No entry called [.git] or [.claude] in a directory from which the
    search for the project walks up is a link that leads nowhere. *)
Definition markers_resolve (t : node) (from : path) : Prop :=
  forall d marker,
    d `prefix_of` from -> marker = ".git" \/ marker = ".claude" ->
    lstat t (joinpath d marker) <> None ->
    exists_ t (joinpath d marker) = true.

End Growth.

(** ** Places without symbolic links *)

Module Removal.
Import Fs Py Cleanup Reading.

(** At [q] lies nothing, or something that is no symbolic link. *)
Definition plain (t : node) (q : path) : Prop :=
  forall target, lstat t q <> Some (Symlink target).

(** The places of the two roots, whether they exist or not. *)
Definition root_places (w : world) : list path :=
  match project_root w with
  | Some root => [project_materials root]
  | None => []
  end ++ [global_materials w].

(** The listing meets no symbolic link: none among the markers above the
    working directory, none at the place of a root, none among the items
    of a root; and the two roots do not lie inside one another. *)
Definition listing_plain (w : world) : Prop :=
  (forall a marker,
     a `prefix_of` cwd w -> marker = ".git" \/ marker = ".claude" ->
     plain (fs w) (joinpath a marker))
  /\ (forall d c, d ∈ root_places w ->
                  plain (fs w) d /\ plain (fs w) (joinpath d c))
  /\ (forall root, project_root w = Some root ->
                   apart (project_materials root) (global_materials w)).

(** The tree holds no symbolic link at all. *)
Fixpoint no_links (n : node) : bool :=
  match n with
  | File _ => true
  | Symlink _ => false
  | Dir _ kids =>
      (fix all (l : list (string * node)) : bool :=
         match l with
         | [] => true
         | (_, k) :: rest => no_links k && all rest
         end) kids
  end.

End Removal.

Import Fs Py Cleanup Reading.

(** ** Facts about the directory tree *)

Lemma parent_snoc (p : path) (c : string) : parent (p ++ [c]) = p.
Proof. apply removelast_last. Qed.

Lemma parent_fixed (p : path) : p = parent p <-> p = [].
Proof.
  split; [|by intros ->].
  destruct p as [|c p] using rev_ind; [done|].
  rewrite parent_snoc. intros H. apply (f_equal length) in H.
  rewrite length_app in H. simpl in H. lia.
Qed.

Lemma name_snoc (p : path) (c : string) : name (p ++ [c]) = c.
Proof. apply last_last. Qed.

(** Case analysis on the name comparisons in the goal. *)
Ltac name_cases :=
  repeat match goal with
         | |- context [String.eqb ?a ?b] =>
             destruct (String.eqb_spec a b); subst; simpl; try done
         end.

Lemma assoc_set_entry_eq c v kids k :
  assoc c kids = Some k -> assoc c (set_entry c v kids) = Some v.
Proof.
  induction kids as [|[c' v'] kids IH]; simpl; [done|].
  name_cases; auto.
Qed.

Lemma assoc_set_entry_ne c c' v kids :
  c <> c' -> assoc c' (set_entry c v kids) = assoc c' kids.
Proof.
  intros Hne. induction kids as [|[c0 v0] kids IH]; simpl; [done|].
  name_cases.
Qed.

Lemma assoc_remove_entry_eq c kids : assoc c (remove_entry c kids) = None.
Proof.
  induction kids as [|[c' v'] kids IH]; simpl; [done|]. name_cases.
Qed.

Lemma assoc_remove_entry_ne c c' kids :
  c <> c' -> assoc c' (remove_entry c kids) = assoc c' kids.
Proof.
  intros Hne. induction kids as [|[c0 v0] kids IH]; simpl; [done|].
  name_cases.
Qed.

Lemma assoc_snoc_fresh c v (kids : list (string * node)) :
  assoc c kids = None -> assoc c (kids ++ [(c, v)]) = Some v.
Proof.
  induction kids as [|[c0 v0] kids IH]; simpl; name_cases.
Qed.

Lemma assoc_elem_of c (kids : list (string * node)) k :
  assoc c kids = Some k -> (c, k) ∈ kids.
Proof.
  induction kids as [|[c0 v0] kids IH]; simpl; [done|].
  destruct (String.eqb_spec c0 c) as [->|].
  - intros [= ->]. left.
  - intros H. right. auto.
Qed.

(** A path that exists hangs in a directory. *)
Lemma lstat_snoc n p c k :
  lstat n (p ++ [c]) = Some k ->
  exists m kids, lstat n p = Some (Dir m kids) /\ assoc c kids = Some k.
Proof.
  revert n. induction p as [|c0 p IH]; intros n; simpl.
  - destruct n as [| |m kids]; try done.
    destruct (assoc c kids) eqn:E; [|done]. intros [= ->]. eauto.
  - destruct n as [| |m kids]; try done.
    destruct (assoc c0 kids); [|done]. apply IH.
Qed.

Lemma follow_dir fuel t m kids : follow fuel t (Dir m kids) = Some (Dir m kids).
Proof. by destruct fuel. Qed.

Lemma exists_parent t p c :
  exists_ t (joinpath p c) = true -> is_dir t p = true.
Proof.
  unfold exists_, is_dir, stat, joinpath.
  destruct (lstat t (p ++ [c])) as [k|] eqn:E; [|done].
  apply lstat_snoc in E as (m & kids & -> & _). by rewrite follow_dir.
Qed.

Lemma is_dir_exists t p : is_dir t p = true -> exists_ t p = true.
Proof. unfold is_dir, exists_. by destruct (stat t p). Qed.

(** [rmtree] leaves alone what lies apart from its argument. *)
Lemma rmtree_at_frame p : forall q n,
  ~ p `prefix_of` q -> ~ q `prefix_of` p ->
  lstat (fst (rmtree_at n p)) q = lstat n q.
Proof.
  induction p as [|c rest IH]; intros q n Hpq Hqp.
  - destruct Hpq. apply prefix_nil.
  - destruct q as [|c' q']; [destruct Hqp; apply prefix_nil|].
    destruct n as [| |m kids]; try done. simpl.
    destruct (assoc c kids) as [k|] eqn:Ek; [|done].
    destruct (decide (c = c')) as [<-|Hne].
    + destruct rest as [|c2 rest'].
      { destruct Hpq. apply prefix_cons, prefix_nil. }
      destruct (rmtree_at k (c2 :: rest')) as [k' e] eqn:Er. simpl.
      rewrite (assoc_set_entry_eq _ _ _ _ Ek), Ek.
      specialize (IH q' k). rewrite Er in IH. apply IH.
      * intros H. apply Hpq. by apply prefix_cons.
      * intros H. apply Hqp. by apply prefix_cons.
    + destruct rest as [|c2 rest'].
      * destruct k; try done;
          match goal with |- context [rmtree_contents ?x] =>
            destruct (rmtree_contents x) as [k' [e|]] end; simpl;
          try destruct (can_write m); simpl;
          rewrite ?assoc_set_entry_ne, ?assoc_remove_entry_ne by done; done.
      * destruct (rmtree_at k (c2 :: rest')) as [k' e]. simpl.
        by rewrite assoc_set_entry_ne.
Qed.

(** A successful [rmtree] leaves nothing at its argument. *)
Lemma rmtree_at_gone p : forall n n',
  rmtree_at n p = (n', None) -> lstat n' p = None.
Proof.
  induction p as [|c rest IH]; intros n n'; simpl.
  - by destruct (rmtree_contents n) as [? [?|]].
  - destruct n as [| |m kids]; try done.
    destruct (assoc c kids) as [k|] eqn:Ek; [|done].
    destruct rest as [|c2 rest'].
    + destruct k; try done;
        match goal with |- context [rmtree_contents ?x] =>
          destruct (rmtree_contents x) as [k' [e|]] end; try done;
        destruct (can_write m); try done; intros [= <-]; simpl;
        by rewrite assoc_remove_entry_eq.
    + destruct (rmtree_at k (c2 :: rest')) as [k' e] eqn:Er.
      intros [= <- ->]. simpl. rewrite (assoc_set_entry_eq _ _ _ _ Ek).
      by apply (IH k).
Qed.

(** A successful [mkdir] leaves a directory at its argument. *)
Lemma mkdir_p_dir p : forall n n',
  mkdir_p n p = (n', None) -> exists m kids, lstat n' p = Some (Dir m kids).
Proof.
  induction p as [|c rest IH]; intros n n'; simpl.
  - destruct n; try done. intros [= <-]. eauto.
  - destruct n as [| |m kids]; try done.
    destruct (assoc c kids) as [k|] eqn:Ek.
    + destruct (mkdir_p k rest) as [k' e] eqn:Em. intros [= <- ->]. simpl.
      rewrite (assoc_set_entry_eq _ _ _ _ Ek). eauto.
    + destruct (can_write m); [|done].
      destruct (mkdir_p (Dir rw []) rest) as [k' e] eqn:Em. intros [= <- ->].
      simpl. rewrite (assoc_snoc_fresh _ _ _ Ek). eauto.
Qed.

(** ** Running the monad *)

Lemma bind_ret {A B} (a : A) (k : A -> M B) (w : world) :
  bind (ret a) k w = k a w.
Proof. done. Qed.

Lemma bind_gets {A B} (f : world -> A) (k : A -> M B) (w : world) :
  bind (gets f) k w = k (f w) w.
Proof. done. Qed.

Lemma bind_path_exists {B} (p : path) (k : bool -> M B) (w : world) :
  bind (path_exists p) k w = k (exists_ (fs w) p) w.
Proof. done. Qed.

Lemma bind_path_is_dir {B} (p : path) (k : bool -> M B) (w : world) :
  bind (path_is_dir p) k w = k (is_dir (fs w) p) w.
Proof. done. Qed.

Lemma bind_path_is_file {B} (p : path) (k : bool -> M B) (w : world) :
  bind (path_is_file p) k w = k (is_file (fs w) p) w.
Proof. done. Qed.

Lemma bind_print {B} (s : string) (k : unit -> M B) (w : world) :
  bind (print s) k w = k tt (set_stdout w (stdout w ++ [s])).
Proof. done. Qed.

(** A computation that only reads: its value, and the world as it was. *)
Lemma bind_read {A B} (m : M A) (k : A -> M B) (w : world) (a : A) :
  m w = (Ok a, w) -> bind m k w = k a w.
Proof. unfold bind. by intros ->. Qed.

Lemma bind_assoc {A B C} (m : M A) (k : A -> M B) (h : B -> M C) (w : world) :
  bind (bind m k) h w = bind m (fun a => bind (k a) h) w.
Proof. unfold bind. by destruct (m w) as [[a|e|] w']. Qed.

(** ** The boundary search *)

Lemma ancestors_nil : ancestors [] = [].
Proof. done. Qed.

Lemma ancestors_snoc (p : path) (c : string) :
  ancestors (p ++ [c]) = (p ++ [c]) :: ancestors p.
Proof.
  unfold ancestors. rewrite length_app. simpl.
  replace (length p + 1) with (S (length p)) by lia.
  rewrite seq_S, rev_app_distr. simpl. f_equal.
  - rewrite take_ge; [done|]. rewrite length_app. simpl. lia.
  - apply map_ext_in. intros n Hn. apply in_rev, in_seq in Hn.
    rewrite take_app_le; [done|lia].
Qed.

Lemma ancestors_elem (p d : path) :
  d ∈ ancestors p <-> d <> [] /\ d `prefix_of` p.
Proof.
  induction p as [|c p IH] using rev_ind.
  - rewrite ancestors_nil. split; [by intros ?%elem_of_nil|].
    intros [Hd Hp]. by apply prefix_nil_inv in Hp.
  - rewrite ancestors_snoc, elem_of_cons, IH. split.
    + intros [->|[Hd Hp]].
      * split; [by destruct p|done].
      * split; [done|]. by apply prefix_app_r.
    + intros [Hd [k Hk]].
      destruct k as [|c' k _] using rev_ind.
      * left. by rewrite app_nil_r in Hk.
      * right. split; [done|]. rewrite app_assoc in Hk.
        apply app_inj_tail in Hk as [-> _]. by exists k.
Qed.

(** The walk below a marked directory: what is tested before [d] when the
    walk starts at [d ++ s]. *)
Lemma ancestors_app (d s : path) :
  ancestors (d ++ s) = map (app d) (ancestors s) ++ ancestors d.
Proof.
  induction s as [|c s IH] using rev_ind.
  - by rewrite app_nil_r.
  - rewrite app_assoc, !ancestors_snoc, IH. simpl. by rewrite app_assoc.
Qed.

(** [find] answers with the first element that passes the test. *)
Lemma find_first {A} (f : A -> bool) (l : list A) (x : A) :
  find f l = Some x <->
  exists l1 l2, l = l1 ++ x :: l2 /\ f x = true /\ Forall (fun y => f y = false) l1.
Proof.
  induction l as [|y l IH]; simpl.
  - split; [done|]. intros (l1 & l2 & H & _). by destruct l1.
  - destruct (f y) eqn:Hy.
    + split.
      * intros [= ->]. exists [], l. by repeat split.
      * intros (l1 & l2 & H & Hx & Hl1). destruct l1 as [|z l1].
        -- by injection H as ->.
        -- injection H as -> _. apply Forall_cons in Hl1 as [Hz _]. congruence.
    + rewrite IH. split.
      * intros (l1 & l2 & -> & Hx & Hl1). exists (y :: l1), l2.
        repeat split; [done|]. by constructor.
      * intros (l1 & l2 & H & Hx & Hl1). destruct l1 as [|z l1].
        -- injection H as ->. congruence.
        -- injection H as -> ->. apply Forall_cons in Hl1 as [_ Hl1]. eauto.
Qed.

Lemma find_absent {A} (f : A -> bool) (l : list A) :
  find f l = None <-> Forall (fun y => f y = false) l.
Proof.
  induction l as [|y l IH]; simpl; [by split|].
  destruct (f y) eqn:Hy.
  - split; [done|]. intros [? _]%Forall_cons. congruence.
  - rewrite IH. split; [by constructor|by intros [_ ?]%Forall_cons].
Qed.

(** The loop of [cleanup_materials.py] finds the nearest marked directory
    of the walk, whatever bound above the depth of the start it is given. *)
Lemma cleanup_walk_up (fuel : nat) : forall (current : path) (w : world),
  length current < fuel ->
  Cleanup.walk_up fuel current w
  = (Ok (find (has_marker (fs w)) (ancestors current)), w).
Proof.
  induction fuel as [|fuel IH]; intros current w Hlen; [lia|].
  destruct current as [|c p _] using rev_ind.
  - done.
  - simpl. rewrite parent_snoc, ancestors_snoc.
    rewrite bool_decide_true.
    2:{ intros H. apply (f_equal length) in H. rewrite length_app in H.
        simpl in H. lia. }
    rewrite length_app in Hlen. simpl in Hlen.
    unfold bind, path_exists, gets, ret. simpl. unfold has_marker at 1.
    destruct (exists_ (fs w) (joinpath (p ++ [c]) ".git")); simpl; [done|].
    destruct (exists_ (fs w) (joinpath (p ++ [c]) ".claude")); simpl; [done|].
    apply IH. lia.
Qed.

Lemma cleanup_find_project_root (w : world) :
  Cleanup.find_project_root None w = (Ok (project_root w), w).
Proof.
  unfold Cleanup.find_project_root. rewrite bind_gets.
  apply cleanup_walk_up. lia.
Qed.

Lemma cleanup_find_project_root_from (start : path) (w : world) :
  Cleanup.find_project_root (Some start) w
  = (Ok (find (has_marker (fs w)) (ancestors start)), w).
Proof.
  unfold Cleanup.find_project_root. rewrite bind_ret.
  apply cleanup_walk_up. lia.
Qed.

(** The loop of [fetch_source.py] finds the nearest marked directory that
    is not the tool's own. *)
Lemma fetch_walk_up (fuel : nat) (tool : bool) (tool_path : path) :
  forall (current : path) (w : world),
  length current < fuel ->
  Fetch.walk_up fuel tool tool_path current w
  = (Ok (find (fun d => has_marker (fs w) d
                        && negb (tool && bool_decide (d = tool_path)))
              (ancestors current)), w).
Proof.
  induction fuel as [|fuel IH]; intros current w Hlen; [lia|].
  destruct current as [|c p _] using rev_ind.
  - done.
  - rewrite ancestors_snoc. cbn [Fetch.walk_up find]. rewrite parent_snoc.
    rewrite bool_decide_true.
    2:{ intros H. apply (f_equal length) in H. rewrite length_app in H.
        simpl in H. lia. }
    rewrite length_app in Hlen. simpl in Hlen.
    unfold bind, path_exists, gets, ret, has_marker at 1.
    destruct (exists_ (fs w) (joinpath (p ++ [c]) ".git")); cbn [orb andb].
    + destruct tool; cbn [andb negb]; [|done].
      repeat case_bool_decide; try done. apply IH. lia.
    + destruct (exists_ (fs w) (joinpath (p ++ [c]) ".claude")); cbn [andb].
      * destruct tool; cbn [andb negb]; [|done].
        repeat case_bool_decide; try done. apply IH. lia.
      * apply IH. lia.
Qed.

Lemma fetch_find_project_root (w : world) :
  Fetch.find_project_root None w = (Ok (fetch_project_root w), w).
Proof.
  unfold Fetch.find_project_root.
  rewrite bind_gets, bind_gets, bind_path_exists, fetch_walk_up by lia. done.
Qed.

Lemma fetch_find_project_root_from (start : path) (w : world) :
  Fetch.find_project_root (Some start) w
  = (Ok (find (fetch_boundary w) (ancestors start)), w).
Proof.
  unfold Fetch.find_project_root.
  rewrite bind_ret, bind_gets, bind_path_exists, fetch_walk_up by lia. done.
Qed.

(** ** The candidate roots *)

Lemma get_materials_dirs_reads (w : world) :
  get_materials_dirs w = (Ok (candidate_roots w), w).
Proof.
  unfold get_materials_dirs, candidate_roots.
  rewrite (bind_read _ _ _ _ (cleanup_find_project_root w)).
  destruct (project_root w) as [root|].
  - rewrite bind_assoc, bind_path_exists, bind_ret, bind_gets, bind_path_exists.
    unfold ret, project_materials, global_materials.
    by destruct (exists_ _ _), (exists_ _ _).
  - rewrite bind_ret, bind_gets, bind_path_exists.
    unfold ret, global_materials. by destruct (exists_ _ _).
Qed.

Lemma get_materials_dir_reads (w : world) :
  get_materials_dir w
  = (Ok (match candidate_roots w with
         | (d, _) :: _ => d
         | [] => default_target w
         end), w).
Proof.
  unfold get_materials_dir, default_target.
  rewrite (bind_read _ _ _ _ (get_materials_dirs_reads w)).
  destruct (candidate_roots w) as [|[d mode] rest]; [|done].
  rewrite (bind_read _ _ _ _ (cleanup_find_project_root w)).
  by destruct (project_root w).
Qed.

(** Every candidate root exists. *)
Lemma candidate_roots_exist (w : world) (d : path) (mode : string) :
  (d, mode) ∈ candidate_roots w -> exists_ (fs w) d = true.
Proof.
  unfold candidate_roots. rewrite elem_of_app.
  intros [H|H].
  - destruct (project_root w) as [root|]; [|by apply elem_of_nil in H].
    destruct (exists_ (fs w) (project_materials root)) eqn:E;
      [|by apply elem_of_nil in H].
    apply list_elem_of_singleton in H. by injection H as -> _.
  - destruct (exists_ (fs w) (global_materials w)) eqn:E;
      [|by apply elem_of_nil in H].
    apply list_elem_of_singleton in H. by injection H as -> _.
Qed.

(** ** Sizes *)

(** The loop of [get_dir_size] adds the readable sizes of the entries to
    the total it starts with. *)
Lemma walk_size_dir (n : node) :
  match n with
  | Dir _ _ => walk_size n = Ok (readable_size n)
  | _ => True
  end.
Proof.
  induction n as [s|t|m kids IH] using node_ind; [done..|].
  simpl. destruct (can_read m); [|done].
  match goal with |- ?L = Ok ?S => change (L = Ok (0 + S)%Z) end.
  generalize 0%Z at 1 2 as total.
  induction kids as [|[c k] kids IHk]; intros total.
  - f_equal. lia.
  - apply Forall_cons in IH as [Hk IH]. specialize (IHk IH).
    destruct k as [s|t|m' kids'].
    + rewrite IHk. f_equal; simpl; try lia.
    + rewrite IHk. f_equal; simpl; try lia.
    + cbn [snd] in Hk. rewrite Hk, IHk. f_equal; try lia.
Qed.

Lemma get_dir_size_reads (p : path) (w : world) :
  is_dir (fs w) p = true ->
  get_dir_size p w = (Ok (size_at (fs w) p), w).
Proof.
  unfold is_dir, get_dir_size, size_at.
  destruct (stat (fs w) p) as [[| |m kids]|]; try done.
  intros _. f_equal. apply (walk_size_dir (Dir m kids)).
Qed.

(** With sizes that are not negative, what can be read is at most what is
    there. *)
Lemma readable_size_bounds (n : node) :
  sizes_ok n = true -> (0 <= readable_size n <= tree_size n)%Z.
Proof.
  induction n as [s|t|m kids IH] using node_ind; simpl.
  - intros H%Z.leb_le. lia.
  - lia.
  - intros Hok.
    assert (0 <= (fix sum (l : list (string * node)) : Z :=
                    match l with
                    | [] => 0
                    | (_, k) :: rest => readable_size k + sum rest
                    end) kids
            <= (fix sum (l : list (string * node)) : Z :=
                    match l with
                    | [] => 0
                    | (_, k) :: rest => tree_size k + sum rest
                    end) kids)%Z as Hsum.
    { induction kids as [|[c k] kids IHk]; [lia|].
      apply Forall_cons in IH as [Hk IH].
      apply andb_true_iff in Hok as [Hk1 Hok].
      specialize (IHk IH Hok). simpl in Hk. specialize (Hk Hk1). lia. }
    destruct (can_read m); lia.
Qed.

(** Where everything can be listed, nothing is missed. *)
Lemma readable_size_full (n : node) :
  all_readable n = true -> readable_size n = tree_size n.
Proof.
  induction n as [s|t|m kids IH] using node_ind; simpl; [done..|].
  intros [-> Hall]%andb_true_iff.
  induction kids as [|[c k] kids IHk]; [done|].
  apply Forall_cons in IH as [Hk IH].
  apply andb_true_iff in Hall as [Hk1 Hall].
  simpl in Hk. rewrite (Hk Hk1), (IHk IH Hall). done.
Qed.

(** ** The order of the listing *)

Lemma string_compare_refl (a : string) : String.compare a a = Eq.
Proof.
  induction a as [|c a IH]; simpl; [done|].
  unfold Ascii.compare. by rewrite N.compare_refl.
Qed.

Lemma string_compare_lt (a b : string) :
  String.compare a b = Lt <-> String.le a b /\ a <> b.
Proof.
  unfold String.le, String.leb. split.
  - intros H. rewrite H. split; [done|]. intros ->.
    by rewrite string_compare_refl in H.
  - intros [Hle Hne]. destruct (String.compare a b) eqn:E; try done.
    by apply String.compare_eq_iff in E.
Qed.

Lemma string_compare_lt_trans (a b c : string) :
  String.compare a b = Lt -> String.compare b c = Lt -> String.compare a c = Lt.
Proof.
  rewrite !string_compare_lt. intros [Hab Hne] [Hbc Hne'].
  split; [by etrans|]. intros ->. apply Hne. by apply (anti_symm String.le).
Qed.

Lemma string_compare_gt (a b : string) :
  String.compare a b = Gt <-> String.compare b a = Lt.
Proof.
  rewrite (String.compare_antisym b a). by destruct (String.compare a b).
Qed.

#[global] Instance path_le_total : Total path_le.
Proof.
  intros p. unfold path_le.
  induction p as [|a p IH]; intros [|b q]; simpl; auto.
  rewrite (String.compare_antisym b a).
  destruct (String.compare a b); simpl; auto.
Qed.

#[global] Instance path_le_trans : Transitive path_le.
Proof.
  intros p. unfold path_le.
  induction p as [|a p IH]; intros [|b q] [|c r]; simpl; try done.
  destruct (String.compare a b) eqn:Eab; try done.
  - apply String.compare_eq_iff in Eab as ->.
    destruct (String.compare b c); try done. apply IH.
  - destruct (String.compare b c) eqn:Ebc; try done.
    + apply String.compare_eq_iff in Ebc as ->. by rewrite Eab.
    + by rewrite (string_compare_lt_trans _ _ _ Eab Ebc).
Qed.

(** Items of one directory are ordered as their names are. *)
Lemma path_le_siblings (d : path) (a b : string) :
  path_le (joinpath d a) (joinpath d b) -> String.le a b.
Proof.
  unfold path_le, joinpath, String.le, String.leb.
  induction d as [|c d IH]; simpl.
  - by destruct (String.compare a b).
  - by rewrite string_compare_refl.
Qed.

Lemma sorted_strongly (l : list path) : StronglySorted path_le (sorted l).
Proof. apply StronglySorted_merge_sort; apply _. Qed.

Lemma sorted_elem (l : list path) (p : path) : p ∈ sorted l <-> p ∈ l.
Proof. unfold sorted. by rewrite merge_sort_Permutation. Qed.

Lemma StronglySorted_filter_keep {A} (R : relation A) (P : A -> Prop)
    `{!forall x, Decision (P x)} (l : list A) :
  StronglySorted R l -> StronglySorted R (filter P l).
Proof.
  induction 1 as [|x l Hl IH Hx]; [constructor|].
  rewrite filter_cons. destruct (decide (P x)); [|done].
  constructor; [done|]. apply Forall_forall.
  intros y [_ Hy]%list_elem_of_filter. rewrite Forall_forall in Hx. auto.
Qed.

(** The names of the entries collected from the sorted items of one
    directory come in order. *)
Lemma collect_names_sorted (t : node) (mode : string) (d : path)
    (kids : list (string * node)) :
  StronglySorted String.le
    (map m_name (collect t mode (sorted (items_of d kids)))).
Proof.
  unfold collect.
  assert (Forall (fun item => exists c, item = joinpath d c)
            (filter (fun item => qualifies t item = true)
                    (sorted (items_of d kids)))) as Hshape.
  { apply Forall_forall. intros item [_ Hin]%list_elem_of_filter.
    apply (proj1 (sorted_elem _ _)) in Hin.
    apply list_elem_of_fmap in Hin as [[c k] [-> _]]. by exists c. }
  pose proof (StronglySorted_filter_keep path_le
                (fun item => qualifies t item = true) _
                (sorted_strongly (items_of d kids))) as Hs.
  induction Hs as [|item l Hl IH Hitem]; [constructor|].
  apply Forall_cons in Hshape as [[c ->] Hshape].
  simpl. constructor; [by apply IH|].
  apply Forall_forall. intros x Hx.
  apply list_elem_of_fmap in Hx as [m [-> Hm]].
  apply list_elem_of_fmap in Hm as [item' [-> Hin]].
  rewrite Forall_forall in Hshape. destruct (Hshape _ Hin) as [c' ->].
  rewrite Forall_forall in Hitem. specialize (Hitem _ Hin).
  simpl. unfold joinpath. rewrite !name_snoc. by eapply path_le_siblings.
Qed.

Lemma collect_mode (t : node) (mode : string) (items : list path) :
  Forall (fun m => m_mode m = mode) (collect t mode items).
Proof.
  unfold collect. apply Forall_forall. intros m Hm.
  by apply list_elem_of_fmap in Hm as [item [-> _]].
Qed.

Lemma collect_elem (t : node) (mode : string) (items : list path) (m : material) :
  m ∈ collect t mode items <->
  exists item, item ∈ items /\ qualifies t item = true /\ m = entry_of t mode item.
Proof.
  unfold collect. rewrite list_elem_of_fmap. split.
  - intros [item [-> [Hq Hin]%list_elem_of_filter]]. eauto.
  - intros [item (Hin & Hq & ->)]. exists item. split; [done|].
    by apply list_elem_of_filter.
Qed.

(** ** The inventory *)

Lemma scan_items_reads (mode : string) (items : list path) :
  forall (materials : list material) (w : world),
  scan_items items mode materials w
  = (Ok (materials ++ collect (fs w) mode items), w).
Proof.
  induction items as [|item items IH]; intros materials w.
  - unfold collect. simpl. by rewrite app_nil_r.
  - cbn [scan_items]. rewrite bind_path_is_dir.
    change (is_dir (fs w) item && negb (startswith (name item) "."))
      with (qualifies (fs w) item).
    unfold collect. rewrite filter_cons.
    destruct (decide (qualifies (fs w) item = true)) as [Hq|Hq].
    + rewrite Hq. apply andb_true_iff in Hq as [Hd _].
      rewrite (bind_read _ _ _ _ (get_dir_size_reads _ _ Hd)), IH.
      simpl. by rewrite <- app_assoc.
    + apply not_true_is_false in Hq. rewrite Hq. by rewrite IH.
Qed.

Lemma iterdir_reads (d : path) (w : world) :
  iterdir d w
  = (match scandir (fs w) d with
     | Ok kids => Ok (items_of d kids)
     | Raise e => Raise e
     | Diverged => Diverged
     end, w).
Proof. unfold iterdir. by destruct (scandir (fs w) d). Qed.

Lemma scan_dirs_reads (dirs : list (path * string)) :
  forall (materials : list material) (w : world),
  scan_dirs dirs materials w
  = (match inventory (fs w) dirs with
     | Ok ms => Ok (materials ++ ms)
     | Raise e => Raise e
     | Diverged => Diverged
     end, w).
Proof.
  induction dirs as [|[d mode] dirs IH]; intros materials w.
  - simpl. by rewrite app_nil_r.
  - cbn [scan_dirs inventory]. unfold bind at 1. rewrite iterdir_reads.
    destruct (scandir (fs w) d) as [kids| |]; [|done..].
    rewrite (bind_read _ _ _ _ (scan_items_reads _ _ _ _)), IH.
    destruct (inventory (fs w) dirs); [|done..]. by rewrite <- app_assoc.
Qed.

(** [list_materials] answers with the inventory of the candidate roots.
    It changes nothing but the text printed, and prints only when there is
    no root. *)
Lemma list_materials_reads (w : world) :
  exists out,
    list_materials w
    = (inventory (fs w) (candidate_roots w), set_stdout w (stdout w ++ out))
    /\ (candidate_roots w <> [] -> out = []).
Proof.
  unfold list_materials.
  rewrite (bind_read _ _ _ _ (get_materials_dirs_reads w)).
  destruct (candidate_roots w) as [|[d mode] dirs] eqn:E.
  - rewrite !bind_print.
    set (w2 := set_stdout _ _).
    assert (Cleanup.find_project_root None w2 = (Ok (project_root w), w2)) as Hr.
    { by rewrite cleanup_find_project_root. }
    rewrite (bind_read _ _ _ _ Hr).
    destruct (project_root w) as [root|].
    + rewrite !bind_print. eexists. split; [|by intros []].
      unfold ret, w2, set_stdout. simpl. rewrite <- !app_assoc. simpl.
      reflexivity.
    + rewrite bind_ret, bind_print. eexists. split; [|by intros []].
      unfold ret, w2, set_stdout. simpl. rewrite <- !app_assoc. simpl.
      reflexivity.
  - exists []. split; [|done]. rewrite scan_dirs_reads, app_nil_r.
    destruct w. unfold set_stdout. simpl.
    by destruct (match scandir _ _ with Ok _ => _ | _ => _ end).
Qed.

(** What the readings depend on. *)
Lemma candidate_roots_same (w w' : world) :
  fs w' = fs w -> cwd w' = cwd w -> home w' = home w ->
  candidate_roots w' = candidate_roots w.
Proof.
  unfold candidate_roots, project_root, global_materials.
  by intros -> -> ->.
Qed.

Lemma candidate_roots_set_stdout (w : world) (out : list string) :
  candidate_roots (set_stdout w out) = candidate_roots w.
Proof. by apply candidate_roots_same. Qed.

(** ** What the operations may do to the world *)

Lemma reached_refl (w : world) : reached [] w w.
Proof. split; try done. by rewrite app_nil_r. Qed.

Lemma reached_trans (s1 s2 : list path) (w w1 w2 : world) :
  reached s1 w w1 -> reached s2 w1 w2 -> reached (s1 ++ s2) w w2.
Proof.
  intros [] []. split; try congruence.
  - rewrite app_assoc. congruence.
  - unfold after_rmtrees in *. rewrite foldl_app. congruence.
  - by etrans.
  - by etrans.
Qed.

(** Printing and reading lines is all that happened. *)
Lemma reached_io (w w' : world) :
  fs w' = fs w -> cwd w' = cwd w -> home w' = home w ->
  script w' = script w -> zip_log w' = zip_log w ->
  rmtree_log w' = rmtree_log w ->
  stdout w `prefix_of` stdout w' -> stdin w' `suffix_of` stdin w ->
  reached [] w w'.
Proof. intros. split; try done. by rewrite app_nil_r. Qed.

Lemma reached_print (s : string) (w : world) :
  reached [] w (set_stdout w (stdout w ++ [s])).
Proof. apply reached_io; try done. by apply prefix_app_r. Qed.

Lemma reached_input (prompt : string) (w : world) :
  reached [] w (snd (input prompt w)).
Proof.
  unfold input. destruct (stdin w) as [|l rest] eqn:E; simpl.
  - apply reached_io; simpl; rewrite ?E; try done. by apply prefix_app_r.
  - apply reached_io; simpl; rewrite ?E; try done;
      [by apply prefix_app_r|by apply suffix_cons_r].
Qed.

Lemma reached_rmtree (p : path) (w : world) :
  reached [p] w (snd (rmtree p w)).
Proof.
  unfold rmtree. destruct (rmtree_at (fs w) p) as [t [e|]] eqn:E;
    split; try done; simpl; by rewrite E.
Qed.

(** Calls that lie apart from [q] leave [q] as it was. *)
Lemma after_rmtrees_frame (q : path) (steps : list path) : forall t,
  Forall (fun p => apart p q) steps ->
  lstat (after_rmtrees t steps) q = lstat t q.
Proof.
  induction steps as [|p steps IH]; intros t Hs; [done|].
  apply Forall_cons in Hs as [[Hpq Hqp] Hs].
  unfold after_rmtrees in *. simpl. rewrite IH by done.
  by apply rmtree_at_frame.
Qed.

Lemma reached_frame (q : path) (steps : list path) (w w' : world) :
  reached steps w w' -> Forall (fun p => apart p q) steps ->
  lstat (fs w') q = lstat (fs w) q.
Proof. intros [] Hs. rewrite reached_fs0. by apply after_rmtrees_frame. Qed.

Lemma reached_nothing (w w' : world) :
  reached [] w w' -> fs w' = fs w /\ rmtree_log w' = rmtree_log w.
Proof. intros []. split; [done|]. by rewrite reached_log0, app_nil_r. Qed.

(** *** The rules of [confined] *)

Lemma confined_mono {A} (T T' : list path) (m : M A) (w : world) :
  T ⊆ T' -> confined T m w -> confined T' m w.
Proof.
  intros Hsub (steps & Hr & Hs). exists steps. split; [done|].
  eapply Forall_impl; [done|]. auto.
Qed.

Lemma confined_quiet {A} (T : list path) (m : M A) (w : world) :
  reached [] w (snd (m w)) -> confined T m w.
Proof. intros H. exists []. by split. Qed.

Lemma confined_ret {A} (T : list path) (a : A) (w : world) :
  confined T (ret a) w.
Proof. apply confined_quiet, reached_refl. Qed.

Lemma confined_gets {A} (T : list path) (f : world -> A) (w : world) :
  confined T (gets f) w.
Proof. apply confined_quiet, reached_refl. Qed.

Lemma confined_print (T : list path) (s : string) (w : world) :
  confined T (print s) w.
Proof. apply confined_quiet, reached_print. Qed.

Lemma confined_input (T : list path) (prompt : string) (w : world) :
  confined T (input prompt) w.
Proof. apply confined_quiet, reached_input. Qed.

Lemma confined_read {A} (T : list path) (m : M A) (w : world) :
  snd (m w) = w -> confined T m w.
Proof. intros H. apply confined_quiet. rewrite H. apply reached_refl. Qed.

Lemma confined_rmtree (T : list path) (p : path) (w : world) :
  p ∈ T -> confined T (rmtree p) w.
Proof.
  intros Hp. exists [p]. split; [apply reached_rmtree|].
  by apply Forall_singleton.
Qed.

Lemma confined_bind {A B} (T : list path) (m : M A) (k : A -> M B) (w : world) :
  confined T m w ->
  (forall a w1, m w = (Ok a, w1) -> confined T (k a) w1) ->
  confined T (bind m k) w.
Proof.
  intros (s1 & Hr1 & Hs1) Hk. unfold confined, bind.
  destruct (m w) as [[a|e|] w1] eqn:E; rewrite ?E; simpl in Hr1.
  - destruct (Hk a w1 eq_refl) as (s2 & Hr2 & Hs2).
    exists (s1 ++ s2). split; [by eapply reached_trans|by apply Forall_app_2].
  - by exists s1.
  - by exists s1.
Qed.

Lemma confined_try {A} (T : list path) (body : M A)
    (handler : exn -> option (M A)) (w : world) :
  confined T body w ->
  (forall e h w1, handler e = Some h -> confined T h w1) ->
  confined T (try_except body handler) w.
Proof.
  intros (s1 & Hr1 & Hs1) Hh. unfold confined, try_except.
  destruct (body w) as [[a|e|] w1] eqn:E; rewrite ?E; simpl in Hr1.
  - by exists s1.
  - destruct (handler e) as [h|] eqn:Eh; [|by exists s1].
    destruct (Hh e h w1 Eh) as (s2 & Hr2 & Hs2).
    exists (s1 ++ s2). split; [by eapply reached_trans|by apply Forall_app_2].
  - by exists s1.
Qed.

Lemma confined_find_project_root (T : list path) (w : world) :
  confined T (find_project_root None) w.
Proof. apply confined_read. by rewrite cleanup_find_project_root. Qed.

Lemma confined_get_materials_dirs (T : list path) (w : world) :
  confined T get_materials_dirs w.
Proof. apply confined_read. by rewrite get_materials_dirs_reads. Qed.

Lemma confined_get_materials_dir (T : list path) (w : world) :
  confined T get_materials_dir w.
Proof. apply confined_read. by rewrite get_materials_dir_reads. Qed.

Lemma confined_get_dir_size (T : list path) (p : path) (w : world) :
  confined T (get_dir_size p) w.
Proof. apply confined_read. unfold get_dir_size. by destruct (stat _ _). Qed.

Create HintDb confine discriminated.
#[local] Hint Resolve confined_ret confined_gets confined_print confined_input
  confined_find_project_root confined_get_materials_dirs
  confined_get_materials_dir confined_get_dir_size : confine.

(** Builds a [confined] goal from the rules, following the program. *)
Ltac confine :=
  repeat first
    [ solve [auto 1 with confine]
    | match goal with
      | |- confined _ (bind _ _) _ => apply confined_bind; [|intros ? ? ?]
      end
    | match goal with
      | |- confined _ (if ?b then _ else _) _ => destruct b
      | |- confined _ (match ?x with Some _ => _ | None => _ end) _ => destruct x
      | |- confined _ (match ?x with [] => _ | _ :: _ => _ end) _ => destruct x
      | |- confined _ (let (_, _) := ?x in _) _ => destruct x
      end ].

Lemma confined_list_materials (T : list path) (w : world) :
  confined T list_materials w.
Proof.
  apply confined_quiet. destruct (list_materials_reads w) as (out & -> & _).
  simpl. apply reached_io; try done. by apply prefix_app_r.
Qed.

Lemma confined_print_group (T : list path) (l : list material) :
  forall index total w, confined T (print_group l index total) w.
Proof.
  induction l as [|mat l IH]; intros index total w; simpl; confine; try apply IH.
Qed.

Lemma confined_print_materials_list (T : list path) (materials : list material)
    (w : world) :
  confined T (print_materials_list materials) w.
Proof.
  unfold print_materials_list.
  confine; try apply confined_print_group.
Qed.

Lemma confined_print_searched (T : list path) (dirs : list (path * string)) :
  forall w, confined T (print_searched dirs) w.
Proof.
  induction dirs as [|[d mode] dirs IH]; intros w; simpl; confine; try apply IH.
Qed.

Lemma confined_search_dirs (T : list path) (dirs : list (path * string))
    (name : string) :
  forall w, confined T (search_dirs dirs name) w.
Proof.
  induction dirs as [|[d mode] dirs IH]; intros w; simpl; confine;
    try apply IH.
  by apply confined_read.
Qed.

Lemma confined_confirm_deletion (T : list path) (name size_str : string)
    (w : world) :
  confined T (confirm_deletion name size_str) w.
Proof. unfold confirm_deletion. confine. Qed.

#[local] Hint Resolve confined_list_materials confined_print_group
  confined_print_materials_list confined_print_searched confined_search_dirs
  confined_confirm_deletion : confine.

(** The [try] around [shutil.rmtree] with its two messages. *)
Lemma confined_guarded_rmtree {A} (T : list path) (p : path) (s s' : exn -> string)
    (a b : A) (w : world) :
  p ∈ T ->
  confined T
    (try_except (rmtree p ;; print (s OSError) ;; ret a)
       (fun e => Some (print (s' e) ;; ret b))) w.
Proof.
  intros Hp. apply confined_try.
  - confine. by apply confined_rmtree.
  - intros e h w1 [= <-]. confine.
Qed.

Lemma confined_delete_material (T : list path) (mat : material) (force : bool)
    (w : world) :
  m_path mat ∈ T -> confined T (delete_material mat force) w.
Proof.
  intros Hp. unfold delete_material. confine.
  by apply (confined_guarded_rmtree T (m_path mat) (fun _ => _) (fun e => _)).
Qed.

Lemma confined_delete_each (T : list path) (materials : list material) :
  Forall (fun mat => m_path mat ∈ T) materials ->
  forall count w, confined T (delete_each materials count) w.
Proof.
  induction 1 as [|mat l Hmat Hl IH]; intros count w; simpl; [confine|].
  pose proof (fun w => confined_delete_material T mat false w Hmat).
  confine.
Qed.

Lemma confined_remove_each (T : list path) (materials : list material) :
  Forall (fun mat => m_path mat ∈ T) materials ->
  forall count w, confined T (remove_each materials count) w.
Proof.
  induction 1 as [|mat l Hmat Hl IH]; intros count w; simpl; [confine|].
  confine.
  by apply (confined_guarded_rmtree T (m_path mat) (fun _ => _) (fun e => _)).
Qed.

Lemma nth_material_elem (materials : list material) (index : Z)
    (mat : material) (w w' : world) :
  nth_material materials index w = (Ok mat, w') -> mat ∈ materials /\ w' = w.
Proof.
  unfold nth_material, list_index.
  destruct (0 <=? index)%Z; [|destruct (- _ <=? index)%Z; [|done]];
    (destruct (materials !! _) as [m|] eqn:E; [|done]);
    intros [= <- <-]; (split; [|done]); by eapply list_elem_of_lookup_2.
Qed.

Lemma confined_nth_material (T : list path) (materials : list material)
    (index : Z) (w : world) :
  confined T (nth_material materials index) w.
Proof.
  apply confined_read. unfold nth_material.
  by destruct (list_index materials index).
Qed.

Lemma confined_interactive_loop (T : list path) (materials : list material)
    (fuel : nat) :
  Forall (fun mat => m_path mat ∈ T) materials ->
  forall w, confined T (interactive_loop fuel materials) w.
Proof.
  intros Hm. induction fuel as [|fuel IH]; intros w; simpl.
  - apply confined_quiet, reached_refl.
  - pose proof (confined_delete_each T materials Hm).
    pose proof (confined_nth_material T materials).
    confine.
    match goal with
    | Hn : nth_material _ _ _ = _ |- _ => apply nth_material_elem in Hn as [Hn _]
    end.
    apply confined_delete_material. rewrite Forall_forall in Hm. auto.
Qed.

(** *** The operations of the command line *)

Lemma list_materials_result (w w1 : world) (r : result (list material)) :
  list_materials w = (r, w1) ->
  r = inventory (fs w) (candidate_roots w)
  /\ fs w1 = fs w /\ cwd w1 = cwd w /\ home w1 = home w.
Proof.
  destruct (list_materials_reads w) as (out & -> & _). by intros [= <- <-].
Qed.

Lemma inventory_paths_ok (w : world) (ms : list material) :
  inventory (fs w) (candidate_roots w) = Ok ms ->
  Forall (fun mat => m_path mat ∈ inventory_paths w) ms.
Proof.
  intros H. unfold inventory_paths. rewrite H. apply Forall_forall.
  intros mat Hmat. by apply list_elem_of_fmap_2.
Qed.

(** [cleanup_all] removes nothing but entries of the inventory. *)
Lemma confined_cleanup_all (force : bool) (w : world) :
  confined (inventory_paths w) (cleanup_all force) w.
Proof.
  unfold cleanup_all. apply confined_bind; [confine|].
  intros ms w1 [Hms _]%list_materials_result.
  symmetry in Hms. apply inventory_paths_ok in Hms.
  pose proof (confined_remove_each _ _ Hms). confine.
Qed.

(** [interactive_cleanup] removes nothing but entries of the inventory. *)
Lemma confined_interactive_cleanup (w : world) :
  confined (inventory_paths w) interactive_cleanup w.
Proof.
  unfold interactive_cleanup. apply confined_bind; [confine|].
  intros ms w1 [Hms _]%list_materials_result.
  symmetry in Hms. apply inventory_paths_ok in Hms.
  pose proof (fun fuel => confined_interactive_loop _ _ fuel Hms). confine.
Qed.

Lemma search_dirs_reads (name : string) (dirs : list (path * string)) (w : world) :
  search_dirs dirs name w = (Ok (first_holding (fs w) dirs name), w).
Proof.
  induction dirs as [|[d mode] dirs IH]; simpl; [done|].
  rewrite bind_path_exists. by destruct (exists_ _ _).
Qed.

Lemma print_searched_prints (dirs : list (path * string)) : forall w,
  print_searched dirs w
  = (Ok tt, set_stdout w (stdout w ++ map searched_line dirs)).
Proof.
  induction dirs as [|[d mode] dirs IH]; intros w; simpl.
  - rewrite app_nil_r. by destruct w.
  - rewrite bind_print, IH. unfold set_stdout. simpl.
    by rewrite <- app_assoc.
Qed.

(** The directories that [cleanup_specific] goes through. *)
Lemma cleanup_specific_dirs (w : world) :
  bind get_materials_dirs
    (fun dirs => match dirs with
                 | [] => bind get_materials_dir (fun d => ret [(d, "auto")])
                 | _ :: _ => ret dirs
                 end) w
  = (Ok (searched w), w).
Proof.
  rewrite (bind_read _ _ _ _ (get_materials_dirs_reads w)). unfold searched.
  destruct (candidate_roots w) as [|dir dirs] eqn:E; [|done].
  rewrite (bind_read _ _ _ _ (get_materials_dir_reads w)). by rewrite E.
Qed.

(** When no searched directory holds [name], [cleanup_specific] says so,
    names every directory it searched, and does nothing else. *)
Lemma cleanup_specific_absent (name : string) (force : bool) (w : world) :
  first_holding (fs w) (searched w) name = None ->
  cleanup_specific name force w
  = (Ok false,
     set_stdout w (stdout w
                   ++ [nl +:+ "❌ Material not found: " +:+ name;
                       "   Searched in:"]
                   ++ map searched_line (searched w))).
Proof.
  intros Hnone. unfold cleanup_specific.
  rewrite <- bind_assoc, (bind_read _ _ _ _ (cleanup_specific_dirs w)).
  rewrite (bind_read _ _ _ _ (search_dirs_reads _ _ _)), Hnone.
  rewrite !bind_print.
  unfold bind. rewrite print_searched_prints. unfold ret, set_stdout. simpl.
  by rewrite <- !app_assoc.
Qed.

(** A deletion that reports success has called [shutil.rmtree] once, on
    the path of the material, and nothing is left at that path. *)
Lemma delete_material_done (mat : material) (force : bool) (w w' : world) :
  delete_material mat force w = (Ok true, w') ->
  lstat (fs w') (m_path mat) = None
  /\ rmtree_log w' = rmtree_log w ++ [m_path mat].
Proof.
  unfold delete_material.
  assert (forall w1, rmtree_log w1 = rmtree_log w -> 
      try_except
        (rmtree (m_path mat);;
         print ("   ✅ Deleted: " +:+ m_name mat +:+ " (" +:+ m_size_str mat +:+ ")");;
         ret true)
        (fun e => Some (print ("   ❌ Error deleting " +:+ m_name mat +:+ ": "
                               +:+ str_exn e);; ret false)) w1
      = (Ok true, w') ->
      lstat (fs w') (m_path mat) = None
      /\ rmtree_log w' = rmtree_log w ++ [m_path mat]) as Htry.
  { intros w1 Hlog. unfold try_except, bind, rmtree, print, ret.
    destruct (rmtree_at (fs w1) (m_path mat)) as [t [e|]] eqn:E; simpl; [done|].
    intros [= <-]. simpl. split; [by eapply rmtree_at_gone|by rewrite Hlog]. }
  destruct force; simpl.
  - rewrite bind_ret. simpl. by apply Htry.
  - unfold confirm_deletion. rewrite !bind_assoc, bind_print.
    rewrite bind_assoc. unfold bind at 1.
    set (w0 := set_stdout _ _).
    pose proof (reached_input "   Confirm deletion? (y/n): " w0) as Hin.
    destruct (input _ w0) as [[r|e|] w1]; [|done..].
    apply reached_nothing in Hin as [_ Hlog]. simpl in Hlog.
    rewrite bind_ret.
    destruct (negb _); [by rewrite bind_print|].
    by apply Htry.
Qed.

Lemma cleanup_specific_found (name : string) (force : bool) (w : world)
    (target : path) (mode : string) :
  first_holding (fs w) (searched w) name = Some (target, mode) ->
  cleanup_specific name force w
  = bind (get_dir_size target)
      (fun size =>
         print ("   Found in: " +:+ mode +:+ " mode - " +:+ str (parent target)) ;;
         delete_material
           (Material name target size (format_size size) mode) force) w.
Proof.
  intros Hsome. unfold cleanup_specific.
  rewrite <- bind_assoc, (bind_read _ _ _ _ (cleanup_specific_dirs w)).
  by rewrite (bind_read _ _ _ _ (search_dirs_reads _ _ _)), Hsome.
Qed.

(** When a searched directory holds [name], [cleanup_specific] calls
    [shutil.rmtree] on the first such place and on nothing else; when it
    reports success nothing is left there. *)
Lemma cleanup_specific_present (name : string) (force : bool) (w : world)
    (target : path) (mode : string) :
  first_holding (fs w) (searched w) name = Some (target, mode) ->
  confined [target] (cleanup_specific name force) w
  /\ (forall w', cleanup_specific name force w = (Ok true, w') ->
      lstat (fs w') target = None
      /\ rmtree_log w' = rmtree_log w ++ [target]).
Proof.
  intros Hsome. split.
  - unfold confined. rewrite (cleanup_specific_found _ _ _ _ _ Hsome).
    assert (forall size w1,
      confined [target]
        (delete_material (Material name target size (format_size size) mode)
           force) w1) as Hd.
    { intros. apply confined_delete_material. simpl. by left. }
    fold (confined [target]
            (bind (get_dir_size target)
               (fun size =>
                  print ("   Found in: " +:+ mode +:+ " mode - "
                         +:+ str (parent target)) ;;
                  delete_material
                    (Material name target size (format_size size) mode) force))
            w).
    confine.
  - intros w'. rewrite (cleanup_specific_found _ _ _ _ _ Hsome).
    unfold bind at 1, get_dir_size.
    destruct (stat (fs w) target) as [n|]; [|done].
    destruct (walk_size n) as [size| |]; [|done..].
    rewrite bind_print. intros [Hgone Hlog]%delete_material_done.
    by split.
Qed.

(** ** The loops of the model come to an end *)

Lemma settles_ok {A} (m : M A) (w w' : world) (a : A) :
  m w = (Ok a, w') -> settles m w.
Proof. unfold settles. by intros ->. Qed.

Lemma settles_ret {A} (a : A) (w : world) : settles (ret a) w.
Proof. done. Qed.

Lemma settles_gets {A} (f : world -> A) (w : world) : settles (gets f) w.
Proof. done. Qed.

Lemma settles_print (s : string) (w : world) : settles (print s) w.
Proof. done. Qed.

Lemma settles_input (prompt : string) (w : world) : settles (input prompt) w.
Proof. unfold settles, input. by destruct (stdin w). Qed.

Lemma settles_rmtree (p : path) (w : world) : settles (rmtree p) w.
Proof. unfold settles, rmtree. by destruct (rmtree_at _ _) as [t [e|]]. Qed.

Lemma settles_bind {A B} (m : M A) (k : A -> M B) (w : world) :
  settles m w ->
  (forall a w1, m w = (Ok a, w1) -> settles (k a) w1) ->
  settles (bind m k) w.
Proof.
  unfold settles, bind. intros Hm Hk.
  destruct (m w) as [[a|e|] w1] eqn:E; rewrite ?E; simpl in *; auto.
Qed.

Lemma settles_try {A} (body : M A) (handler : exn -> option (M A)) (w : world) :
  settles body w ->
  (forall e h w1, handler e = Some h -> settles h w1) ->
  settles (try_except body handler) w.
Proof.
  unfold settles, try_except. intros Hm Hh.
  destruct (body w) as [[a|e|] w1] eqn:E; rewrite ?E; simpl in *; auto.
  destruct (handler e) as [h|] eqn:Eh; [by eapply Hh|done].
Qed.

Lemma walk_size_settles (n : node) : walk_size n <> Diverged.
Proof.
  pose proof (walk_size_dir n) as H. destruct n; try done. by rewrite H.
Qed.

Lemma inventory_settles (t : node) (dirs : list (path * string)) :
  inventory t dirs <> Diverged.
Proof.
  induction dirs as [|[d mode] dirs IH]; simpl; [done|].
  unfold scandir. destruct (stat t d) as [[| |m kids]|]; try done.
  destruct (can_read m); [|done]. by destruct (inventory t dirs).
Qed.

Lemma settles_find_project_root (w : world) : settles (find_project_root None) w.
Proof. eapply settles_ok, cleanup_find_project_root. Qed.

Lemma settles_get_materials_dirs (w : world) : settles get_materials_dirs w.
Proof. eapply settles_ok, get_materials_dirs_reads. Qed.

Lemma settles_get_materials_dir (w : world) : settles get_materials_dir w.
Proof. eapply settles_ok, get_materials_dir_reads. Qed.

Lemma settles_get_dir_size (p : path) (w : world) : settles (get_dir_size p) w.
Proof.
  unfold settles, get_dir_size. destruct (stat _ _); [|done].
  apply walk_size_settles.
Qed.

Lemma settles_list_materials (w : world) : settles list_materials w.
Proof.
  unfold settles. destruct (list_materials_reads w) as (out & -> & _).
  apply inventory_settles.
Qed.

Lemma settles_search_dirs (dirs : list (path * string)) (name : string)
    (w : world) :
  settles (search_dirs dirs name) w.
Proof. eapply settles_ok, search_dirs_reads. Qed.

Lemma settles_print_searched (dirs : list (path * string)) (w : world) :
  settles (print_searched dirs) w.
Proof. eapply settles_ok, print_searched_prints. Qed.

Create HintDb settle discriminated.
#[local] Hint Resolve settles_ret settles_gets settles_print settles_input
  settles_rmtree settles_find_project_root settles_get_materials_dirs
  settles_get_materials_dir settles_get_dir_size settles_list_materials
  settles_search_dirs settles_print_searched : settle.

(** Builds a [settles] goal from the rules, following the program. *)
Ltac settle :=
  repeat first
    [ solve [auto 1 with settle]
    | match goal with
      | |- settles (bind _ _) _ => apply settles_bind; [|intros ? ? ?]
      | |- settles (try_except _ _) _ =>
          apply settles_try; [|intros ? ? ? [= <-]]
      end
    | match goal with
      | |- settles (if ?b then _ else _) _ => destruct b
      | |- settles (match ?x with Some _ => _ | None => _ end) _ => destruct x
      | |- settles (match ?x with [] => _ | _ :: _ => _ end) _ => destruct x
      | |- settles (let (_, _) := ?x in _) _ => destruct x
      end ].

Lemma settles_print_group (l : list material) :
  forall index total w, settles (print_group l index total) w.
Proof. induction l as [|mat l IH]; intros index total w; simpl; settle. Qed.

Lemma settles_print_materials_list (materials : list material) (w : world) :
  settles (print_materials_list materials) w.
Proof.
  pose proof settles_print_group. unfold print_materials_list. settle.
Qed.

Lemma settles_delete_material (mat : material) (force : bool) (w : world) :
  settles (delete_material mat force) w.
Proof. unfold delete_material, confirm_deletion. settle. Qed.

Lemma settles_delete_each (materials : list material) :
  forall count w, settles (delete_each materials count) w.
Proof.
  pose proof settles_delete_material.
  induction materials as [|mat l IH]; intros count w; simpl; settle.
Qed.

Lemma settles_remove_each (materials : list material) :
  forall count w, settles (remove_each materials count) w.
Proof.
  induction materials as [|mat l IH]; intros count w; simpl; settle.
Qed.

#[local] Hint Resolve settles_print_materials_list settles_delete_material
  settles_delete_each settles_remove_each : settle.

Lemma settles_nth_material (materials : list material) (index : Z) (w : world) :
  settles (nth_material materials index) w.
Proof.
  unfold settles, nth_material. by destruct (list_index materials index).
Qed.

(** Every turn of the loop of [interactive_cleanup] reads a line first, so
    a bound above the number of lines left is never used up. *)
Lemma settles_interactive_loop (materials : list material) (fuel : nat) :
  forall w, length (stdin w) < fuel ->
  settles (interactive_loop fuel materials) w.
Proof.
  induction fuel as [|fuel IH]; intros w Hlen; [lia|].
  cbn [interactive_loop]. apply settles_bind; [settle|].
  intros r w1 Hin.
  assert (length (stdin w1) < fuel) as Hlen1.
  { unfold input in Hin. destruct (stdin w) as [|l rest] eqn:E; [done|].
    injection Hin as <- <-. simpl in *. lia. }
  assert (forall (m : M unit) w2,
            confined (map m_path materials) m w1 -> 
            m w1 = (Ok tt, w2) ->
            settles (interactive_loop fuel materials) w2) as Hnext.
  { intros m w2 (steps & Hr & _) Hm. rewrite Hm in Hr. simpl in Hr.
    apply IH. destruct Hr. apply suffix_length in reached_in0. lia. }
  destruct (String.eqb _ "quit"); [settle|].
  destruct (String.eqb _ "all"); [settle|].
  destruct (int_of_str _) as [i|].
  - apply settles_bind.
    + pose proof (fun index w => settles_nth_material materials index w).
      destruct (_ && _); settle.
    + intros [] w2 Hm. eapply Hnext; [|done].
      pose proof (confined_nth_material (map m_path materials) materials).
      destruct (_ && _); confine.
      match goal with
      | Hn : nth_material _ _ _ = _ |- _ => apply nth_material_elem in Hn as [Hn _]
      end.
      apply confined_delete_material. by apply list_elem_of_fmap_2.
  - apply settles_bind; [settle|].
    intros [] w2 Hm. eapply Hnext; [|done]. confine.
Qed.

Lemma settles_interactive_cleanup (w : world) : settles interactive_cleanup w.
Proof.
  unfold interactive_cleanup. settle.
  match goal with
  | H : gets stdin _ = _ |- _ => injection H as <- <-
  end.
  apply settles_interactive_loop. lia.
Qed.

Lemma settles_cleanup_all (force : bool) (w : world) :
  settles (cleanup_all force) w.
Proof. unfold cleanup_all. settle. Qed.

Lemma settles_cleanup_specific (name : string) (force : bool) (w : world) :
  settles (cleanup_specific name force) w.
Proof. unfold cleanup_specific. settle. Qed.

(** No run of the cleanup tool is cut off by the bounds of the model. *)
Lemma settles_main (a : args) (w : world) : settles (main a) w.
Proof.
  pose proof settles_interactive_cleanup. pose proof settles_cleanup_all.
  pose proof settles_cleanup_specific.
  unfold main. settle;
    match goal with |- settles (match ?x with _ => _ end) _ => destruct x end;
    settle.
Qed.


(** ** The packaging filter *)

Lemma should_include_packable (rel : path) :
  rel <> [] ->
  Package.should_include rel (name rel) = true <-> packable rel.
Proof.
  intros Hne. unfold Package.should_include, packable.
  destruct rel as [|top rest]; [done|].
  destruct (String.eqb_spec (name (top :: rest)) "SKILL.md") as [Hn|Hn];
    cbn [andb].
  - destruct rest as [|c rest]; cbn [length Nat.eqb].
    + unfold name in Hn. simpl in Hn. subst top. split; [by left|done].
    + change (0 <? length (top :: c :: rest)) with true. cbn [andb].
      split.
      * intros H. right. exists top, (c :: rest).
        case_bool_decide as Ht; [|done].
        case_bool_decide as Hp; [done|].
        destruct (endswith _ _); [done|]. done.
      * intros [[=]|(top' & rest' & [= <- <-] & Ht & Hp & He)].
        rewrite bool_decide_true by done. rewrite bool_decide_false by done.
        by rewrite He.
  - change (0 <? length (top :: rest)) with true. cbn [andb].
    split.
    + intros H. right. exists top, rest.
      case_bool_decide as Ht; [|done].
      case_bool_decide as Hp; [done|].
      destruct (endswith _ _); [done|]. done.
    + intros [[= -> ->]|(top' & rest' & [= <- <-] & Ht & Hp & He)]; [done|].
      rewrite bool_decide_true by done. rewrite bool_decide_false by done.
      by rewrite He.
Qed.

(** What the walk yields lies strictly below where it starts. *)
Lemma rglob_node_below (n : node) : forall (here f : path),
  f ∈ rglob_node n here -> exists rel, rel <> [] /\ f = here ++ rel.
Proof.
  induction n as [s|t|m kids IH] using node_ind; intros here f; simpl;
    [by intros ?%elem_of_nil..|].
  destruct (can_read m); [|by intros ?%elem_of_nil].
  rewrite elem_of_app. intros [Hf|Hf].
  - apply list_elem_of_fmap in Hf as [[c k] [-> _]]. by exists [c].
  - induction kids as [|[c k] kids IHk]; [by apply elem_of_nil in Hf|].
    apply Forall_cons in IH as [Hk IH].
    destruct k as [s|t|m' kids']; try by apply IHk.
    apply elem_of_app in Hf as [Hf|Hf]; [|by apply IHk].
    apply Hk in Hf as (rel & Hrel & ->). exists (c :: rel).
    split; [done|]. by rewrite <- app_assoc.
Qed.

Lemma rglob_below (t : node) (skill_path f : path) :
  f ∈ rglob t skill_path -> exists rel, rel <> [] /\ f = skill_path ++ rel.
Proof.
  unfold rglob. destruct (stat t skill_path) as [n|]; [|by intros ?%elem_of_nil].
  apply rglob_node_below.
Qed.

(** The archive names of a file below a directory that has a name: the
    name of the directory, then the path below it. *)
Lemma arcname_rooted (skill_path rel : path) :
  skill_path <> [] ->
  relative_to (skill_path ++ rel) (parent skill_path) = name skill_path :: rel
  /\ relative_to (skill_path ++ rel) skill_path = rel
  /\ (rel <> [] -> name (skill_path ++ rel) = name rel).
Proof.
  intros Hne. destruct skill_path as [|c p _] using rev_ind; [done|].
  unfold relative_to. rewrite parent_snoc, name_snoc. repeat split.
  - rewrite <- !app_assoc. by rewrite drop_app_length.
  - by rewrite drop_app_length.
  - intros Hrel. destruct rel as [|c' rel _] using rev_ind; [done|].
    by rewrite app_assoc, !name_snoc.
Qed.

(** The loop over the walked paths: one line per regular file, one member
    per file that passes the test, nothing else. *)
Lemma add_files_runs (skill_path : path) (files : list path) : forall w,
  Package.add_files skill_path files w
  = (Ok tt,
     World (fs w) (cwd w) (home w) (script w) (stdin w)
       (stdout w
        ++ map (report_line skill_path)
             (filter (fun f => is_file (fs w) f = true) files))
       (rmtree_log w)
       (zip_log w
        ++ members skill_path
             (filter (fun f => is_file (fs w) f = true) files))).
Proof.
  induction files as [|f files IH]; intros w.
  - simpl. unfold members. simpl. rewrite !app_nil_r. by destruct w.
  - cbn [Package.add_files]. rewrite bind_path_is_file, filter_cons.
    destruct (is_file (fs w) f) eqn:Hf.
    + rewrite decide_True by done.
      unfold members, report_line. rewrite filter_cons. cbn [map].
      destruct (Package.should_include _ _) eqn:Hi.
      * rewrite decide_True by done.
        unfold bind at 1 2, zip_write, print. simpl. rewrite IH. simpl.
        by rewrite <- !app_assoc.
      * rewrite decide_False by done.
        unfold bind at 1, print. simpl. rewrite IH. simpl.
        by rewrite <- !app_assoc.
    + rewrite decide_False by done. rewrite bind_ret. apply IH.
Qed.

(** A successful run of [package_skill]: the checks passed, the archive
    lies where it was asked for, and the members and the report are those
    of the files walked in the tree as the run leaves it. *)
Lemma package_skill_success (validate_skill : node -> path -> bool * string)
    (skill_path : path) (output_dir : option path) (w w' : world) (zip : path) :
  Package.package_skill validate_skill skill_path output_dir w
  = (Ok (Some zip), w') ->
  is_dir (fs w) skill_path = true
  /\ exists_ (fs w) (joinpath skill_path "SKILL.md") = true
  /\ fst (validate_skill (fs w) skill_path) = true
  /\ zip = joinpath (default skill_path output_dir) (name skill_path +:+ ".zip")
  /\ zip_log w' = zip_log w ++ members skill_path (walked_files (fs w') skill_path)
  /\ exists pre post,
       stdout w'
       = stdout w ++ pre
         ++ map (report_line skill_path) (walked_files (fs w') skill_path)
         ++ post.
Proof.
  unfold Package.package_skill.
  rewrite bind_path_exists.
  destruct (exists_ (fs w) skill_path); cbn [negb];
    [|by rewrite bind_print].
  rewrite bind_path_is_dir.
  destruct (is_dir (fs w) skill_path) eqn:Hdir; cbn [negb];
    [|by rewrite bind_print].
  rewrite bind_path_exists.
  destruct (exists_ (fs w) (joinpath skill_path "SKILL.md")) eqn:Hmd;
    cbn [negb]; [|by rewrite bind_print].
  rewrite bind_print, bind_gets. cbn [fs set_stdout].
  destruct (validate_skill (fs w) skill_path) as [valid message] eqn:Hv.
  destruct valid; cbn [negb]; [|by rewrite !bind_print].
  rewrite bind_print.
  set (w1 := set_stdout _ _).
  assert (forall o w2,
    fs w2 = fs w1 \/ True ->
    zip_log w2 = zip_log w -> 
    stdout w2 = stdout w ++ ["🔍 Validating skill..."; "✅ " +:+ message +:+ nl] ->
    try_except
      (zip_open (joinpath o (name skill_path +:+ ".zip"));;
       files <- gets (fun w0 => rglob (fs w0) skill_path);;
       Package.add_files skill_path files;;
       print (nl +:+ "✅ Successfully packaged skill to: "
              +:+ str (joinpath o (name skill_path +:+ ".zip")));;
       ret (Some (joinpath o (name skill_path +:+ ".zip"))))
      (fun e => Some (print ("❌ Error creating zip file: " +:+ str_exn e);;
                      ret None)) w2
    = (Ok (Some zip), w') ->
    zip = joinpath o (name skill_path +:+ ".zip")
    /\ zip_log w' = zip_log w ++ members skill_path (walked_files (fs w') skill_path)
    /\ exists pre post,
         stdout w'
         = stdout w ++ pre
           ++ map (report_line skill_path) (walked_files (fs w') skill_path)
           ++ post) as Hzip.
  { intros o w2 _ Hlog Hout. unfold try_except, bind at 1, zip_open.
    destruct (open_w MAXSYMLINKS (fs w2) _) as [t [e|]]; [done|].
    rewrite bind_gets. unfold bind at 1. rewrite add_files_runs.
    rewrite bind_print. unfold ret. intros [= <- <-].
    unfold set_stdout, set_fs, walked_files.
    cbn [fs cwd home script stdin stdout rmtree_log zip_log].
    split; [done|]. split; [by rewrite Hlog|].
    exists ["🔍 Validating skill..."; "✅ " +:+ message +:+ nl],
      [nl +:+ "✅ Successfully packaged skill to: "
       +:+ str (joinpath o (name skill_path +:+ ".zip"))].
    rewrite Hout, <- !app_assoc. reflexivity. }
  assert (stdout w1
          = stdout w ++ ["🔍 Validating skill..."; "✅ " +:+ message +:+ nl])
    as Hout1.
  { unfold w1, set_stdout. cbn [stdout]. by rewrite <- app_assoc. }
  destruct output_dir as [o|]; cbn [default].
  - rewrite bind_assoc. unfold bind at 1, mkdir_parents.
    destruct (mkdir_p (fs w1) o) as [t [e|]]; [done|].
    rewrite bind_ret. intros H. apply Hzip in H; [|by right|exact eq_refl|exact Hout1].
    cbn [fst]. tauto.
  - rewrite bind_ret. intros H. apply Hzip in H; [|by left|exact eq_refl|exact Hout1].
    cbn [fst]. tauto.
Qed.

(** ** The claims about the boundary search *)

(** The walk tests directories of strictly decreasing depth. *)
Lemma ancestors_decreasing (p : path) :
  StronglySorted (fun a b : path => length b < length a) (ancestors p).
Proof.
  induction p as [|c p IH] using rev_ind; [constructor|].
  rewrite ancestors_snoc. constructor; [done|].
  apply Forall_forall. intros d [_ Hd%prefix_length]%ancestors_elem.
  rewrite length_app. simpl. lia.
Qed.

Lemma ancestors_nearer (p d d' : path) (l1 l2 : list path) :
  ancestors p = l1 ++ d :: l2 ->
  d' ∈ ancestors p -> length d < length d' -> d' ∈ l1.
Proof.
  intros Hsplit Hd' Hlen. pose proof (ancestors_decreasing p) as Hs.
  rewrite Hsplit in Hs, Hd'.
  apply elem_of_app in Hd' as [Hd'|Hd']; [done|].
  apply StronglySorted_app in Hs as (_ & _ & Hs).
  apply StronglySorted_cons in Hs as [Hs _].
  apply elem_of_cons in Hd' as [->|Hd']; [lia|].
  rewrite Forall_forall in Hs. apply Hs in Hd'. lia.
Qed.

(** The answer of a search for the first directory of the walk that passes
    a test: absent exactly when none passes, and otherwise the passing
    directory nearest to the start. *)
Lemma nearest_on_walk (test : path -> bool) (from : path) :
  (find test (ancestors from) = None
   <-> forall d, d ∈ ancestors from -> test d = false)
  /\ (forall d, find test (ancestors from) = Some d ->
        d ∈ ancestors from /\ test d = true
        /\ forall d', d' ∈ ancestors from -> length d < length d' ->
                      test d' = false).
Proof.
  split.
  - rewrite find_absent. apply Forall_forall.
  - intros d (l1 & l2 & Hsplit & Hd & Hl1)%find_first.
    split; [|split; [done|]].
    + rewrite Hsplit. apply elem_of_app. right. left.
    + intros d' Hd' Hlen. rewrite Forall_forall in Hl1. apply Hl1.
      by eapply ancestors_nearer.
Qed.

(** Started anywhere below a marked directory with nothing marked in
    between, the search of [cleanup_materials.py] answers with that
    directory. *)
Lemma cleanup_search_depth_independent (w : world) (d below : path) :
  d <> [] -> has_marker (fs w) d = true ->
  (forall s, s <> [] -> s `prefix_of` below -> has_marker (fs w) (d ++ s) = false) ->
  Cleanup.find_project_root (Some (d ++ below)) w = (Ok (Some d), w).
Proof.
  intros Hd Hm Hbelow. rewrite cleanup_find_project_root_from. do 2 f_equal.
  apply find_first. rewrite ancestors_app.
  destruct d as [|c d' _] using rev_ind; [done|]. rewrite ancestors_snoc.
  eexists _, _. split; [done|]. split; [done|].
  apply Forall_forall. intros x [s [-> Hs]]%list_elem_of_fmap.
  apply ancestors_elem in Hs as [Hs Hp]. by apply Hbelow.
Qed.

(** C7. For every starting path the upward search comes to an end when the
    root is reached: the loop returns within any bound above the depth of
    the start, and the search returns without an exception and leaves the
    world as it was.  It answers [None] exactly when no directory of the
    walk (the start and its ancestors below the root) holds a marker, and
    otherwise the marked directory nearest to the start (the root itself
    is where the loop stops and is not tested); started at any
    depth below a marked directory with nothing marked in between, it
    answers that directory.  The search of [fetch_source.py] has the same
    walk and also returns; it answers [None] when no directory of the walk
    is marked, and what it answers is marked, with nothing marked nearer to
    the start except the tool's own directory. *)
Theorem boundary_search_terminates_nearest (w : world) (start : option path) :
  let from := default (cwd w) start in
  exists r r',
    (forall fuel, length from < fuel -> Cleanup.walk_up fuel from w = (Ok r, w))
    /\ Cleanup.find_project_root start w = (Ok r, w)
    /\ (forall d, d ∈ ancestors from <-> d <> [] /\ d `prefix_of` from)
    /\ (r = None <-> forall d, d ∈ ancestors from -> has_marker (fs w) d = false)
    /\ (forall d, r = Some d ->
          d ∈ ancestors from /\ has_marker (fs w) d = true
          /\ forall d', d' ∈ ancestors from -> length d < length d' ->
                        has_marker (fs w) d' = false)
    /\ (forall d below,
          d <> [] -> has_marker (fs w) d = true ->
          (forall s, s <> [] -> s `prefix_of` below ->
                     has_marker (fs w) (d ++ s) = false) ->
          Cleanup.find_project_root (Some (d ++ below)) w = (Ok (Some d), w))
    /\ Fetch.find_project_root start w = (Ok r', w)
    /\ ((forall d, d ∈ ancestors from -> has_marker (fs w) d = false) -> r' = None)
    /\ (forall d, r' = Some d ->
          d ∈ ancestors from /\ has_marker (fs w) d = true
          /\ forall d', d' ∈ ancestors from -> length d < length d' ->
                        has_marker (fs w) d' = true -> d' = tool_dir w).
Proof.
  intros from.
  exists (find (has_marker (fs w)) (ancestors from)),
         (find (fetch_boundary w) (ancestors from)).
  destruct (nearest_on_walk (has_marker (fs w)) from) as [Hnone Hsome].
  destruct (nearest_on_walk (fetch_boundary w) from) as [Hnone' Hsome'].
  split; [intros fuel Hfuel; by apply cleanup_walk_up|].
  split.
  { destruct start as [p|]; [apply cleanup_find_project_root_from|].
    apply cleanup_find_project_root. }
  split; [intros d; apply ancestors_elem|].
  split; [done|]. split; [done|].
  split; [intros d below; apply cleanup_search_depth_independent|].
  split.
  { destruct start as [p|]; [apply fetch_find_project_root_from|].
    apply fetch_find_project_root. }
  split.
  - intros Hall. apply Hnone'. intros d Hd. unfold fetch_boundary.
    by rewrite (Hall d Hd).
  - intros d Hd. apply Hsome' in Hd as (Hin & Hb & Hnear).
    unfold fetch_boundary in Hb. apply andb_true_iff in Hb as [Hm _].
    split; [done|]. split; [done|].
    intros d' Hd' Hlen Hm'. specialize (Hnear d' Hd' Hlen).
    unfold fetch_boundary in Hnear. rewrite Hm' in Hnear.
    cbn [andb] in Hnear. apply negb_false_iff, andb_true_iff in Hnear as [_ Ht].
    by apply bool_decide_eq_true in Ht.
Qed.

(** C7 on a concrete tree: from the [scripts] directory of the tool the
    search of [cleanup_materials.py] stops at the tool's directory, two
    levels below the root. *)
Lemma boundary_search_terminates_nearest_witness :
  exists r r',
    Cleanup.find_project_root None Scenarios.tool_world
    = (Ok r, Scenarios.tool_world)
    /\ Fetch.find_project_root None Scenarios.tool_world
       = (Ok r', Scenarios.tool_world)
    /\ r = Some ["work"; "skill-forge"] /\ r' = Some ["work"].
Proof.
  destruct (boundary_search_terminates_nearest Scenarios.tool_world None)
    as (r & r' & _ & Hc & _ & _ & _ & _ & Hf & _).
  exists r, r'. split; [exact Hc|]. split; [exact Hf|].
  assert (Cleanup.find_project_root None Scenarios.tool_world
          = (Ok (Some ["work"; "skill-forge"]), Scenarios.tool_world)) as Hc'
    by (vm_compute; reflexivity).
  assert (Fetch.find_project_root None Scenarios.tool_world
          = (Ok (Some ["work"]), Scenarios.tool_world)) as Hf'
    by (vm_compute; reflexivity).
  rewrite Hc in Hc'. rewrite Hf in Hf'.
  injection Hc' as ->. injection Hf' as ->. done.
Defined.

(** The search of [fetch_source.py] never answers with the tool's own
    directory, when that directory is recognised as such. *)
Lemma fetch_search_skips_tool_dir (w : world) (start : option path)
    (r : result (option path)) (w' : world) :
  is_tool_dir w = true ->
  Fetch.find_project_root start w = (r, w') ->
  r <> Ok (Some (tool_dir w)).
Proof.
  intros Htool Hrun Hr. subst r.
  assert (find (fetch_boundary w) (ancestors (default (cwd w) start))
          = Some (tool_dir w)) as Hfind.
  { destruct start as [p|]; simpl.
    - rewrite fetch_find_project_root_from in Hrun. by injection Hrun.
    - rewrite fetch_find_project_root in Hrun. by injection Hrun. }
  apply find_first in Hfind as (_ & _ & _ & Hb & _).
  unfold fetch_boundary in Hb. rewrite Htool in Hb.
  rewrite bool_decide_true in Hb by done.
  by rewrite andb_false_r in Hb.
Qed.

(** C1, the run that departs from it.  The operator stands in the
    [scripts] directory of the tool, whose directory [/work/skill-forge]
    holds [SKILL.md], [.git] and materials of its own, inside the
    repository [/work].  The search of [fetch_source.py] skips the tool's
    directory and answers [/work]; the search of [cleanup_materials.py],
    which the list and cleanup entry points use, answers the tool's
    directory itself, so that these entry points take
    [/work/skill-forge/.claude/temp-materials] for the Project root. *)
Theorem cleanup_search_returns_tool_dir :
  let w := Scenarios.tool_world in
  is_tool_dir w = true
  /\ tool_dir w = ["work"; "skill-forge"]
  /\ Fetch.find_project_root None w = (Ok (Some ["work"]), w)
  /\ Cleanup.find_project_root None w = (Ok (Some (tool_dir w)), w)
  /\ Cleanup.get_materials_dirs w
     = (Ok [(["work"; "skill-forge"; ".claude"; "temp-materials"], "project")], w)
  /\ fst (Cleanup.list_materials w)
     = Ok [Material "demo"
             ["work"; "skill-forge"; ".claude"; "temp-materials"; "demo"]
             4 "4.0 B" "project"].
Proof. vm_compute. repeat split. Qed.

(** ** The claims about the candidate roots *)

Lemma mkdir_parents_exists (d : path) (w w1 : world) :
  mkdir_parents d w = (Ok tt, w1) ->
  exists_ (fs w1) d = true /\ home w1 = home w /\ cwd w1 = cwd w.
Proof.
  unfold mkdir_parents.
  destruct (mkdir_p (fs w) d) as [t [e|]] eqn:E; [done|].
  intros [= <-]. split; [|done]. simpl.
  apply mkdir_p_dir in E as (m & kids & E).
  unfold exists_, stat. by rewrite E, follow_dir.
Qed.

(** C5. [get_materials_dirs] returns and leaves the world as it was, so it
    creates no directory.  Every root it returns exists; the Project root
    of the boundary found is returned exactly when it exists, and so is the
    Global root; the Project root, if any, comes before the Global root,
    and nothing else is returned.  After the Global root has been created,
    the very next call returns it, in the last place. *)
Theorem candidate_roots_exist_in_order (w : world) :
  Cleanup.get_materials_dirs w = (Ok (candidate_roots w), w)
  /\ (forall d mode, (d, mode) ∈ candidate_roots w -> exists_ (fs w) d = true)
  /\ (forall root, project_root w = Some root ->
        ((project_materials root, "project") ∈ candidate_roots w
         <-> exists_ (fs w) (project_materials root) = true))
  /\ ((global_materials w, "global") ∈ candidate_roots w
      <-> exists_ (fs w) (global_materials w) = true)
  /\ (exists ps gs,
        candidate_roots w = ps ++ gs
        /\ (ps = [] \/ exists root, project_root w = Some root
                                    /\ ps = [(project_materials root, "project")])
        /\ (gs = [] \/ gs = [(global_materials w, "global")]))
  /\ (forall w1,
        mkdir_parents (global_materials w) w = (Ok tt, w1) ->
        exists ps,
          Cleanup.get_materials_dirs w1
          = (Ok (ps ++ [(global_materials w, "global")]), w1)
          /\ Forall (fun d => snd d = "project") ps).
Proof.
  split; [apply get_materials_dirs_reads|].
  split; [apply candidate_roots_exist|].
  split; [|split; [|split]].
  - intros root Hroot. split; [apply candidate_roots_exist|].
    intros He. unfold candidate_roots. rewrite Hroot, He.
    apply elem_of_app. left. left.
  - split; [apply candidate_roots_exist|].
    intros He. unfold candidate_roots. rewrite He.
    apply elem_of_app. right. left.
  - unfold candidate_roots. eexists _, _. split; [done|]. split.
    + destruct (project_root w) as [root|]; [|by left].
      destruct (exists_ _ _); [|by left]. right. by exists root.
    + destruct (exists_ (fs w) (global_materials w)); [by right|by left].
  - intros w1 (He & Hh & Hc)%mkdir_parents_exists.
    rewrite get_materials_dirs_reads. unfold candidate_roots.
    assert (global_materials w1 = global_materials w) as Hg
      by (unfold global_materials; by rewrite Hh).
    rewrite Hg, He. eexists. split; [done|].
    destruct (project_root w1) as [root|]; [|done].
    destruct (exists_ (fs w1) (project_materials root)); [|done].
    by constructor.
Qed.

(** C5 on a concrete tree: with no root on disk nothing is returned; once
    the Global root has been made, the next call returns it. *)
Lemma candidate_roots_exist_in_order_witness :
  fst (Cleanup.get_materials_dirs Scenarios.no_roots) = Ok []
  /\ exists w1 ps,
       mkdir_parents (global_materials Scenarios.no_roots) Scenarios.no_roots
       = (Ok tt, w1)
       /\ Cleanup.get_materials_dirs w1
          = (Ok (ps ++ [(["home"; "u"; "skill-materials"], "global")]), w1).
Proof.
  split; [by vm_compute|].
  destruct (mkdir_parents (global_materials Scenarios.no_roots) Scenarios.no_roots)
    as [r w1] eqn:E.
  assert (r = Ok tt) as ->.
  { apply (f_equal fst) in E. vm_compute in E. by symmetry. }
  destruct (candidate_roots_exist_in_order Scenarios.no_roots)
    as (_ & _ & _ & _ & _ & Hnext).
  destruct (Hnext w1 E) as (ps & Hps & _).
  exists w1, ps. split; [done|exact Hps].
Defined.

(** ** The claims about the inventory *)

Lemma inventory_app (t : node) (l1 l2 : list (path * string))
    (ms : list material) :
  inventory t (l1 ++ l2) = Ok ms <->
  exists m1 m2, inventory t l1 = Ok m1 /\ inventory t l2 = Ok m2 /\ ms = m1 ++ m2.
Proof.
  revert ms. induction l1 as [|[d mode] l1 IH]; intros ms; simpl.
  - split.
    + intros H. by exists [], ms.
    + by intros (m1 & m2 & [= <-] & H & ->).
  - destruct (scandir t d) as [kids| |].
    2,3: split; [done|by intros (? & ? & ? & _)].
    destruct (inventory t (l1 ++ l2)) as [ms'| |] eqn:E.
    + destruct (proj1 (IH ms') eq_refl) as (m1 & m2 & H1 & H2 & ->).
      rewrite H1. split.
      * intros [= <-]. eexists _, m2. split; [done|]. split; [done|].
        by rewrite app_assoc.
      * intros (m1' & m2' & [= <-] & H2' & ->). rewrite H2 in H2'.
        injection H2' as ->. by rewrite app_assoc.
    + split; [done|]. intros (m1' & m2' & H1 & H2 & ->).
      destruct (inventory t l1) as [m1| |] eqn:E1; try done.
      assert (Raise e = Ok (m1 ++ m2')) as E'
        by (apply IH; eauto). done.
    + split; [done|]. intros (m1' & m2' & H1 & H2 & ->).
      destruct (inventory t l1) as [m1| |] eqn:E1; try done.
      assert (@Diverged (list material) = Ok (m1 ++ m2')) as E'
        by (apply IH; eauto). done.
Qed.

Lemma inventory_one (t : node) (d : path) (mode : string) (ms : list material) :
  inventory t [(d, mode)] = Ok ms <->
  exists kids, scandir t d = Ok kids
               /\ ms = collect t mode (sorted (items_of d kids)).
Proof.
  simpl. destruct (scandir t d) as [kids| |].
  - rewrite app_nil_r. split.
    + intros [= <-]. by exists kids.
    + by intros (kids' & [= <-] & ->).
  - split; [done|by intros (? & ? & _)].
  - split; [done|by intros (? & ? & _)].
Qed.

(** The entries of an inventory are those of its roots, one for each item
    that qualifies. *)
Lemma inventory_elem (t : node) (dirs : list (path * string))
    (ms : list material) (m : material) :
  inventory t dirs = Ok ms ->
  m ∈ ms <->
  exists d mode kids c k,
    (d, mode) ∈ dirs /\ scandir t d = Ok kids /\ (c, k) ∈ kids
    /\ qualifies t (joinpath d c) = true
    /\ m = entry_of t mode (joinpath d c).
Proof.
  revert ms. induction dirs as [|[d mode] dirs IH]; intros ms; simpl.
  - intros [= <-]. split; [by intros ?%elem_of_nil|].
    by intros (? & ? & ? & ? & ? & ?%elem_of_nil & _).
  - destruct (scandir t d) as [kids| |] eqn:Es; [|done..].
    destruct (inventory t dirs) as [ms'| |] eqn:E; [|done..].
    intros [= <-]. rewrite elem_of_app, collect_elem, (IH ms' eq_refl). split.
    + intros [(item & Hin & Hq & ->)|(d' & mode' & kids' & c & k & Hd & H)].
      * apply (proj1 (sorted_elem _ _)) in Hin.
        apply list_elem_of_fmap in Hin as [[c k] [-> Hin]].
        exists d, mode, kids, c, k. split; [left|done].
      * exists d', mode', kids', c, k. split; [by right|done].
    + intros (d' & mode' & kids' & c & k & Hd & Hs & Hin & Hq & ->).
      apply elem_of_cons in Hd as [[= -> ->]|Hd].
      * left. exists (joinpath d c). split; [|done].
        apply sorted_elem. rewrite Es in Hs. injection Hs as <-.
        by apply (list_elem_of_fmap_2 (fun e => joinpath d (fst e)) _ (c, k)).
      * right. exists d', mode', kids', c, k. done.
Qed.

Lemma listed_in_order_roots (w : world) (ms : list material) :
  inventory (fs w) (candidate_roots w) = Ok ms -> listed_in_order ms.
Proof.
  unfold candidate_roots.
  intros (ps & gs & Hps & Hgs & ->)%inventory_app. exists ps, gs.
  split; [done|].
  assert (forall d mode l,
            inventory (fs w) (if exists_ (fs w) d then [(d, mode)] else [])
            = Ok l ->
            Forall (fun m => m_mode m = mode) l
            /\ StronglySorted String.le (map m_name l)) as Hone.
  { intros d mode l. destruct (exists_ (fs w) d).
    - intros (kids & _ & ->)%inventory_one.
      split; [apply collect_mode|apply collect_names_sorted].
    - intros [= <-]. split; constructor. }
  apply Hone in Hgs as [Hg1 Hg2].
  destruct (project_root w) as [root|].
  - apply Hone in Hps as [Hp1 Hp2]. done.
  - injection Hps as <-. repeat split; try done; constructor.
Qed.

(** C6. [list_materials] answers with the inventory of the candidate roots
    and changes nothing on disk.  When it returns a list, the list is flat
    and in listing order: the entries of the Project root first, then
    those of the Global root, each group ordered by name.  It holds one
    entry for every qualifying item of every root and nothing else, so a
    name present in both roots yields two distinct entries.  A second call
    right after the first gives the same answer.  It returns a list
    whenever every candidate root can be listed. *)
Theorem listing_order_no_dedup_stable (w : world) :
  let r := fst (list_materials w) in
  let w' := snd (list_materials w) in
  r = inventory (fs w) (candidate_roots w)
  /\ fs w' = fs w
  /\ fst (list_materials w') = r
  /\ (forall ms, r = Ok ms ->
        listed_in_order ms
        /\ (forall m, m ∈ ms <->
              exists d mode kids c k,
                (d, mode) ∈ candidate_roots w /\ scandir (fs w) d = Ok kids
                /\ (c, k) ∈ kids /\ qualifies (fs w) (joinpath d c) = true
                /\ m = entry_of (fs w) mode (joinpath d c))
        /\ (forall P G kP kG x k1 k2,
              candidate_roots w = [(P, "project"); (G, "global")] ->
              scandir (fs w) P = Ok kP -> scandir (fs w) G = Ok kG ->
              (x, k1) ∈ kP -> (x, k2) ∈ kG ->
              qualifies (fs w) (joinpath P x) = true ->
              qualifies (fs w) (joinpath G x) = true ->
              exists m1 m2,
                m1 ∈ ms /\ m2 ∈ ms /\ m1 <> m2
                /\ m_name m1 = x /\ m_name m2 = x
                /\ m_path m1 = joinpath P x /\ m_path m2 = joinpath G x
                /\ m_mode m1 = "project" /\ m_mode m2 = "global"))
  /\ ((forall d mode, (d, mode) ∈ candidate_roots w ->
         exists kids, scandir (fs w) d = Ok kids) ->
      exists ms, r = Ok ms).
Proof.
  intros r w'. subst r w'.
  destruct (list_materials_reads w) as (out & Hrun & _). rewrite Hrun.
  cbn [fst snd].
  split; [done|]. split; [done|]. split.
  { destruct (list_materials_reads (set_stdout w (stdout w ++ out)))
      as (out' & -> & _).
    cbn [fst]. by rewrite (candidate_roots_set_stdout w). }
  split.
  - intros ms Hms. split; [by apply (listed_in_order_roots w)|].
    split; [intros m; by apply inventory_elem|].
    intros P G kP kG x k1 k2 Hroots HsP HsG HxP HxG HqP HqG.
    exists (entry_of (fs w) "project" (joinpath P x)),
           (entry_of (fs w) "global" (joinpath G x)).
    split; [|split; [|split]].
    + apply (inventory_elem _ _ _ _ Hms). exists P, "project", kP, x, k1.
      rewrite Hroots. repeat split; try done. left.
    + apply (inventory_elem _ _ _ _ Hms). exists G, "global", kG, x, k2.
      rewrite Hroots. repeat split; try done. right. left.
    + intros Heq. apply (f_equal m_mode) in Heq. done.
    + unfold entry_of, joinpath. simpl. by rewrite !name_snoc.
  - generalize (candidate_roots w) as dirs.
    induction dirs as [|[d mode] dirs IH]; intros Hall; [by exists []|].
    simpl. destruct (Hall d mode) as [kids ->]; [left|].
    destruct IH as [ms ->]; [|eauto].
    intros d' mode' H. apply (Hall d' mode'). by right.
Qed.

(** C6 on a concrete tree: both roots hold [alpha]; the listing has the
    Project entries [alpha], [zeta] before the Global entries [alpha],
    [beta], and leaves out the hidden directory and the plain file. *)
Lemma listing_order_no_dedup_stable_witness :
  let w := Scenarios.two_roots [] in
  exists ms,
    fst (list_materials w) = Ok ms
    /\ listed_in_order ms
    /\ map (fun m => (m_name m, m_mode m)) ms
       = [("alpha", "project"); ("zeta", "project");
          ("alpha", "global"); ("beta", "global")]
    /\ fst (list_materials (snd (list_materials w))) = Ok ms.
Proof.
  intros w.
  destruct (listing_order_no_dedup_stable w) as (Hr & _ & Hstable & Hms & _).
  destruct (fst (list_materials w)) as [ms| |] eqn:E;
    [|by vm_compute in E..].
  exists ms. split; [done|]. split; [by apply Hms|]. split; [|done].
  assert (Ok ms = fst (list_materials w)) as Hc by (by rewrite E).
  vm_compute in Hc. by injection Hc as ->.
Defined.

(** ** The claim about sizes *)

(** The size of a readable directory, entry by entry. *)
Lemma readable_size_entry (m : mode) (l1 l2 : list (string * node))
    (c : string) (k : node) :
  can_read m = true ->
  readable_size (Dir m (l1 ++ (c, k) :: l2))
  = (readable_size k + readable_size (Dir m (l1 ++ l2)))%Z.
Proof.
  intros Hr. simpl. rewrite Hr.
  induction l1 as [|[c' k'] l1 IH]; simpl; [done|]. rewrite IH. lia.
Qed.

Lemma readable_size_skipped (k : node) : skipped k -> readable_size k = 0%Z.
Proof. destruct k as [s|t|m kids]; simpl; [done..|]. by intros ->. Qed.

(** C8. On every entry directory [get_dir_size] returns, without an
    exception and without touching the world, the bytes of the files that
    can be reached through listable directories: a link or an unlistable
    subdirectory among the entries of a directory adds nothing, whatever
    lies behind it, and the rest is still counted.  With file sizes that
    are not negative this is a partial total, at most the full size of the
    tree, and the full size when everything can be listed.  The walk never
    ends in [PermissionError], and the loop over the items of a root that
    calls it always runs to its end. *)
Theorem size_walk_skips_unreadable (w : world) (p : path) :
  is_dir (fs w) p = true ->
  exists n,
    stat (fs w) p = Some n
    /\ get_dir_size p w = (Ok (readable_size n), w)
    /\ (sizes_ok n = true -> (0 <= readable_size n <= tree_size n)%Z)
    /\ (all_readable n = true -> readable_size n = tree_size n)
    /\ (forall m l1 c k l2,
          can_read m = true -> skipped k ->
          walk_size (Dir m (l1 ++ (c, k) :: l2)) = walk_size (Dir m (l1 ++ l2)))
    /\ (forall n', walk_size n' <> Raise PermissionError
                   /\ walk_size n' <> Diverged)
    /\ (forall items mode materials,
          exists ms, scan_items items mode materials w = (Ok ms, w)).
Proof.
  intros Hdir. pose proof (get_dir_size_reads p w Hdir) as Hrun.
  unfold is_dir in Hdir. unfold size_at in Hrun.
  destruct (stat (fs w) p) as [n|] eqn:E; [|done].
  exists n. split; [done|]. split; [done|].
  split; [apply readable_size_bounds|].
  split; [apply readable_size_full|].
  split; [|split].
  - intros m l1 c k l2 Hm Hk.
    rewrite (walk_size_dir (Dir m (l1 ++ (c, k) :: l2))).
    rewrite (walk_size_dir (Dir m (l1 ++ l2))).
    rewrite readable_size_entry by done.
    by rewrite (readable_size_skipped k Hk).
  - intros n'. pose proof (walk_size_dir n') as H.
    destruct n'; try done. by rewrite H.
  - intros items mode materials. eexists. apply scan_items_reads.
Qed.

(** C8 on a concrete tree: the entry holds 7 + 30 readable bytes, a link,
    and 1000 bytes in a directory that cannot be listed; its size is 37. *)
Lemma size_walk_skips_unreadable_witness :
  let p := ["home"; "u"; "skill-materials"; "repo"] in
  is_dir (fs Scenarios.guarded) p = true
  /\ exists n,
       stat (fs Scenarios.guarded) p = Some n
       /\ get_dir_size p Scenarios.guarded = (Ok 37%Z, Scenarios.guarded)
       /\ tree_size n = 1037%Z.
Proof.
  intros p.
  assert (is_dir (fs Scenarios.guarded) p = true) as Hdir
    by (vm_compute; reflexivity).
  split; [exact Hdir|].
  destruct (size_walk_skips_unreadable Scenarios.guarded p Hdir)
    as (n & Hn & Hrun & _).
  exists n. split; [exact Hn|].
  assert (stat (fs Scenarios.guarded) p
          = Some (Dir rw [("a", File 7);
                          ("secret", Dir (Mode false true) [("k", File 1000)]);
                          ("l", Symlink ["home"; "u"]);
                          ("sub", Dir rw [("b", File 30)])])) as Hn'
    by (vm_compute; reflexivity).
  rewrite Hn in Hn'. injection Hn' as ->.
  split; [exact Hrun|]. vm_compute. reflexivity.
Defined.

(** ** The claims about deletion by name *)

Lemma first_holding_some (t : node) (dirs : list (path * string)) (x : string)
    (target : path) (mode : string) :
  first_holding t dirs x = Some (target, mode) <->
  exists before d after,
    dirs = before ++ (d, mode) :: after
    /\ target = joinpath d x
    /\ exists_ t target = true
    /\ Forall (fun e => exists_ t (joinpath (fst e) x) = false) before.
Proof.
  induction dirs as [|[d0 mode0] dirs IH]; simpl.
  - split; [done|]. intros (before & d & after & H & _). by destruct before.
  - destruct (exists_ t (joinpath d0 x)) eqn:E.
    + split.
      * intros [= <- <-]. by exists [], d0, dirs.
      * intros (before & d & after & H & -> & He & Hb).
        destruct before as [|e before]; simplify_eq/=; [done|].
        apply Forall_cons in Hb as [Hb _]. simpl in Hb. congruence.
    + rewrite IH. split.
      * intros (before & d & after & -> & -> & He & Hb).
        exists ((d0, mode0) :: before), d, after. repeat split; try done.
        by constructor.
      * intros (before & d & after & H & -> & He & Hb).
        destruct before as [|e before]; simplify_eq/=; [congruence|].
        apply Forall_cons in Hb as [_ Hb]. by exists before, d, after.
Qed.

Lemma first_holding_none (t : node) (dirs : list (path * string)) (x : string) :
  first_holding t dirs x = None <->
  forall d mode, (d, mode) ∈ dirs -> exists_ t (joinpath d x) = false.
Proof.
  induction dirs as [|[d0 mode0] dirs IH]; simpl.
  - split; [|done]. by intros _ d mode ?%elem_of_nil.
  - destruct (exists_ t (joinpath d0 x)) eqn:E.
    + split; [done|]. intros H. rewrite (H d0 mode0) in E; [done|left].
    + rewrite IH. split.
      * intros H d mode [[= -> ->]|Hd]%elem_of_cons; [done|by eapply H].
      * intros H d mode Hd. apply (H d mode). by right.
Qed.

(** What is confined to one path leaves alone what lies apart from it. *)
Lemma confined_frame {A} (target q : path) (m : M A) (w : world) :
  confined [target] m w -> apart target q ->
  lstat (fs (snd (m w))) q = lstat (fs w) q.
Proof.
  intros (steps & Hr & Hs) Hapart. eapply reached_frame; [done|].
  eapply Forall_impl; [done|]. by intros p ->%list_elem_of_singleton.
Qed.

(** When the first place that holds the name is not a directory, sizing it
    fails before anything is printed or removed. *)
Lemma cleanup_specific_not_a_directory (x : string) (force : bool) (w : world)
    (target : path) (mode : string) :
  first_holding (fs w) (searched w) x = Some (target, mode) ->
  is_dir (fs w) target = false ->
  cleanup_specific x force w = (Raise NotADirectoryError, w).
Proof.
  intros Hsome Hdir. rewrite (cleanup_specific_found _ _ _ _ _ Hsome).
  apply first_holding_some in Hsome as (_ & _ & _ & _ & _ & He & _).
  unfold bind, get_dir_size. unfold is_dir in Hdir. unfold exists_ in He.
  unfold stat in *. destruct (lstat (fs w) target) as [n|]; [|done].
  by destruct (follow MAXSYMLINKS (fs w) n) as [[s|t|m kids]|].
Qed.



(** With no candidate root, the default target does not exist either: it
    is the place of one of the two roots. *)
Lemma default_target_absent (w : world) :
  candidate_roots w = [] -> exists_ (fs w) (default_target w) = false.
Proof.
  unfold candidate_roots, default_target.
  destruct (project_root w) as [root|].
  - destruct (exists_ (fs w) (project_materials root)); [done|done].
  - simpl. by destruct (exists_ (fs w) (global_materials w)).
Qed.

(** Without candidate roots the search goes to the default target alone,
    and nothing can be found below a directory that does not exist. *)
Lemma auto_search_misses (w : world) (x : string) :
  candidate_roots w = [] ->
  searched w = [(default_target w, "auto")]
  /\ exists_ (fs w) (joinpath (default_target w) x) = false
  /\ first_holding (fs w) (searched w) x = None.
Proof.
  intros Hroots.
  assert (searched w = [(default_target w, "auto")]) as Hs
    by (unfold searched; by rewrite Hroots).
  assert (exists_ (fs w) (joinpath (default_target w) x) = false) as Hx.
  { destruct (exists_ (fs w) (joinpath (default_target w) x)) eqn:E; [|done].
    apply exists_parent, is_dir_exists in E.
    by rewrite (default_target_absent w Hroots) in E. }
  split; [done|]. split; [done|]. rewrite Hs. simpl. by rewrite Hx.
Qed.




(** ** The claim about hidden entries *)

(** A forced deletion calls [shutil.rmtree] on the path of the material,
    whatever its name. *)
Lemma delete_material_forced (mat : material) (w : world) :
  rmtree_log (snd (delete_material mat true w)) = rmtree_log w ++ [m_path mat].
Proof.
  unfold delete_material. cbn [negb]. rewrite bind_ret. cbn [negb].
  unfold try_except, bind at 1, rmtree.
  destruct (rmtree_at (fs w) (m_path mat)) as [t [e|]]; by cbn.
Qed.

(** A forced deletion by name calls [shutil.rmtree] on the first place
    that holds the name, when that place is a directory. *)
Lemma cleanup_specific_forced (x : string) (w : world) (target : path)
    (mode : string) :
  first_holding (fs w) (searched w) x = Some (target, mode) ->
  is_dir (fs w) target = true ->
  rmtree_log (snd (cleanup_specific x true w)) = rmtree_log w ++ [target].
Proof.
  intros Hsome Hdir. rewrite (cleanup_specific_found _ _ _ _ _ Hsome).
  rewrite (bind_read _ _ _ _ (get_dir_size_reads _ _ Hdir)), bind_print.
  by rewrite delete_material_forced.
Qed.

Lemma inventory_paths_same (w w' : world) :
  fs w' = fs w -> cwd w' = cwd w -> home w' = home w ->
  inventory_paths w' = inventory_paths w.
Proof.
  intros Hfs Hcwd Hhome. unfold inventory_paths.
  by rewrite (candidate_roots_same w w'), Hfs.
Qed.

(** No entry of the inventory has a hidden name, and every entry lies
    directly in a candidate root under its own name. *)
Lemma inventory_not_hidden (w : world) (ms : list material) (m : material) :
  inventory (fs w) (candidate_roots w) = Ok ms -> m ∈ ms ->
  hidden (m_name m) = false
  /\ exists d, (d, m_mode m) ∈ candidate_roots w
               /\ m_path m = joinpath d (m_name m).
Proof.
  intros Hms Hm.
  apply (inventory_elem _ _ _ _ Hms) in Hm
    as (d & mode & kids & c & k & Hd & _ & _ & Hq & ->).
  unfold qualifies in Hq. apply andb_true_iff in Hq as [_ Hh].
  apply negb_true_iff in Hh. unfold joinpath in *. rewrite name_snoc in Hh.
  unfold entry_of. cbn [m_name m_mode m_path]. rewrite name_snoc.
  split; [done|]. by exists d.
Qed.

(** The list mode, the delete-all mode and the interactive mode of the
    tool remove nothing but entries of the inventory. *)
Lemma confined_main_inventory (a : args) (w : world) :
  a_list a = true \/ a_all a = true \/ a_name a = None \/ a_name a = Some "" ->
  confined (inventory_paths w) (main a) w.
Proof.
  intros Hmode. unfold confined at 1, main. rewrite !bind_print.
  set (w3 := set_stdout _ _).
  assert (reached [] w w3) as Hr.
  { apply reached_io; try done. unfold w3, set_stdout.
    cbn [stdout]. rewrite <- !app_assoc. by apply prefix_app_r. }
  assert (inventory_paths w3 = inventory_paths w) as Hp
    by (by apply inventory_paths_same).
  assert (forall m : M unit,
            confined (inventory_paths w3) m w3 ->
            exists steps, reached steps w (snd (m w3))
                          /\ Forall (fun p => p ∈ inventory_paths w) steps)
    as Hlift.
  { intros m (steps & Hs & Hin). exists ([] ++ steps).
    split; [by eapply reached_trans|]. by rewrite <- Hp. }
  apply Hlift.
  destruct (a_list a).
  { pose proof confined_list_materials. confine. }
  destruct (a_all a); [apply confined_cleanup_all|].
  destruct Hmode as [?|[?|[->| ->]]]; try done;
    apply confined_interactive_cleanup.
Qed.




(** ** The claim about packaging *)

Lemma members_elem (skill_path : path) (files : list path) (f arcname : path) :
  (f, arcname) ∈ members skill_path files <->
  f ∈ files
  /\ Package.should_include (relative_to f skill_path) (name f) = true
  /\ arcname = relative_to f (parent skill_path).
Proof.
  unfold members. rewrite list_elem_of_fmap. split.
  - intros [f' [[= -> ->] [Hi Hin]%list_elem_of_filter]]. done.
  - intros (Hin & Hi & ->). exists f. split; [done|].
    by apply list_elem_of_filter.
Qed.



(** ** The claim about deleting everything *)

Lemma set_stdout_nil (w : world) : set_stdout w (stdout w ++ []) = w.
Proof. rewrite app_nil_r. by destruct w. Qed.

Lemma print_group_prints (l : list material) : forall index total w,
  exists out st,
    print_group l index total w = (Ok st, set_stdout w (stdout w ++ out)).
Proof.
  induction l as [|mat l IH]; intros index total w.
  - exists [], (index, total). cbn [print_group]. unfold ret.
    by rewrite set_stdout_nil.
  - cbn [print_group]. rewrite bind_print.
    edestruct IH as (out & st & ->). eexists (_ :: out), st.
    unfold set_stdout. cbn [fs cwd home script stdin stdout rmtree_log zip_log].
    by rewrite <- app_assoc.
Qed.

(** [print_materials_list] prints, and does nothing else. *)
Lemma print_materials_list_prints (materials : list material) (w : world) :
  exists out,
    print_materials_list materials w = (Ok tt, set_stdout w (stdout w ++ out)).
Proof.
  assert (forall (out : list string) (m : M unit) (w1 : world),
            w1 = set_stdout w (stdout w ++ out) ->
            (exists out', m w1 = (Ok tt, set_stdout w1 (stdout w1 ++ out'))) ->
            exists out', m w1 = (Ok tt, set_stdout w (stdout w ++ out')))
    as Hlift.
  { intros out m w1 -> [out' ->]. exists (out ++ out').
    unfold set_stdout. cbn [fs cwd home script stdin stdout rmtree_log zip_log].
    by rewrite app_assoc. }
  unfold print_materials_list. destruct materials as [|mat0 rest].
  { eexists [_]. reflexivity. }
  set (materials := mat0 :: rest).
  rewrite bind_print. eapply Hlift; [reflexivity|].
  set (w1 := set_stdout _ _).
  assert (exists out st,
            match filter (fun m => m_mode m = "project") materials with
            | [] => ret (1%Z, 0%Z)
            | _ :: _ =>
                project_root <- find_project_root None;;
                print ("  📍 Project mode (" +:+ str_opt project_root
                       +:+ "/.claude/temp-materials/):");;
                st <- print_group
                        (filter (fun m => m_mode m = "project") materials)
                        1%Z 0%Z;;
                print "";; ret st
            end w1
            = (Ok st, set_stdout w1 (stdout w1 ++ out))) as (out1 & st1 & H1).
  { destruct (filter (fun m => m_mode m = "project") materials) as [|p ps].
    - exists [], (1%Z, 0%Z). unfold ret. by rewrite set_stdout_nil.
    - rewrite (bind_read _ _ _ _ (cleanup_find_project_root w1)), bind_print.
      unfold bind at 1.
      edestruct (print_group_prints (p :: ps)) as (out & st & ->).
      rewrite bind_print. eexists (_ :: out ++ [_]), st.
      unfold ret, set_stdout.
      cbn [fs cwd home script stdin stdout rmtree_log zip_log].
      by rewrite <- !app_assoc. }
  unfold bind at 1. rewrite H1.
  set (w2 := set_stdout w1 _).
  assert (exists out st,
            match filter (fun m => m_mode m = "global") materials with
            | [] => ret st1
            | _ :: _ =>
                print "  🌍 Global mode (~/skill-materials/):";;
                st <- print_group
                        (filter (fun m => m_mode m = "global") materials)
                        (fst st1) (snd st1);;
                print "";; ret st
            end w2
            = (Ok st, set_stdout w2 (stdout w2 ++ out))) as (out2 & st2 & H2).
  { destruct (filter (fun m => m_mode m = "global") materials) as [|g gs].
    - exists [], st1. unfold ret. by rewrite set_stdout_nil.
    - rewrite bind_print. unfold bind at 1.
      edestruct (print_group_prints (g :: gs)) as (out & st & ->).
      rewrite bind_print. eexists (_ :: out ++ [_]), st.
      unfold ret, set_stdout.
      cbn [fs cwd home script stdin stdout rmtree_log zip_log].
      by rewrite <- !app_assoc. }
  unfold bind at 1. rewrite H2. eexists (out1 ++ out2 ++ [_]).
  unfold print, w2, set_stdout.
  cbn [fs cwd home script stdin stdout rmtree_log zip_log].
  by rewrite <- !app_assoc.
Qed.

(** The loop of [cleanup_all] calls [shutil.rmtree] on every material in
    turn, whether or not the calls before succeeded, reads no line, and
    counts the calls that succeeded. *)
Lemma remove_each_attempts (materials : list material) : forall count w,
  exists w',
    remove_each materials count w
    = (Ok (count + Z.of_nat (succeeded (fs w) (map m_path materials)))%Z, w')
    /\ reached (map m_path materials) w w'
    /\ stdin w' = stdin w.
Proof.
  induction materials as [|mat l IH]; intros count w.
  - exists w. cbn [remove_each map succeeded]. unfold ret.
    rewrite Z.add_0_r.
    split; [done|]. split; [apply reached_refl|done].
  - cbn [remove_each map succeeded].
    set (one := match snd (rmtree_at (fs w) (m_path mat)) with
                | None => 1
                | Some _ => 0
                end).
    assert (exists w1,
              try_except
                (rmtree (m_path mat);;
                 print ("   ✅ Deleted: " +:+ m_name mat +:+ " ("
                        +:+ m_size_str mat +:+ ")");;
                 ret (count + 1)%Z)
                (fun e => Some (print ("   ❌ Error deleting " +:+ m_name mat
                                       +:+ ": " +:+ str_exn e);;
                                ret count)) w
              = (Ok (count + Z.of_nat one)%Z, w1)
              /\ reached [m_path mat] w w1
              /\ fs w1 = fst (rmtree_at (fs w) (m_path mat))
              /\ stdin w1 = stdin w) as (w1 & H1 & Hr1 & Hfs1 & Hin1).
    { pose proof (reached_rmtree (m_path mat) w) as Hr.
      unfold try_except, bind at 1. unfold rmtree in *. subst one.
      destruct (rmtree_at (fs w) (m_path mat)) as [t [e|]] eqn:E;
        cbn [fst snd] in *.
      - rewrite bind_print. eexists. rewrite Z.add_0_r.
        split; [reflexivity|]. split; [|done].
        replace [m_path mat] with ([m_path mat] ++ []) by apply app_nil_r.
        eapply reached_trans; [done|apply reached_print].
      - rewrite bind_print. eexists.
        split; [reflexivity|]. split; [|done].
        replace [m_path mat] with ([m_path mat] ++ []) by apply app_nil_r.
        eapply reached_trans; [done|apply reached_print]. }
    unfold bind at 1. rewrite H1.
    destruct (IH (count + Z.of_nat one)%Z w1) as (w' & -> & Hr & Hin).
    exists w'. rewrite Hfs1. split; [f_equal; f_equal; lia|].
    split; [by apply (reached_trans [m_path mat] _ w w1 w')|congruence].
Qed.

(** The delete-all operation with a line that is not the phrase: nothing is
    removed and the inventory is as before. *)
Lemma cleanup_all_cancelled (w : world) (ms : list material)
    (line : string) (rest : list string) :
  inventory (fs w) (candidate_roots w) = Ok ms -> ms <> [] ->
  stdin w = line :: rest ->
  strip line <> "DELETE ALL" ->
  exists w',
    cleanup_all false w = (Ok tt, w')
    /\ fs w' = fs w /\ rmtree_log w' = rmtree_log w
    /\ last (stdout w') = Some "   Cancelled"
    /\ fst (list_materials w') = Ok ms.
Proof.
  intros Hms Hne Hin Hline. unfold cleanup_all.
  destruct (list_materials_reads w) as (out0 & Hrun & Hout0).
  unfold bind at 1. rewrite Hrun, Hms.
  destruct ms as [|m0 ms']; [done|]. set (ms := m0 :: ms') in *.
  set (w1 := set_stdout w _).
  destruct (print_materials_list_prints ms w1) as (out1 & Hp).
  unfold bind at 1. rewrite Hp. cbn [negb].
  rewrite bind_assoc, bind_print, bind_assoc.
  unfold bind at 1, input. subst w1. cbn [stdin set_stdout]. rewrite Hin.
  destruct (String.eqb_spec (strip line) "DELETE ALL") as [?|_]; [done|].
  cbn [negb]. rewrite bind_assoc, bind_print, bind_ret.
  eexists. split; [reflexivity|].
  cbn [fs rmtree_log stdout set_stdout set_stdin].
  split; [done|]. split; [done|]. split; [by rewrite last_snoc|].
  match goal with |- fst (list_materials ?w2) = _ =>
    destruct (list_materials_reads w2) as (out2 & -> & _);
    rewrite (candidate_roots_same w w2) by done
  end.
  exact Hms.
Qed.

(** The delete-all operation, forced or confirmed with the phrase: it
    calls [shutil.rmtree] on every entry of the inventory in listing
    order, without another question, whether or not the calls before
    succeeded, and ends by printing how many of these calls succeeded,
    out of the number of entries. *)
Lemma cleanup_all_confirmed (w : world) (force : bool) (ms : list material) :
  inventory (fs w) (candidate_roots w) = Ok ms -> ms <> [] ->
  force = true
  \/ (exists line rest, stdin w = line :: rest /\ strip line = "DELETE ALL") ->
  exists w',
    cleanup_all force w = (Ok tt, w')
    /\ reached (map m_path ms) w w'
    /\ length (stdin w') = length (stdin w) - (if force then 0 else 1)
    /\ last (stdout w')
       = Some (nl +:+ "✅ Deleted "
               +:+ str_int (Z.of_nat (succeeded (fs w) (map m_path ms)))
               +:+ "/" +:+ str_int (Z.of_nat (length ms)) +:+ " materials").
Proof.
  intros Hms Hne Hgo. unfold cleanup_all.
  destruct (list_materials_reads w) as (out0 & Hrun & Hout0).
  unfold bind at 1. rewrite Hrun, Hms.
  destruct ms as [|m0 ms']; [done|]. set (ms := m0 :: ms') in *.
  set (w1 := set_stdout w _).
  destruct (print_materials_list_prints ms w1) as (out1 & Hp).
  unfold bind at 1. rewrite Hp.
  set (w2 := set_stdout w1 _).
  assert (reached [] w w2) as Hr2.
  { apply reached_io; try done. unfold w2, w1, set_stdout. cbn [stdout].
    rewrite <- app_assoc. by apply prefix_app_r. }
  assert (forall w3,
            reached [] w w3 ->
            exists w',
              (deleted_count <- remove_each ms 0%Z;;
               print (nl +:+ "✅ Deleted " +:+ str_int deleted_count +:+ "/"
                      +:+ str_int (Z.of_nat (length ms)) +:+ " materials")) w3
              = (Ok tt, w')
              /\ reached (map m_path ms) w w'
              /\ stdin w' = stdin w3
              /\ last (stdout w')
                 = Some (nl +:+ "✅ Deleted "
                         +:+ str_int (Z.of_nat (succeeded (fs w) (map m_path ms)))
                         +:+ "/" +:+ str_int (Z.of_nat (length ms))
                         +:+ " materials"))
    as Hloop.
  { intros w3 Hr3.
    destruct (remove_each_attempts ms 0%Z w3) as (w' & Hrm & Hr & Hin).
    unfold bind at 1. rewrite Hrm. rewrite Z.add_0_l.
    destruct (reached_nothing w w3 Hr3) as [-> _].
    eexists. split; [reflexivity|]. split.
    - replace (map m_path ms) with (([] ++ map m_path ms) ++ [])
        by (by rewrite app_nil_r).
      eapply reached_trans; [by eapply reached_trans|apply reached_print].
    - cbn [stdin stdout set_stdout]. split; [done|]. by rewrite last_snoc. }
  destruct force; cbn [negb].
  - rewrite bind_ret. destruct (Hloop w2 Hr2) as (w' & -> & Hr & Hin & Hl).
    exists w'. split; [done|]. split; [done|].
    split; [|done]. rewrite Hin. unfold w2, w1. cbn [stdin set_stdout]. lia.
  - destruct Hgo as [?|(line & rest & Hin & Hline)]; [done|].
    rewrite bind_assoc, bind_print, bind_assoc.
    unfold bind at 1, input. subst w2 w1. cbn [stdin set_stdout]. rewrite Hin.
    rewrite Hline, String.eqb_refl. cbn [negb].
    rewrite bind_ret.
    match goal with |- context [bind _ _ ?w3] =>
      destruct (Hloop w3) as (w' & -> & Hr & Hin' & Hl)
    end.
    { apply reached_io; try done; cbn [stdout stdin set_stdout set_stdin].
      - rewrite <- !app_assoc. by apply prefix_app_r.
      - rewrite Hin. by apply suffix_cons_r. }
    exists w'. split; [done|]. split; [done|].
    split; [|done]. rewrite Hin'. cbn [stdin set_stdin length]. lia.
Qed.

(** C2, the run that departs from it.  The Global root holds the one entry
    [alpha].  In the interactive operation the operator chooses [all],
    types the phrase [DELETE ALL] exactly, and is then asked again, for
    [alpha] by name; on the answer [n] nothing is removed, and the
    operation reports 0 of 1.  The delete-all operation, given the same
    phrase, asks nothing more, removes [alpha] and reports 1 of 1. *)
Theorem interactive_all_asks_for_each_entry :
  let alpha := ["home"; "u"; "skill-materials"; "alpha"] in
  let w := Scenarios.one_entry ["all"; "DELETE ALL"; "n"] in
  let w' := snd (interactive_cleanup w) in
  let v := Scenarios.one_entry ["DELETE ALL"] in
  let v' := snd (cleanup_all false v) in
  inventory_paths w = [alpha]
  /\ fst (interactive_cleanup w) = Ok tt
  /\ drop 9 (stdout w')
     = [nl +:+ "Your choice: ";
        nl +:+ "⚠️  WARNING: This will delete ALL 1 materials!";
        "   Type 'DELETE ALL' to confirm: ";
        nl +:+ "⚠️  About to delete: alpha (10.0 B)";
        "   Confirm deletion? (y/n): ";
        "   Skipped";
        nl +:+ "✅ Deleted 0/1 materials"]
  /\ stdin w' = []
  /\ rmtree_log w' = []
  /\ fs w' = fs w
  /\ fst (cleanup_all false v) = Ok tt
  /\ drop 5 (stdout v')
     = [nl +:+ "⚠️  WARNING: This will delete ALL 1 materials!";
        "   Type 'DELETE ALL' to confirm: ";
        "   ✅ Deleted: alpha (10.0 B)";
        nl +:+ "✅ Deleted 1/1 materials"]
  /\ rmtree_log v' = [alpha]
  /\ lstat (fs v') alpha = None.
Proof. vm_compute. repeat split. Qed.

(** * Further properties of the tools *)

Import Escapes Report SplitDocs DetectLlms Growth Removal.

(** ** The deletion primitive *)

Lemma set_entry_same c (k : node) kids :
  assoc c kids = Some k -> set_entry c k kids = kids.
Proof.
  induction kids as [|[c' v'] kids IH]; simpl; [done|].
  destruct (String.eqb_spec c' c) as [->|Hne].
  - by intros [= ->].
  - intros H. by rewrite IH.
Qed.

(** [shutil.rmtree] of a path at which nothing lies fails and leaves the
    tree as it was. *)
Lemma rmtree_at_absent (p : path) : forall n,
  lstat n p = None -> exists e, rmtree_at n p = (n, Some e).
Proof.
  induction p as [|c rest IH]; intros n; [done|].
  cbn [lstat rmtree_at]. destruct n as [s|t|m kids]; [by eexists..|].
  destruct (assoc c kids) as [k|] eqn:E; [|by eexists].
  destruct rest as [|c' rest]; [done|].
  intros H. destruct (IH k H) as [e ->]. exists e.
  by rewrite (set_entry_same _ _ _ E).
Qed.

(** The [try] of [delete_material] (and of [cleanup_all]) around
    [shutil.rmtree]: the call is made, no exception leaves, and the answer
    tells whether the call succeeded. *)
Lemma guarded_rmtree_runs (p : path) (s : string) (e' : exn -> string) (w : world) :
  exists w',
    try_except (rmtree p ;; print s ;; ret true)
      (fun e => Some (print (e' e) ;; ret false)) w
    = (Ok (bool_decide (snd (rmtree_at (fs w) p) = None)), w')
    /\ fs w' = fst (rmtree_at (fs w) p)
    /\ rmtree_log w' = rmtree_log w ++ [p]
    /\ stdin w' = stdin w.
Proof.
  unfold try_except, bind at 1, rmtree.
  destruct (rmtree_at (fs w) p) as [t [e|]]; cbn [fst snd].
  - rewrite bind_print. eexists. split; [reflexivity|]. done.
  - rewrite bind_print. eexists. split; [reflexivity|]. done.
Qed.

Lemma delete_material_answered (mat : material) (w : world)
    (line : string) (rest : list string) :
  stdin w = line :: rest ->
  exists b w',
    delete_material mat false w = (Ok b, w')
    /\ stdin w' = rest
    /\ if String.eqb (lower (strip line)) "y"
       then rmtree_log w' = rmtree_log w ++ [m_path mat]
            /\ fs w' = fst (rmtree_at (fs w) (m_path mat))
            /\ (b = true <-> snd (rmtree_at (fs w) (m_path mat)) = None)
       else b = false /\ fs w' = fs w /\ rmtree_log w' = rmtree_log w
            /\ last (stdout w') = Some "   Skipped".
Proof.
  intros Hin. unfold delete_material, confirm_deletion. cbn [negb].
  rewrite !bind_assoc, bind_print, bind_assoc.
  unfold bind at 1, input. cbn [stdin set_stdout]. rewrite Hin.
  rewrite bind_ret.
  destruct (String.eqb (lower (strip line)) "y"); cbn [negb].
  - match goal with |- context [try_except ?b ?h ?w1] =>
      destruct (guarded_rmtree_runs (m_path mat)
                  ("   ✅ Deleted: " +:+ m_name mat +:+ " (" +:+ m_size_str mat +:+ ")")
                  (fun e => "   ❌ Error deleting " +:+ m_name mat +:+ ": " +:+ str_exn e)
                  w1)
        as (w' & Hrun & Hfs & Hlog & Hin')
    end.
    rewrite Hrun. eexists _, w'. split; [reflexivity|].
    split; [by rewrite Hin'|]. split; [exact Hlog|]. split; [exact Hfs|].
    cbn [fs set_stdin set_stdout]. by rewrite bool_decide_eq_true.
  - rewrite bind_print. eexists _, _. split; [reflexivity|].
    cbn [stdin fs rmtree_log stdout set_stdout set_stdin].
    split; [done|]. split; [done|]. split; [done|]. split; [done|].
    by rewrite last_snoc.
Qed.

(** Without [force], [delete_material] asks once and acts on the answer.
    The answer [y], in either case and with any space around it, makes it
    call [shutil.rmtree] on the path of the material, and it reports
    whether the call succeeded.  Any other answer makes it print
    [Skipped] and return [False] with nothing removed. *)
Theorem delete_material_asks (mat : material) (w : world)
    (line : string) (rest : list string) :
  stdin w = line :: rest ->
  exists b w',
    delete_material mat false w = (Ok b, w')
    /\ stdin w' = rest
    /\ if String.eqb (lower (strip line)) "y"
       then rmtree_log w' = rmtree_log w ++ [m_path mat]
            /\ fs w' = fst (rmtree_at (fs w) (m_path mat))
            /\ (b = true <-> snd (rmtree_at (fs w) (m_path mat)) = None)
       else b = false /\ fs w' = fs w /\ rmtree_log w' = rmtree_log w
            /\ last (stdout w') = Some "   Skipped".
Proof. apply delete_material_answered. Qed.

Lemma delete_material_asks_witness :
  let alpha := ["home"; "u"; "skill-materials"; "alpha"] in
  let mat := Material "alpha" alpha 10 "10.0 B" "global" in
  exists b w',
    delete_material mat false (Scenarios.one_entry [" Y "; "n"]) = (Ok b, w')
    /\ stdin w' = ["n"]
    /\ rmtree_log w' = [alpha]
    /\ lstat (fs w') alpha = None
    /\ b = true.
Proof.
  intros alpha mat.
  destruct (delete_material_asks mat (Scenarios.one_entry [" Y "; "n"]) " Y " ["n"]
              eq_refl) as (b & w' & Hrun & Hin & Hlog & Hfs & Hb).
  exists b, w'. split; [exact Hrun|]. split; [exact Hin|].
  split; [exact Hlog|]. split; [by rewrite Hfs|]. by apply Hb.
Defined.

(** The only exception that leaves [delete_material] is the [EOFError] of
    the question, when there is no line left to read; nothing has been
    removed then. *)
Theorem delete_material_raises_eof_only (mat : material) (force : bool)
    (w : world) :
  match delete_material mat force w with
  | (Ok _, _) => True
  | (Raise e, w') =>
      e = EOFError /\ force = false /\ stdin w = []
      /\ fs w' = fs w /\ rmtree_log w' = rmtree_log w
  | (Diverged, _) => False
  end.
Proof.
  destruct force.
  - unfold delete_material. cbn [negb]. rewrite bind_ret. cbn [negb].
    match goal with |- context [try_except ?b ?h ?w1] =>
      destruct (guarded_rmtree_runs (m_path mat)
                  ("   ✅ Deleted: " +:+ m_name mat +:+ " (" +:+ m_size_str mat +:+ ")")
                  (fun e => "   ❌ Error deleting " +:+ m_name mat +:+ ": " +:+ str_exn e)
                  w1)
        as (w' & -> & _)
    end.
    done.
  - destruct (stdin w) as [|line rest] eqn:Hin.
    + unfold delete_material, confirm_deletion. cbn [negb].
      rewrite !bind_assoc, bind_print, bind_assoc.
      unfold bind at 1, input. cbn [stdin set_stdout]. rewrite Hin. done.
    + destruct (delete_material_answered mat w line rest Hin) as (b & w' & -> & _).
      done.
Qed.

(** A material that was deleted cannot be deleted again: the second call
    of [shutil.rmtree] fails, the failure is caught and reported by the
    answer [False], and the tree stays as the first deletion left it. *)
Theorem delete_material_twice (mat : material) (force : bool) (w w' : world) :
  delete_material mat force w = (Ok true, w') ->
  exists w'',
    delete_material mat true w' = (Ok false, w'')
    /\ fs w'' = fs w'
    /\ rmtree_log w'' = rmtree_log w ++ [m_path mat; m_path mat].
Proof.
  intros [Hgone Hlog]%delete_material_done.
  unfold delete_material. cbn [negb]. rewrite bind_ret. cbn [negb].
  match goal with |- context [try_except ?b ?h ?w1] =>
    destruct (guarded_rmtree_runs (m_path mat)
                ("   ✅ Deleted: " +:+ m_name mat +:+ " (" +:+ m_size_str mat +:+ ")")
                (fun e => "   ❌ Error deleting " +:+ m_name mat +:+ ": " +:+ str_exn e)
                w1)
      as (w'' & -> & Hfs & Hlog' & _)
  end.
  destruct (rmtree_at_absent _ _ Hgone) as [e He]. rewrite He in *.
  exists w''. cbn [fst snd] in *. split; [done|]. split; [done|].
  by rewrite Hlog', Hlog, <- app_assoc.
Qed.

Lemma delete_material_twice_witness :
  let alpha := ["home"; "u"; "skill-materials"; "alpha"] in
  let mat := Material "alpha" alpha 10 "10.0 B" "global" in
  let w := Scenarios.one_entry [] in
  exists w'',
    delete_material mat true (snd (delete_material mat true w)) = (Ok false, w'')
    /\ fs w'' = fs (snd (delete_material mat true w))
    /\ rmtree_log w'' = [alpha; alpha].
Proof.
  intros alpha mat w.
  apply (delete_material_twice mat true w). vm_compute. reflexivity.
Defined.

(** ** Exceptions that leave the cleanup tool *)

Lemma escapes_mono {A} (P Q : exn -> world -> Prop) (m : M A) (w : world) :
  (forall e w', P e w' -> Q e w') -> escapes P m w -> escapes Q m w.
Proof. intros HPQ Hm e w' H. by apply HPQ, Hm. Qed.

Lemma escapes_ok {A} (P : exn -> world -> Prop) (m : M A) (w w' : world) (a : A) :
  m w = (Ok a, w') -> escapes P m w.
Proof. intros H e w''. by rewrite H. Qed.

Lemma escapes_ret {A} (P : exn -> world -> Prop) (a : A) (w : world) :
  escapes P (ret a) w.
Proof. by eapply escapes_ok. Qed.

Lemma escapes_gets {A} (P : exn -> world -> Prop) (f : world -> A) (w : world) :
  escapes P (gets f) w.
Proof. by eapply escapes_ok. Qed.

Lemma escapes_print (P : exn -> world -> Prop) (s : string) (w : world) :
  escapes P (print s) w.
Proof. by eapply escapes_ok. Qed.

Lemma escapes_input (prompt : string) (w : world) :
  escapes out_of_input (input prompt) w.
Proof.
  intros e w'. unfold input. destruct (stdin w) as [|l rest] eqn:E; [|done].
  intros [= <- <-]. by split.
Qed.

Lemma escapes_bind {A B} (P : exn -> world -> Prop) (m : M A) (k : A -> M B)
    (w : world) :
  escapes P m w ->
  (forall a w1, m w = (Ok a, w1) -> escapes P (k a) w1) ->
  escapes P (bind m k) w.
Proof.
  intros Hm Hk e w'. unfold bind.
  destruct (m w) as [[a|e0|] w1] eqn:E.
  - by apply Hk.
  - intros [= <- <-]. by apply Hm.
  - done.
Qed.

(** A handler for every exception lets nothing out of the body. *)
Lemma escapes_try {A} (P : exn -> world -> Prop) (body : M A)
    (h : exn -> M A) (w : world) :
  (forall e w1, escapes P (h e) w1) ->
  escapes P (try_except body (fun e => Some (h e))) w.
Proof.
  intros Hh e w'. unfold try_except.
  destruct (body w) as [[a|e0|] w1]; [done| |done]. apply Hh.
Qed.

Create HintDb escape discriminated.
#[local] Hint Resolve escapes_ret escapes_gets escapes_print escapes_input
  : escape.

(** Builds an [escapes] goal from the rules, following the program. *)
Ltac escape :=
  repeat first
    [ solve [auto 1 with escape]
    | match goal with
      | |- escapes _ (bind _ _) _ => apply escapes_bind; [|intros ? ? ?]
      | |- escapes _ (try_except _ _) _ => apply escapes_try; intros ? ?
      end
    | match goal with
      | |- escapes _ (if ?b then _ else _) _ => destruct b
      | |- escapes _ (match ?x with Some _ => _ | None => _ end) _ => destruct x
      | |- escapes _ (match ?x with [] => _ | _ :: _ => _ end) _ => destruct x
      | |- escapes _ (let (_, _) := ?x in _) _ => destruct x
      end ].

Lemma escapes_delete_material (mat : material) (force : bool) (w : world) :
  escapes out_of_input (delete_material mat force) w.
Proof. unfold delete_material, confirm_deletion. escape. Qed.

Lemma escapes_delete_each (materials : list material) :
  forall count w, escapes out_of_input (delete_each materials count) w.
Proof.
  induction materials as [|mat l IH]; intros count w; simpl; [escape|].
  pose proof (escapes_delete_material mat false). escape.
Qed.

Lemma escapes_remove_each (P : exn -> world -> Prop) (materials : list material) :
  forall count w, escapes P (remove_each materials count) w.
Proof.
  induction materials as [|mat l IH]; intros count w; simpl; escape.
Qed.

(** The bounds test of the interactive loop keeps the index inside the
    list, so that [materials[index]] does not raise. *)
Lemma nth_material_in_range (materials : list material) (index : Z) (w : world) :
  (0 <=? index)%Z && (index <? Z.of_nat (length materials))%Z = true ->
  exists mat,
    nth_material materials index w = (Ok mat, w)
    /\ materials !! Z.to_nat index = Some mat.
Proof.
  intros [H0 H1]%andb_true_iff. unfold nth_material, list_index. rewrite H0.
  apply Z.leb_le in H0. apply Z.ltb_lt in H1.
  destruct (materials !! Z.to_nat index) as [mat|] eqn:E; [by exists mat|].
  apply lookup_ge_None in E. lia.
Qed.

Lemma escapes_interactive_loop (materials : list material) (fuel : nat) :
  forall w, escapes out_of_input (interactive_loop fuel materials) w.
Proof.
  induction fuel as [|fuel IH]; intros w; [done|].
  cbn [interactive_loop].
  pose proof (escapes_delete_each materials).
  pose proof (fun mat => escapes_delete_material mat false).
  apply escapes_bind; [escape|]. intros r w1 _.
  destruct (String.eqb _ "quit"); [escape|].
  destruct (String.eqb _ "all"); [escape|].
  destruct (int_of_str _) as [i|]; [|escape].
  apply escapes_bind; [|intros; apply IH].
  destruct (_ && _) eqn:Hrange; [|escape].
  destruct (nth_material_in_range materials (i - 1) w1 Hrange) as (mat & Hn & _).
  apply escapes_bind; [by eapply escapes_ok|]. intros; escape.
Qed.

(** Listing a directory that exists fails only when it cannot be read or
    is no directory. *)
Lemma scandir_raises (t : node) (d : path) (e : exn) :
  exists_ t d = true -> scandir t d = Raise e ->
  e = PermissionError \/ e = NotADirectoryError.
Proof.
  unfold exists_, scandir. destruct (stat t d) as [[s|l|m kids]|]; try done.
  - intros _ [= <-]. by right.
  - intros _ [= <-]. by right.
  - destruct (can_read m); [done|]. intros _ [= <-]. by left.
Qed.

Lemma inventory_raises (t : node) (dirs : list (path * string)) (e : exn) :
  Forall (fun d => exists_ t (fst d) = true) dirs ->
  inventory t dirs = Raise e ->
  e = PermissionError \/ e = NotADirectoryError.
Proof.
  induction 1 as [|[d mode] dirs Hd Hdirs IH]; simpl; [done|].
  destruct (scandir t d) as [kids|e0|] eqn:Es; [| |done].
  - destruct (inventory t dirs) as [ms|e0|]; [done| |done].
    intros [= <-]. by apply IH.
  - intros [= <-]. by eapply scandir_raises.
Qed.

Lemma escapes_list_materials (w0 w : world) :
  fs w = fs w0 -> rmtree_log w = rmtree_log w0 ->
  escapes (unlistable w0) list_materials w.
Proof.
  intros Hfs Hlog e w'. destruct (list_materials_reads w) as (out & -> & _).
  intros [= He <-]. split; [|by split].
  apply (inventory_raises (fs w) (candidate_roots w)); [|done].
  apply Forall_forall. intros [d mode] Hd. by eapply candidate_roots_exist.
Qed.

(** [get_dir_size] of something that exists fails only when it is no
    directory. *)
Lemma escapes_get_dir_size (w0 w : world) (p : path) :
  fs w = fs w0 -> rmtree_log w = rmtree_log w0 ->
  exists_ (fs w) p = true ->
  escapes (unlistable w0) (get_dir_size p) w.
Proof.
  intros Hfs Hlog Hex e w'. unfold get_dir_size, exists_ in *.
  destruct (stat (fs w) p) as [[s|l|m kids]|]; try done.
  - intros [= <- <-]. split; [by right|done].
  - intros [= <- <-]. split; [by right|done].
  - by rewrite (walk_size_dir (Dir m kids)).
Qed.

Lemma first_holding_exists (t : node) (dirs : list (path * string)) (x : string)
    (target : path) (mode : string) :
  first_holding t dirs x = Some (target, mode) -> exists_ t target = true.
Proof.
  induction dirs as [|[d m] dirs IH]; simpl; [done|].
  destruct (exists_ t (joinpath d x)) eqn:E; [|done]. by intros [= <- _].
Qed.

Lemma escapes_print_materials_list (P : exn -> world -> Prop)
    (materials : list material) (w : world) :
  escapes P (print_materials_list materials) w.
Proof.
  destruct (print_materials_list_prints materials w) as (out & H).
  by eapply escapes_ok.
Qed.

#[local] Hint Resolve escapes_print_materials_list escapes_remove_each
  escapes_delete_each escapes_delete_material escapes_interactive_loop
  : escape.

Lemma escapes_after_listing (w0 w : world) {A}
    (k : list material -> M A) :
  fs w = fs w0 -> rmtree_log w = rmtree_log w0 ->
  (forall ms w1, escapes out_of_input (k ms) w1) ->
  escapes (may_fail w0) (bind list_materials k) w.
Proof.
  intros Hfs Hlog Hk. apply escapes_bind.
  - eapply escapes_mono; [|by apply escapes_list_materials].
    intros e w'. by right.
  - intros ms w1 _. eapply escapes_mono; [|apply Hk]. intros e w'. by left.
Qed.

Lemma escapes_cleanup_all (w0 w : world) (force : bool) :
  fs w = fs w0 -> rmtree_log w = rmtree_log w0 ->
  escapes (may_fail w0) (cleanup_all force) w.
Proof.
  intros Hfs Hlog. unfold cleanup_all.
  apply escapes_after_listing; [done..|]. intros ms w1. escape.
Qed.

Lemma escapes_interactive_cleanup (w0 w : world) :
  fs w = fs w0 -> rmtree_log w = rmtree_log w0 ->
  escapes (may_fail w0) interactive_cleanup w.
Proof.
  intros Hfs Hlog. unfold interactive_cleanup.
  apply escapes_after_listing; [done..|]. intros ms w1. escape.
Qed.

Lemma escapes_cleanup_specific (w0 w : world) (x : string) (force : bool) :
  fs w = fs w0 -> rmtree_log w = rmtree_log w0 ->
  escapes (may_fail w0) (cleanup_specific x force) w.
Proof.
  intros Hfs Hlog.
  destruct (first_holding (fs w) (searched w) x) as [[target mode]|] eqn:E.
  - intros e w'. rewrite (cleanup_specific_found _ _ _ _ _ E). revert e w'.
    change (escapes (may_fail w0)
              (bind (get_dir_size target)
                 (fun size =>
                    print ("   Found in: " +:+ mode +:+ " mode - "
                           +:+ str (parent target)) ;;
                    delete_material
                      (Material x target size (format_size size) mode) force))
              w).
    apply escapes_bind.
    + eapply escapes_mono; [|apply escapes_get_dir_size; try done].
      * intros e w'. by right.
      * by eapply first_holding_exists.
    + intros size w1 _. eapply escapes_mono; [intros e w'; by left|]. escape.
  - eapply escapes_ok. by apply cleanup_specific_absent.
Qed.



(** ** The modes of the cleanup tool *)

(** The three lines that [main] prints first. *)
Lemma main_banner (a : args) (w : world) :
  exists w3,
    main a w
    = (if a_list a
       then materials <- list_materials;; print_materials_list materials
       else if a_all a then cleanup_all (a_force a)
       else match a_name a with
            | Some (String c s) =>
                cleanup_specific (String c s) (a_force a);; ret tt
            | _ => interactive_cleanup
            end) w3
    /\ w3 = set_stdout w
              (stdout w
               ++ [nl +:+ "============================================================";
                   "SOURCE MATERIALS CLEANUP";
                   "============================================================"]).
Proof.
  unfold main. rewrite !bind_print. eexists. split; [reflexivity|].
  unfold set_stdout. cbn [fs cwd home script stdin stdout rmtree_log zip_log].
  by rewrite <- !app_assoc.
Qed.

(** With [--list] the tool lists and does nothing else, whatever the other
    options say: it removes nothing, reads no line, and fails only as the
    listing fails. *)
Theorem list_mode_reads_only (a : args) (w : world) :
  a_list a = true ->
  exists out,
    main a w
    = (match inventory (fs w) (candidate_roots w) with
       | Ok _ => Ok tt
       | Raise e => Raise e
       | Diverged => Diverged
       end,
       set_stdout w (stdout w ++ out)).
Proof.
  intros Hlist. destruct (main_banner a w) as (w3 & -> & Hw3). rewrite Hlist.
  destruct (list_materials_reads w3) as (out1 & Hrun & _).
  unfold bind at 1. rewrite Hrun.
  rewrite (candidate_roots_same w w3) by (by subst w3).
  replace (fs w3) with (fs w) by (by subst w3).
  destruct (inventory (fs w) (candidate_roots w)) as [ms|e|].
  - match goal with |- context [print_materials_list ms ?w4] =>
      destruct (print_materials_list_prints ms w4) as (out2 & ->)
    end.
    eexists. f_equal. subst w3. unfold set_stdout.
    cbn [fs cwd home script stdin stdout rmtree_log zip_log].
    by rewrite <- !app_assoc.
  - eexists. f_equal. subst w3. unfold set_stdout.
    cbn [fs cwd home script stdin stdout rmtree_log zip_log].
    by rewrite <- !app_assoc.
  - eexists. f_equal. subst w3. unfold set_stdout.
    cbn [fs cwd home script stdin stdout rmtree_log zip_log].
    by rewrite <- !app_assoc.
Qed.

Lemma list_mode_reads_only_witness :
  let a := Args (Some "alpha") true true true in
  let w := Scenarios.two_roots ["DELETE ALL"] in
  exists out, main a w = (Ok tt, set_stdout w (stdout w ++ out)).
Proof.
  intros a w. destruct (list_mode_reads_only a w eq_refl) as (out & Hrun).
  exists out. rewrite Hrun. vm_compute. reflexivity.
Defined.

(** With no entry in the inventory the delete-all operation and the
    interactive operation return at once: nothing is asked, no line is
    read, nothing is removed, also when [--force] is given.  When a root
    exists, with no entry in it, they print nothing at all. *)
Theorem nothing_to_clean (w : world) (force : bool) :
  inventory (fs w) (candidate_roots w) = Ok [] ->
  exists out,
    cleanup_all force w = (Ok tt, set_stdout w (stdout w ++ out))
    /\ interactive_cleanup w = (Ok tt, set_stdout w (stdout w ++ out))
    /\ (candidate_roots w <> [] -> out = []).
Proof.
  intros Hms. destruct (list_materials_reads w) as (out & Hrun & Hout).
  exists out. unfold cleanup_all, interactive_cleanup, bind.
  by rewrite Hrun, Hms.
Qed.

Lemma nothing_to_clean_witness :
  exists out,
    cleanup_all true Scenarios.no_roots
    = (Ok tt, set_stdout Scenarios.no_roots (stdout Scenarios.no_roots ++ out))
    /\ interactive_cleanup Scenarios.no_roots
       = (Ok tt, set_stdout Scenarios.no_roots (stdout Scenarios.no_roots ++ out)).
Proof.
  destruct (nothing_to_clean Scenarios.no_roots true) as (out & H1 & H2 & _).
  { vm_compute. reflexivity. }
  by exists out.
Defined.

(** The interactive operation with entries to offer: it prints the list
    and the options and enters its loop, with a bound above the number of
    lines the operator has left. *)
Lemma interactive_cleanup_enters (w : world) (ms : list material) :
  inventory (fs w) (candidate_roots w) = Ok ms -> ms <> [] ->
  exists out,
    interactive_cleanup w
    = interactive_loop (S (length (stdin w))) ms
        (set_stdout w (stdout w ++ out)).
Proof.
  intros Hms Hne. unfold interactive_cleanup.
  destruct (list_materials_reads w) as (out0 & Hrun & _).
  unfold bind at 1. rewrite Hrun, Hms.
  destruct ms as [|m0 ms']; [done|]. set (ms := m0 :: ms') in *.
  set (w1 := set_stdout w _).
  destruct (print_materials_list_prints ms w1) as (out1 & Hp).
  unfold bind at 1. rewrite Hp. rewrite !bind_print, bind_gets. subst w1.
  cbn [stdin set_stdout]. eexists. f_equal.
  unfold set_stdout. cbn [fs cwd home script stdin stdout rmtree_log zip_log].
  by rewrite <- !app_assoc.
Qed.

(** One turn of the loop: the question is printed and a line is read. *)
Lemma interactive_loop_turn (fuel : nat) (ms : list material) (w : world)
    (line : string) (rest : list string) :
  stdin w = line :: rest ->
  let response := lower (strip line) in
  let w1 := set_stdin (set_stdout w (stdout w ++ [nl +:+ "Your choice: "])) rest in
  interactive_loop (S fuel) ms w
  = (if String.eqb response "quit" then
       print (nl +:+ "Exiting without changes")
     else if String.eqb response "all" then
       print (nl +:+ "⚠️  WARNING: This will delete ALL "
              +:+ str_int (Z.of_nat (length ms)) +:+ " materials!") ;;
       c <- input "   Type 'DELETE ALL' to confirm: " ;;
       let confirm := strip c in
       if String.eqb confirm "DELETE ALL" then
         deleted_count <- delete_each ms 0%Z ;;
         print (nl +:+ "✅ Deleted " +:+ str_int deleted_count +:+ "/"
                +:+ str_int (Z.of_nat (length ms)) +:+ " materials")
       else print "   Cancelled"
     else
       match int_of_str response with
       | Some i =>
           let index := (i - 1)%Z in
           (if (0 <=? index)%Z && (index <? Z.of_nat (length ms))%Z then
              mat <- nth_material ms index ;;
              delete_material mat false ;; ret tt
            else
              print ("   Invalid index. Choose 1-"
                     +:+ str_int (Z.of_nat (length ms)))) ;;
           interactive_loop fuel ms
       | None =>
           print "   Invalid input. Try again or type 'quit'" ;;
           interactive_loop fuel ms
       end) w1.
Proof.
  intros Hin response w1. cbn [interactive_loop].
  unfold bind at 1, input. by rewrite Hin.
Qed.

(** The answer [quit], in any case and with any space around it, ends the
    interactive operation with nothing removed. *)
Theorem interactive_quit_changes_nothing (w : world) (ms : list material)
    (line : string) (rest : list string) :
  inventory (fs w) (candidate_roots w) = Ok ms -> ms <> [] ->
  stdin w = line :: rest ->
  lower (strip line) = "quit" ->
  exists w',
    interactive_cleanup w = (Ok tt, w')
    /\ fs w' = fs w /\ rmtree_log w' = rmtree_log w
    /\ stdin w' = rest
    /\ last (stdout w') = Some (nl +:+ "Exiting without changes").
Proof.
  intros Hms Hne Hin Hquit.
  destruct (interactive_cleanup_enters w ms Hms Hne) as (out & ->).
  rewrite (interactive_loop_turn _ ms _ line rest) by exact Hin.
  rewrite Hquit. cbn [String.eqb Ascii.eqb Bool.eqb]. cbn beta iota.
  unfold print. eexists. split; [reflexivity|].
  cbn [fs rmtree_log stdin stdout set_stdout set_stdin].
  repeat split. by rewrite last_snoc.
Qed.

Lemma interactive_quit_changes_nothing_witness :
  exists w',
    interactive_cleanup (Scenarios.one_entry ["  Quit "; "all"]) = (Ok tt, w')
    /\ fs w' = Scenarios.one_entry_tree /\ rmtree_log w' = []
    /\ stdin w' = ["all"].
Proof.
  destruct (interactive_quit_changes_nothing
              (Scenarios.one_entry ["  Quit "; "all"])
              [Material "alpha" ["home"; "u"; "skill-materials"; "alpha"]
                 10 "10.0 B" "global"]
              "  Quit " ["all"])
    as (w' & Hrun & Hfs & Hlog & Hin & _);
    [vm_compute; reflexivity|done|reflexivity|vm_compute; reflexivity|].
  exists w'. repeat split; assumption.
Defined.

(** A choice that is neither a word of the menu nor a number of the list
    (a number below 1 or above the length of the list included) removes
    nothing: a line says what was wrong and the loop asks again. *)
Theorem interactive_invalid_choice (fuel : nat) (ms : list material)
    (w : world) (line : string) (rest : list string) :
  stdin w = line :: rest ->
  let response := lower (strip line) in
  response <> "quit" -> response <> "all" ->
  (forall i, int_of_str response = Some i ->
             (i < 1 \/ Z.of_nat (length ms) < i)%Z) ->
  interactive_loop (S fuel) ms w
  = interactive_loop fuel ms
      (set_stdin
         (set_stdout w
            (stdout w
             ++ [nl +:+ "Your choice: ";
                 match int_of_str response with
                 | Some _ => "   Invalid index. Choose 1-"
                             +:+ str_int (Z.of_nat (length ms))
                 | None => "   Invalid input. Try again or type 'quit'"
                 end]))
         rest).
Proof.
  intros Hin response Hq Ha Hrange.
  rewrite (interactive_loop_turn _ ms _ line rest) by exact Hin.
  fold response.
  destruct (String.eqb_spec response "quit") as [?|_]; [done|].
  destruct (String.eqb_spec response "all") as [?|_]; [done|].
  destruct (int_of_str response) as [i|]; cbv zeta.
  - assert ((0 <=? i - 1)%Z && (i - 1 <? Z.of_nat (length ms))%Z = false) as ->.
    { apply andb_false_iff. destruct (Hrange i eq_refl); [left|right]; lia. }
    rewrite bind_print. f_equal. unfold set_stdout, set_stdin.
    cbn [fs cwd home script stdin stdout rmtree_log zip_log].
    by rewrite <- app_assoc.
  - rewrite bind_print. f_equal. unfold set_stdout, set_stdin.
    cbn [fs cwd home script stdin stdout rmtree_log zip_log].
    by rewrite <- app_assoc.
Qed.

Lemma interactive_invalid_choice_witness :
  let ms := [Material "alpha" ["home"; "u"; "skill-materials"; "alpha"]
               10 "10.0 B" "global"] in
  let w := Scenarios.one_entry ["0"; "-1"; "quit"] in
  exists w',
    interactive_loop 4 ms w = (Ok tt, w')
    /\ fs w' = fs w /\ rmtree_log w' = []
    /\ stdout w'
       = [nl +:+ "Your choice: "; "   Invalid index. Choose 1-1";
          nl +:+ "Your choice: "; "   Invalid index. Choose 1-1";
          nl +:+ "Your choice: "; nl +:+ "Exiting without changes"].
Proof.
  intros ms w.
  rewrite (interactive_invalid_choice 3 ms w "0" ["-1"; "quit"] eq_refl);
    [|by vm_compute|by vm_compute
     |intros i Hi; vm_compute in Hi; injection Hi as <-; left; lia].
  eexists. split; [vm_compute; reflexivity|]. by vm_compute.
Defined.

(** A turn of the loop in which the number of an entry is chosen and the
    question about it is answered: the entry asked about is the one at
    that place of the list the loop was started with, and the loop goes
    on with the same list. *)
Lemma interactive_loop_choice (fuel : nat) (ms : list material) (w : world)
    (line answer : string) (rest : list string) (i : Z) (mat : material) :
  stdin w = line :: answer :: rest ->
  int_of_str (lower (strip line)) = Some i ->
  (1 <= i)%Z -> ms !! Z.to_nat (i - 1) = Some mat ->
  exists w2,
    interactive_loop (S fuel) ms w = interactive_loop fuel ms w2
    /\ stdin w2 = rest
    /\ if String.eqb (lower (strip answer)) "y"
       then rmtree_log w2 = rmtree_log w ++ [m_path mat]
            /\ fs w2 = fst (rmtree_at (fs w) (m_path mat))
       else rmtree_log w2 = rmtree_log w /\ fs w2 = fs w.
Proof.
  intros Hin Hi Hpos Hmat.
  rewrite (interactive_loop_turn _ ms _ line (answer :: rest)) by exact Hin.
  destruct (String.eqb_spec (lower (strip line)) "quit") as [Hq|_];
    [by rewrite Hq in Hi|].
  destruct (String.eqb_spec (lower (strip line)) "all") as [Ha|_];
    [by rewrite Ha in Hi|].
  rewrite Hi. cbv zeta.
  assert ((0 <=? i - 1)%Z && (i - 1 <? Z.of_nat (length ms))%Z = true) as Hrange.
  { apply lookup_lt_Some in Hmat. apply andb_true_iff. split; lia. }
  rewrite Hrange.
  set (w1 := set_stdin _ _).
  destruct (nth_material_in_range ms (i - 1) w1 Hrange) as (mat' & Hn & Hmat').
  assert (mat' = mat) as -> by congruence.
  rewrite !bind_assoc. rewrite (bind_read _ _ _ _ Hn).
  destruct (delete_material_answered mat w1 answer rest eq_refl)
    as (b & w2 & Hdel & Hin2 & Hans).
  rewrite bind_assoc. unfold bind at 1. rewrite Hdel. rewrite bind_ret.
  exists w2. split; [done|]. split; [done|].
  destruct (String.eqb (lower (strip answer)) "y").
  - destruct Hans as (Hlog & Hfs & _). by split.
  - destruct Hans as (_ & Hfs & Hlog & _). by split.
Qed.

(** The turn of the loop that reads [quit]. *)
Lemma interactive_loop_quit (fuel : nat) (ms : list material) (w : world)
    (line : string) (rest : list string) :
  stdin w = line :: rest -> lower (strip line) = "quit" ->
  interactive_loop (S fuel) ms w
  = (Ok tt,
     set_stdout (set_stdin w rest)
       (stdout w ++ [nl +:+ "Your choice: "; nl +:+ "Exiting without changes"])).
Proof.
  intros Hin Hquit.
  rewrite (interactive_loop_turn _ ms _ line rest) by exact Hin.
  rewrite Hquit. cbn [String.eqb Ascii.eqb Bool.eqb]. cbn beta iota.
  unfold print, set_stdout, set_stdin.
  cbn [fs cwd home script stdin stdout rmtree_log zip_log].
  by rewrite <- app_assoc.
Qed.

(** In the interactive operation, the number [i] of an entry, then an
    answer, then [quit]: the entry asked about is the [i]-th of the
    inventory, counted from 1; on the answer [y] the tool calls
    [shutil.rmtree] on that entry and on nothing else, on any other answer
    it removes nothing. *)
Theorem interactive_choice_deletes_entry (w : world) (ms : list material)
    (line answer : string) (rest : list string) (i : Z) (mat : material) :
  inventory (fs w) (candidate_roots w) = Ok ms ->
  stdin w = line :: answer :: "quit" :: rest ->
  int_of_str (lower (strip line)) = Some i ->
  (1 <= i)%Z -> ms !! Z.to_nat (i - 1) = Some mat ->
  exists w',
    interactive_cleanup w = (Ok tt, w')
    /\ stdin w' = rest
    /\ if String.eqb (lower (strip answer)) "y"
       then rmtree_log w' = rmtree_log w ++ [m_path mat]
            /\ fs w' = fst (rmtree_at (fs w) (m_path mat))
       else rmtree_log w' = rmtree_log w /\ fs w' = fs w.
Proof.
  intros Hms Hin Hi Hpos Hmat.
  assert (ms <> []) as Hne by (by intros ->).
  destruct (interactive_cleanup_enters w ms Hms Hne) as (out & ->).
  rewrite Hin. cbn [length].
  edestruct (interactive_loop_choice (S (S (S (length rest)))) ms
               (set_stdout w (stdout w ++ out)) line answer ("quit" :: rest))
    as (w2 & -> & Hin2 & Hans); [exact Hin|exact Hi|exact Hpos|exact Hmat|].
  rewrite (interactive_loop_quit _ ms w2 "quit" rest Hin2 eq_refl).
  eexists. split; [reflexivity|]. split; [done|].
  exact Hans.
Qed.

Lemma interactive_choice_deletes_entry_witness :
  let alpha := ["home"; "u"; "skill-materials"; "alpha"] in
  exists w',
    interactive_cleanup (Scenarios.one_entry [" 1"; "Y"; "quit"]) = (Ok tt, w')
    /\ stdin w' = []
    /\ rmtree_log w' = [alpha]
    /\ lstat (fs w') alpha = None.
Proof.
  intros alpha.
  destruct (interactive_choice_deletes_entry
              (Scenarios.one_entry [" 1"; "Y"; "quit"])
              [Material "alpha" alpha 10 "10.0 B" "global"]
              " 1" "Y" [] 1 (Material "alpha" alpha 10 "10.0 B" "global"))
    as (w' & Hrun & Hin & Hlog & Hfs);
    [vm_compute; reflexivity|reflexivity|vm_compute; reflexivity|lia
    |reflexivity|].
  exists w'. split; [exact Hrun|]. split; [exact Hin|]. split; [exact Hlog|].
  by rewrite Hfs.
Defined.

(** The numbers of an interactive session are those of the inventory taken
    when the session began: after a first entry was chosen, and removed or
    not, a second number still stands for the entry at that place of the
    first inventory; the list is neither taken anew nor numbered anew. *)
Theorem interactive_numbers_stay (w : world) (ms : list material)
    (line1 answer1 line2 answer2 : string) (rest : list string)
    (i j : Z) (mi mj : material) :
  inventory (fs w) (candidate_roots w) = Ok ms ->
  stdin w = line1 :: answer1 :: line2 :: answer2 :: "quit" :: rest ->
  int_of_str (lower (strip line1)) = Some i ->
  (1 <= i)%Z -> ms !! Z.to_nat (i - 1) = Some mi ->
  int_of_str (lower (strip line2)) = Some j ->
  (1 <= j)%Z -> ms !! Z.to_nat (j - 1) = Some mj ->
  exists w',
    interactive_cleanup w = (Ok tt, w')
    /\ stdin w' = rest
    /\ rmtree_log w'
       = rmtree_log w
         ++ (if String.eqb (lower (strip answer1)) "y" then [m_path mi] else [])
         ++ (if String.eqb (lower (strip answer2)) "y" then [m_path mj] else []).
Proof.
  intros Hms Hin Hi Hipos Hmi Hj Hjpos Hmj.
  assert (ms <> []) as Hne by (by intros ->).
  destruct (interactive_cleanup_enters w ms Hms Hne) as (out & ->).
  rewrite Hin. cbn [length].
  edestruct (interactive_loop_choice (S (S (S (S (S (length rest)))))) ms
               (set_stdout w (stdout w ++ out)) line1 answer1
               (line2 :: answer2 :: "quit" :: rest))
    as (w2 & -> & Hin2 & Hans1); [exact Hin|exact Hi|exact Hipos|exact Hmi|].
  edestruct (interactive_loop_choice (S (S (S (S (length rest))))) ms
               w2 line2 answer2 ("quit" :: rest))
    as (w3 & -> & Hin3 & Hans2); [exact Hin2|exact Hj|exact Hjpos|exact Hmj|].
  rewrite (interactive_loop_quit _ ms w3 "quit" rest Hin3 eq_refl).
  eexists. split; [reflexivity|]. split; [done|].
  cbn [rmtree_log set_stdout set_stdin] in *.
  destruct (String.eqb (lower (strip answer1)) "y"),
           (String.eqb (lower (strip answer2)) "y");
    destruct Hans1 as [Hl1 _], Hans2 as [Hl2 _]; rewrite Hl2, Hl1;
    by rewrite ?app_nil_r, <- ?app_assoc.
Qed.

Lemma interactive_numbers_stay_witness :
  let alpha := ["home"; "u"; "proj"; ".claude"; "temp-materials"; "alpha"] in
  let beta := ["home"; "u"; "skill-materials"; "beta"] in
  exists w',
    interactive_cleanup (Scenarios.two_roots ["1"; "y"; "4"; "y"; "quit"])
    = (Ok tt, w')
    /\ stdin w' = []
    /\ rmtree_log w' = [alpha; beta].
Proof.
  intros alpha beta.
  edestruct (fun ms mi mj =>
               interactive_numbers_stay
                 (Scenarios.two_roots ["1"; "y"; "4"; "y"; "quit"]) ms
                 "1" "y" "4" "y" [] 1 4 mi mj)
    as (w' & Hrun & Hin & Hlog);
    [vm_compute; reflexivity|reflexivity|vm_compute; reflexivity|lia
    |vm_compute; reflexivity|vm_compute; reflexivity|lia
    |vm_compute; reflexivity|].
  exists w'. split; [exact Hrun|]. split; [exact Hin|]. exact Hlog.
Defined.

(** ** The numbers of a listing *)

Lemma print_group_lines (l : list material) : forall index total w,
  print_group l index total w
  = (Ok ((index + Z.of_nat (length l))%Z, (total + total_size l)%Z),
     set_stdout w (stdout w ++ numbered_from index l)).
Proof.
  induction l as [|mat l IH]; intros index total w.
  - cbn [print_group numbered_from length total_size foldr]. unfold ret.
    rewrite set_stdout_nil. do 3 f_equal; lia.
  - cbn [print_group numbered_from]. rewrite bind_print, IH.
    unfold set_stdout, total_size.
    cbn [fs cwd home script stdin stdout rmtree_log zip_log foldr length].
    rewrite <- app_assoc. do 3 f_equal; lia.
Qed.

Lemma numbered_from_app (l1 l2 : list material) : forall index,
  numbered_from index (l1 ++ l2)
  = numbered_from index l1 ++ numbered_from (index + Z.of_nat (length l1)) l2.
Proof.
  induction l1 as [|mat l1 IH]; intros index; simpl.
  - do 2 f_equal. lia.
  - rewrite IH. do 3 f_equal. lia.
Qed.

Lemma total_size_app (l1 l2 : list material) :
  total_size (l1 ++ l2) = (total_size l1 + total_size l2)%Z.
Proof.
  unfold total_size. induction l1 as [|mat l1 IH]; simpl; [done|].
  rewrite IH. lia.
Qed.

Lemma numbered_from_lookup (l : list material) : forall index j mat,
  l !! j = Some mat ->
  numbered_from index l !! j = Some (numbered_line (index + Z.of_nat j) mat).
Proof.
  induction l as [|m0 l IH]; intros index j mat; [done|].
  destruct j as [|j]; simpl.
  - intros [= ->]. do 2 f_equal. lia.
  - intros H. rewrite (IH _ _ _ H). do 2 f_equal. lia.
Qed.

(** A list in listing order falls into its two groups. *)
Lemma listed_in_order_groups (ms : list material) :
  listed_in_order ms ->
  ms = filter (fun m => m_mode m = "project") ms
       ++ filter (fun m => m_mode m = "global") ms.
Proof.
  intros (ps & gs & -> & Hps & Hgs & _).
  rewrite !filter_app.
  assert (filter (fun m => m_mode m = "project") ps = ps) as ->.
  { induction Hps as [|p ps Hp _ IH]; [done|].
    rewrite filter_cons, decide_True by done. by rewrite IH. }
  assert (filter (fun m => m_mode m = "global") gs = gs) as ->.
  { induction Hgs as [|g gs Hg _ IH]; [done|].
    rewrite filter_cons, decide_True by done. by rewrite IH. }
  assert (filter (fun m => m_mode m = "project") gs = []) as ->.
  { induction Hgs as [|g gs Hg _ IH]; [done|].
    rewrite filter_cons, decide_False; [done|]. by rewrite Hg. }
  assert (filter (fun m => m_mode m = "global") ps = []) as ->.
  { induction Hps as [|p ps Hp _ IH]; [done|].
    rewrite filter_cons, decide_False; [done|]. by rewrite Hp. }
  by rewrite app_nil_r.
Qed.

(** What [print_materials_list] prints for a list that is not empty. *)
Lemma print_materials_list_output (ms : list material) (w : world) :
  ms <> [] ->
  let ps := filter (fun m => m_mode m = "project") ms in
  let gs := filter (fun m => m_mode m = "global") ms in
  print_materials_list ms w
  = (Ok tt,
     set_stdout w
       (stdout w
        ++ [nl +:+ "📂 Source materials:" +:+ nl]
        ++ match ps with
           | [] => []
           | _ :: _ =>
               ["  📍 Project mode (" +:+ str_opt (project_root w)
                +:+ "/.claude/temp-materials/):"]
               ++ numbered_from 1 ps ++ [""]
           end
        ++ match gs with
           | [] => []
           | _ :: _ =>
               ["  🌍 Global mode (~/skill-materials/):"]
               ++ numbered_from (1 + Z.of_nat (length ps)) gs ++ [""]
           end
        ++ ["  Total: " +:+ str_int (Z.of_nat (length ms)) +:+ " projects, "
            +:+ format_size (total_size ps + total_size gs)])).
Proof.
  intros Hne ps gs. unfold print_materials_list.
  destruct ms as [|mat0 rest]; [done|].
  set (ms := mat0 :: rest) in *. fold ps gs.
  rewrite bind_print. set (w1 := set_stdout _ _).
  set (B1 := match ps with [] => [] | _ :: _ => _ end).
  set (B2 := match gs with [] => [] | _ :: _ => _ end).
  assert (match ps with
          | [] => ret (1%Z, 0%Z)
          | _ :: _ =>
              project_root <- find_project_root None;;
              print ("  📍 Project mode (" +:+ str_opt project_root
                     +:+ "/.claude/temp-materials/):");;
              st <- print_group ps 1%Z 0%Z;;
              print "";; ret st
          end w1
          = (Ok ((1 + Z.of_nat (length ps))%Z, total_size ps),
             set_stdout w1 (stdout w1 ++ B1))) as H1.
  { subst B1. destruct ps as [|p ps'].
    - unfold ret. by rewrite set_stdout_nil.
    - rewrite (bind_read _ _ _ _ (cleanup_find_project_root w1)), bind_print.
      unfold bind at 1. rewrite print_group_lines, bind_print.
      unfold ret, set_stdout.
      cbn [fs cwd home script stdin stdout rmtree_log zip_log].
      rewrite <- !app_assoc. reflexivity. }
  unfold bind at 1. rewrite H1. cbn [fst snd].
  set (w2 := set_stdout w1 _).
  assert (match gs with
          | [] => ret ((1 + Z.of_nat (length ps))%Z, total_size ps)
          | _ :: _ =>
              print "  🌍 Global mode (~/skill-materials/):";;
              st <- print_group gs (1 + Z.of_nat (length ps))%Z (total_size ps);;
              print "";; ret st
          end w2
          = (Ok ((1 + Z.of_nat (length ps) + Z.of_nat (length gs))%Z,
                 (total_size ps + total_size gs)%Z),
             set_stdout w2 (stdout w2 ++ B2))) as H2.
  { subst B2. destruct gs as [|g gs'].
    - unfold ret. rewrite set_stdout_nil.
      cbn [length total_size foldr]. do 3 f_equal; lia.
    - rewrite bind_print. unfold bind at 1. rewrite print_group_lines, bind_print.
      unfold ret, set_stdout.
      cbn [fs cwd home script stdin stdout rmtree_log zip_log].
      rewrite <- !app_assoc. reflexivity. }
  unfold bind at 1. rewrite H2. cbn [fst snd].
  unfold print, w2, w1, set_stdout.
  cbn [fs cwd home script stdin stdout rmtree_log zip_log].
  by rewrite <- !app_assoc.
Qed.

(** The numbers of a listing are the numbers of the interactive choice:
    for a list in listing order, [print_materials_list] prints the entries
    in the order of the list, the [j]-th beside the number [j], counted
    from 1 through both groups, and ends with the number of entries and
    the sum of their sizes. *)
Theorem listing_numbers_entries (ms : list material) (w : world) :
  listed_in_order ms -> ms <> [] ->
  exists out,
    print_materials_list ms w = (Ok tt, set_stdout w (stdout w ++ out))
    /\ numbered_from 1 ms `sublist_of` out
    /\ last out
       = Some ("  Total: " +:+ str_int (Z.of_nat (length ms)) +:+ " projects, "
               +:+ format_size (total_size ms)).
Proof.
  intros Hord Hne. apply listed_in_order_groups in Hord.
  rewrite (print_materials_list_output ms w Hne).
  set (ps := filter (fun m => m_mode m = "project") ms) in *.
  set (gs := filter (fun m => m_mode m = "global") ms) in *.
  eexists. split; [reflexivity|]. split.
  - rewrite Hord at 1. rewrite numbered_from_app.
    apply sublist_cons, sublist_app; [|apply sublist_inserts_r].
    + destruct ps; [done|]. apply sublist_cons, sublist_inserts_r. done.
    + destruct gs; [done|]. apply sublist_cons, sublist_inserts_r. done.
  - rewrite !app_assoc, last_snoc. by rewrite <- total_size_app, <- Hord.
Qed.

Lemma listing_numbers_entries_witness :
  let alpha := Material "alpha" ["p"; "alpha"] 2048 "2.0 KB" "project" in
  let beta := Material "beta" ["g"; "beta"] 20 "20.0 B" "global" in
  exists out,
    print_materials_list [alpha; beta] (Scenarios.two_roots [])
    = (Ok tt, set_stdout (Scenarios.two_roots []) out)
    /\ [numbered_line 1 alpha; numbered_line 2 beta] `sublist_of` out.
Proof.
  intros alpha beta.
  destruct (listing_numbers_entries [alpha; beta] (Scenarios.two_roots []))
    as (out & Hrun & Hsub & _).
  - exists [alpha], [beta]. repeat split; repeat constructor.
  - done.
  - exists out. split; [exact Hrun|exact Hsub].
Defined.

(** ** Sizes as they are printed *)

Lemma string_app_assoc (a b c : string) : (a +:+ b) +:+ c = a +:+ b +:+ c.
Proof.
  induction a as [|x a IH]; [done|].
  change (String x ((a +:+ b) +:+ c) = String x (a +:+ b +:+ c)).
  by rewrite IH.
Qed.

(** A whole number is printed with the digit 0 after the point. *)
Lemma fmt_1f_whole (b : Z) : fmt_1f b 1 = str_int b +:+ ".0".
Proof.
  unfold fmt_1f. cbv zeta. rewrite Z.div_1_r, Z.mod_1_r.
  change (2 * 0 <? 1)%Z with true. cbv iota.
  by rewrite (Z.mul_comm 10 b), Z.div_mul, Z.mod_mul by lia.
Qed.

(** [format_size] picks the first unit in which the size is below 1024,
    and [TB] from [1024^4] bytes on; a size below 1024 bytes is printed as
    the number of bytes itself, followed by [.0 B]. *)
Theorem format_size_ranges (b : Z) :
  ((b < 1024)%Z -> format_size b = str_int b +:+ ".0 B")
  /\ ((1024 <= b < 1024 ^ 2)%Z ->
      format_size b = fmt_1f b 1024 +:+ " KB")
  /\ ((1024 ^ 2 <= b < 1024 ^ 3)%Z ->
      format_size b = fmt_1f b (1024 ^ 2) +:+ " MB")
  /\ ((1024 ^ 3 <= b < 1024 ^ 4)%Z ->
      format_size b = fmt_1f b (1024 ^ 3) +:+ " GB")
  /\ ((1024 ^ 4 <= b)%Z ->
      format_size b = fmt_1f b (1024 ^ 4) +:+ " TB").
Proof.
  unfold format_size. cbn [format_size_units].
  change (1 * 1024)%Z with 1024%Z.
  change (1024 * 1024)%Z with (1024 ^ 2)%Z.
  change (1024 ^ 2 * 1024)%Z with (1024 ^ 3)%Z.
  change (1024 ^ 3 * 1024)%Z with (1024 ^ 4)%Z.
  change (1024 * 1)%Z with 1024%Z.
  change (1024 * 1024 ^ 2)%Z with (1024 ^ 3)%Z.
  change (1024 * 1024 ^ 3)%Z with (1024 ^ 4)%Z.
  repeat split; intros H;
    repeat match goal with
           | |- context [(b <? ?c)%Z] =>
               destruct (Z.ltb_spec b c); try lia
           end; try done.
  by rewrite fmt_1f_whole, string_app_assoc.
Qed.

Lemma format_size_ranges_witness :
  format_size 1023 = "1023.0 B"
  /\ format_size 1536 = "1.5 KB"
  /\ format_size (1024 ^ 5) = "1024.0 TB".
Proof.
  destruct (format_size_ranges 1023) as (H1 & _).
  destruct (format_size_ranges 1536) as (_ & H2 & _).
  destruct (format_size_ranges (1024 ^ 5)) as (_ & _ & _ & _ & H5).
  rewrite H1, H2, H5 by lia. by vm_compute.
Defined.

(** ** Packaging: refusals, failures and the archive itself *)

(** [package_skill] gives up before it creates anything when the skill
    directory is missing or is no directory, when it holds no [SKILL.md],
    or when the validator rejects it: it prints why and returns [None];
    no output directory and no archive are created and nothing is written,
    whether an output directory was asked for or not. *)
Theorem package_skill_refuses (validate_skill : node -> path -> bool * string)
    (skill_path : path) (output_dir : option path) (w : world) :
  exists_ (fs w) skill_path = false
  \/ is_dir (fs w) skill_path = false
  \/ exists_ (fs w) (joinpath skill_path "SKILL.md") = false
  \/ fst (validate_skill (fs w) skill_path) = false ->
  exists out,
    Package.package_skill validate_skill skill_path output_dir w
    = (Ok None, set_stdout w (stdout w ++ out)).
Proof.
  intros Hbad. unfold Package.package_skill.
  rewrite bind_path_exists.
  destruct (exists_ (fs w) skill_path); cbn [negb];
    [|rewrite bind_print; by eexists].
  rewrite bind_path_is_dir.
  destruct (is_dir (fs w) skill_path); cbn [negb];
    [|rewrite bind_print; by eexists].
  rewrite bind_path_exists.
  destruct (exists_ (fs w) (joinpath skill_path "SKILL.md")); cbn [negb];
    [|rewrite bind_print; by eexists].
  rewrite bind_print, bind_gets. cbn [fs set_stdout].
  destruct (validate_skill (fs w) skill_path) as [valid message].
  destruct valid; cbn [negb].
  { by destruct Hbad as [?|[?|[?|?]]]. }
  rewrite !bind_print. eexists. unfold ret, set_stdout.
  cbn [fs cwd home script stdin stdout rmtree_log zip_log].
  by rewrite <- !app_assoc.
Qed.

Lemma package_skill_refuses_witness :
  exists out,
    Package.package_skill (fun _ _ => (false, "No YAML frontmatter found"))
      ["work"; "my-skill"] (Some ["work"; "dist"]) Scenarios.skill_world
    = (Ok None, set_stdout Scenarios.skill_world out).
Proof.
  destruct (package_skill_refuses (fun _ _ => (false, "No YAML frontmatter found"))
              ["work"; "my-skill"] (Some ["work"; "dist"]) Scenarios.skill_world)
    as (out & Hrun); [by right; right; right|].
  by exists out.
Defined.

(** Once the checks have passed and the validator has returned its
    approval, [package_skill] ends in one of three ways.  When the output
    directory that was asked for cannot be made, the exception of
    [mkdir], which stands outside the [try], leaves the function: nothing
    more was printed and no archive was opened.  When the archive file
    cannot be created, the exception is caught: one more line reports it,
    the answer is [None], and no file was handed to the archive.  In
    every other case no exception leaves the function. *)
Theorem package_skill_after_validation
    (validate_skill : node -> path -> bool * string)
    (skill_path : path) (output_dir : option path) (w : world)
    (message : string) :
  exists_ (fs w) skill_path = true ->
  is_dir (fs w) skill_path = true ->
  exists_ (fs w) (joinpath skill_path "SKILL.md") = true ->
  validate_skill (fs w) skill_path = (true, message) ->
  let run := Package.package_skill validate_skill skill_path output_dir w in
  let w1 := set_stdout w (stdout w ++ ["🔍 Validating skill...";
                                        "✅ " +:+ message +:+ nl]) in
  let output_path := match output_dir with Some o => o | None => skill_path end in
  let made := match output_dir with
              | Some o => mkdir_p (fs w) o
              | None => (fs w, None)
              end in
  let zip_filename := joinpath output_path (name skill_path +:+ ".zip") in
  let opened := open_w MAXSYMLINKS (fst made) zip_filename in
  match snd made with
  | Some e => run = (Raise e, set_fs w1 (fst made))
  | None =>
      match snd opened with
      | Some _ =>
          exists detail,
            run = (Ok None,
                   set_stdout (set_fs w1 (fst opened))
                     (stdout w1 ++ ["❌ Error creating zip file: " +:+ detail]))
      | None => exists r w', run = (Ok r, w')
      end
  end.
Proof.
  intros He Hd Hmd Hv run w1 output_path made zip_filename opened.
  assert (forall t, exists r w',
            try_except
              (zip_open zip_filename;;
               files <- gets (fun w0 => rglob (fs w0) skill_path);;
               Package.add_files skill_path files;;
               print (nl +:+ "✅ Successfully packaged skill to: "
                      +:+ str zip_filename);;
               ret (Some zip_filename))
              (fun e => Some (print ("❌ Error creating zip file: "
                                     +:+ str_exn e);;
                              ret None)) (set_fs w1 t)
            = (Ok r, w')
            /\ forall e, snd (open_w MAXSYMLINKS t zip_filename) = Some e ->
                r = None
                /\ w' = set_stdout
                          (set_fs w1 (fst (open_w MAXSYMLINKS t zip_filename)))
                          (stdout w1 ++ ["❌ Error creating zip file: "
                                         +:+ str_exn e])) as Hblock.
  { intros t. unfold try_except, bind at 1, zip_open. cbn [fs set_fs].
    destruct (open_w MAXSYMLINKS t zip_filename) as [t' [e|]]; cbn [fst snd].
    - rewrite bind_print. eexists _, _. split; [reflexivity|].
      intros e' [= <-]. split; [done|]. unfold set_stdout, set_fs.
      by cbn [fs cwd home script stdin stdout rmtree_log zip_log].
    - rewrite bind_gets. unfold bind at 1. rewrite add_files_runs.
      rewrite bind_print. eexists _, _. split; [reflexivity|done]. }
  pose proof (eq_refl run) as Hrun. unfold run at 2 in Hrun. clearbody run.
  unfold Package.package_skill in Hrun.
  rewrite bind_path_exists, He in Hrun. cbn [negb] in Hrun.
  rewrite bind_path_is_dir, Hd in Hrun. cbn [negb] in Hrun.
  rewrite bind_path_exists, Hmd in Hrun. cbn [negb] in Hrun.
  rewrite bind_print, bind_gets in Hrun. cbn [fs set_stdout] in Hrun.
  rewrite Hv in Hrun. cbn [negb] in Hrun. rewrite bind_print in Hrun.
  match type of Hrun with context [bind _ _ ?w2] =>
    replace w2 with w1 in Hrun
      by (unfold w1, set_stdout;
          cbn [fs cwd home script stdin stdout rmtree_log zip_log];
          by rewrite <- app_assoc)
  end.
  subst opened zip_filename made output_path.
  destruct output_dir as [o|].
  - rewrite bind_assoc in Hrun. unfold bind at 1, mkdir_parents in Hrun.
    change (fs w1) with (fs w) in Hrun.
    destruct (mkdir_p (fs w) o) as [t [e|]]; cbn [fst snd]; [done|].
    rewrite bind_ret in Hrun.
    destruct (Hblock t) as (r & w' & Hb & Hfail). rewrite Hb in Hrun.
    destruct (snd (open_w MAXSYMLINKS t _)) as [e|] eqn:Eo.
    + destruct (Hfail e eq_refl) as [-> ->]. by exists (str_exn e).
    + by exists r, w'.
  - rewrite bind_ret in Hrun. cbn [fst snd].
    replace w1 with (set_fs w1 (fs w)) in Hrun at 1 by (by destruct w).
    destruct (Hblock (fs w)) as (r & w' & Hb & Hfail). rewrite Hb in Hrun.
    destruct (snd (open_w MAXSYMLINKS (fs w) _)) as [e|] eqn:Eo.
    + destruct (Hfail e eq_refl) as [-> ->]. by exists (str_exn e).
    + by exists r, w'.
Qed.

(** A skill directory that cannot be written to, packaged in place: the
    archive cannot be created beside [SKILL.md], and the answer is
    [None]. *)
Lemma package_skill_after_validation_witness :
  let tree :=
    Dir rw [("work", Dir rw [
      ("my-skill", Dir (Mode true false) [("SKILL.md", File 100)])])] in
  let w := World tree ["work"] ["home"; "u"]
             ["opt"; "skill-forge"; "scripts"; "package_skill.py"]
             [] [] [] [] in
  exists detail,
    Package.package_skill Scenarios.accept_all ["work"; "my-skill"] None w
    = (Ok None,
       set_stdout w
         ["🔍 Validating skill..."; "✅ Skill is valid!" +:+ nl;
          "❌ Error creating zip file: " +:+ detail]).
Proof.
  intros tree w.
  pose proof (package_skill_after_validation Scenarios.accept_all
                ["work"; "my-skill"] None w "Skill is valid!"
                eq_refl eq_refl eq_refl eq_refl) as H.
  cbv zeta in H.
  lazymatch type of H with
  | match ?s with _ => _ end =>
      let v := eval vm_compute in s in change s with v in H
  end.
  cbv beta iota in H. destruct H as [detail H]. exists detail.
  rewrite H. reflexivity.
Defined.

(** *** The archive among the files it is made from *)

Lemma rev_app_append (a c : string) :
  String.rev_app a c = String.rev_app a "" +:+ c.
Proof.
  revert c. induction a as [|x a IH]; intros c; [done|].
  cbn [String.rev_app]. rewrite IH, (IH (String x "")).
  by rewrite string_app_assoc.
Qed.

Lemma string_rev_append (a b : string) :
  String.rev (a +:+ b) = String.rev b +:+ String.rev a.
Proof.
  unfold String.rev. generalize "" at 1 3 as c.
  induction a as [|x a IH]; intros c.
  - change ("" +:+ b) with b. apply rev_app_append.
  - change (String x a +:+ b) with (String x (a +:+ b)).
    cbn [String.rev_app]. apply IH.
Qed.

(** The name of the archive is not one that the packaging filter lets
    through, and is no Python cache artifact either. *)
Lemma zip_name_tests (n : string) :
  n +:+ ".zip" <> "SKILL.md"
  /\ ((n +:+ ".zip") ∉ Package.allowed_paths)
  /\ endswith (n +:+ ".zip") ".pyc" = false
  /\ n +:+ ".zip" <> "__pycache__".
Proof.
  assert (forall t, n +:+ ".zip" = t ->
                    String.prefix "piz." (String.rev t) = true) as Hrev.
  { intros t <-. rewrite string_rev_append.
    change (String.rev ".zip") with "piz.".
    change ("piz." +:+ String.rev n)
      with (String "p" (String "i" (String "z" (String "." (String.rev n))))).
    cbn. by destruct (String.rev n). }
  split; [|split; [|split]].
  - by intros ?%Hrev.
  - unfold Package.allowed_paths. rewrite !elem_of_cons.
    intros [?%Hrev|[?%Hrev|[?%Hrev|?%elem_of_nil]]]; done.
  - unfold endswith. rewrite string_rev_append.
    change (String.rev ".zip") with "piz.". done.
  - by intros ?%Hrev.
Qed.

(** With the default output location the archive is created inside the
    skill directory before the walk over that directory starts; the walk
    may meet it, and the filter keeps it out: the archive is never a
    member of itself. *)
Theorem default_archive_skips_itself
    (validate_skill : node -> path -> bool * string)
    (skill_path : path) (w w' : world) (zip : path) :
  skill_path <> [] ->
  Package.package_skill validate_skill skill_path None w = (Ok (Some zip), w') ->
  zip = joinpath skill_path (name skill_path +:+ ".zip")
  /\ forall arcname, (zip, arcname) ∈ zip_log w' -> (zip, arcname) ∈ zip_log w.
Proof.
  intros Hne (_ & _ & _ & -> & Hlog & _)%package_skill_success.
  split; [done|]. intros arcname. rewrite Hlog, elem_of_app.
  intros [H|H]; [done|]. exfalso.
  apply members_elem in H as (_ & Hinc & _). cbn [default] in Hinc.
  unfold joinpath in Hinc.
  destruct (arcname_rooted skill_path [name skill_path +:+ ".zip"] Hne)
    as (_ & Hrel & Hname).
  rewrite Hrel, Hname in Hinc by done.
  destruct (zip_name_tests (name skill_path)) as (Hmd & Hallowed & _).
  unfold Package.should_include in Hinc. unfold name at 1 in Hinc.
  cbn [last List.last length Nat.eqb Nat.ltb Nat.leb andb] in Hinc.
  destruct (String.eqb_spec (name skill_path +:+ ".zip") "SKILL.md") as [?|_];
    [done|].
  cbn [andb] in Hinc. by rewrite bool_decide_false in Hinc.
Qed.

Lemma default_archive_skips_itself_witness :
  let skill := ["work"; "my-skill"] in
  let zip := ["work"; "my-skill"; "my-skill.zip"] in
  exists w',
    Package.package_skill Scenarios.accept_all skill None Scenarios.skill_world
    = (Ok (Some zip), w')
    /\ zip ∈ walked_files (fs w') skill
    /\ forall arcname, (zip, arcname) ∉ zip_log w'.
Proof.
  intros skill zip.
  destruct (Package.package_skill Scenarios.accept_all skill None
              Scenarios.skill_world) as [r w'] eqn:E.
  assert (r = Ok (Some zip)) as ->.
  { apply (f_equal fst) in E. vm_compute in E. by symmetry. }
  assert (skill <> []) as Hne by done.
  destruct (default_archive_skips_itself Scenarios.accept_all skill
              Scenarios.skill_world w' zip Hne E) as (_ & Hout).
  exists w'. split; [reflexivity|]. split.
  - apply (f_equal snd) in E. vm_compute in E. subst w'.
    vm_compute. repeat constructor.
  - intros arcname Hin. by apply Hout, elem_of_nil in Hin.
Defined.

(** An output directory below one of the allowed directories of the skill
    puts the archive where the filter lets files through: when the walk
    meets the archive, the archive is written into itself. *)
Theorem archive_below_allowed_dir_holds_itself
    (validate_skill : node -> path -> bool * string)
    (skill_path : path) (top : string) (rest : list string)
    (w w' : world) (zip : path) :
  skill_path <> [] ->
  top ∈ Package.allowed_paths -> "__pycache__" ∉ top :: rest ->
  Package.package_skill validate_skill skill_path
    (Some (skill_path ++ top :: rest)) w = (Ok (Some zip), w') ->
  zip ∈ walked_files (fs w') skill_path ->
  zip = skill_path ++ top :: rest ++ [name skill_path +:+ ".zip"]
  /\ (zip, name skill_path :: top :: rest ++ [name skill_path +:+ ".zip"])
     ∈ zip_log w'.
Proof.
  intros Hne Htop Hcache (_ & _ & _ & -> & Hlog & _)%package_skill_success Hwalk.
  cbn [default from_option id] in *. unfold joinpath in *.
  set (zn := name skill_path +:+ ".zip") in *.
  set (rel := top :: rest ++ [zn]) in *.
  replace ((skill_path ++ top :: rest) ++ [zn]) with (skill_path ++ rel) in *
    by (subst rel; by rewrite <- app_assoc).
  split; [done|].
  assert (rel <> []) as Hrel by done.
  destruct (arcname_rooted skill_path rel Hne) as (Harc & Hbelow & Hname).
  rewrite Hlog, elem_of_app. right. apply members_elem.
  split; [done|]. split; [|by rewrite Harc].
  rewrite Hbelow, Hname by done.
  apply should_include_packable; [done|].
  destruct (zip_name_tests (name skill_path)) as (_ & _ & Hpyc & Hzn).
  right. exists top, (rest ++ [zn]). split; [done|]. split; [done|]. split.
  - subst rel. rewrite app_comm_cons, elem_of_app, list_elem_of_singleton.
    intros [?|?]; [done|]. by apply Hzn.
  - subst rel. rewrite app_comm_cons. unfold name. by rewrite last_last.
Qed.

Lemma archive_below_allowed_dir_holds_itself_witness :
  let skill := ["work"; "my-skill"] in
  let zip := ["work"; "my-skill"; "assets"; "my-skill.zip"] in
  exists w',
    Package.package_skill Scenarios.accept_all skill
      (Some ["work"; "my-skill"; "assets"]) Scenarios.skill_world
    = (Ok (Some zip), w')
    /\ (zip, ["my-skill"; "assets"; "my-skill.zip"]) ∈ zip_log w'.
Proof.
  intros skill zip.
  destruct (Package.package_skill Scenarios.accept_all skill
              (Some ["work"; "my-skill"; "assets"]) Scenarios.skill_world)
    as [r w'] eqn:E.
  assert (r = Ok (Some zip)) as ->.
  { apply (f_equal fst) in E. vm_compute in E. by symmetry. }
  exists w'. split; [reflexivity|].
  apply (archive_below_allowed_dir_holds_itself Scenarios.accept_all skill
           "assets" [] Scenarios.skill_world w' zip); [done| | |exact E|].
  - unfold Package.allowed_paths. by do 2 right; left.
  - by intros [=]%list_elem_of_singleton.
  - apply (f_equal snd) in E. vm_compute in E. subst w'.
    vm_compute. repeat constructor.
Defined.

(** ** [scripts/split_docs.py]: which lines go where *)

(** *** Which lines go where *)

Lemma match_section_name (secs : list (string * list string)) (url name : string) :
  match_section secs url = Some name -> name ∈ secs.*1.
Proof.
  induction secs as [|[n ps] secs IH]; simpl; [done|].
  destruct (existsb _ ps).
  - intros [= ->]. by left.
  - intros H. right. by apply IH.
Qed.

Lemma assign_lines_names (lines : list string) : forall current,
  (forall name, current = Some name -> name ∈ sections.*1) ->
  Forall (fun o => forall name, o = Some name -> name ∈ sections.*1)
    (assign_lines lines current).
Proof.
  induction lines as [|line lines IH]; intros current Hc; [constructor|].
  cbn [assign_lines].
  destruct (startswith line "Source: https://docs.crewai.com/").
  - assert (forall name, match_section sections (strip line) = Some name ->
                         name ∈ sections.*1) as H
      by (intros name; apply match_section_name).
    constructor; [done|by apply IH].
  - constructor; [done|by apply IH].
Qed.

Lemma assign_lines_length (lines : list string) : forall current,
  length (assign_lines lines current) = length lines.
Proof.
  induction lines as [|line lines IH]; intros current; [done|].
  cbn [assign_lines length]. by rewrite IH.
Qed.

(** How often the section of a line is among [ns]. *)
Lemma count_once (ns : list string) (o : option string) :
  NoDup ns -> (forall x, o = Some x -> x ∈ ns) ->
  sum_list (map (fun n => if decide (o = Some n) then 1 else 0) ns)
  = if decide (is_Some o) then 1 else 0.
Proof.
  intros Hns Ho. destruct o as [x|].
  - rewrite decide_True by done. specialize (Ho x eq_refl).
    induction Hns as [|n ns Hn Hns IH]; [by apply elem_of_nil in Ho|].
    cbn [map sum_list]. apply elem_of_cons in Ho as [->|Hx].
    + rewrite decide_True by done.
      assert (sum_list (map (fun n0 => if decide (Some n = Some n0) then 1 else 0) ns)
              = 0) as ->; [|done].
      clear IH Hns. induction ns as [|m ns IH]; [done|].
      cbn [map sum_list]. rewrite decide_False.
      * apply IH. intros H. apply Hn. by right.
      * intros [= ->]. apply Hn. by left.
    + rewrite decide_False; [by apply IH|].
      intros [= ->]. done.
  - rewrite decide_False by (by intros [? [=]]).
    clear. induction ns as [|n ns IH]; [done|]. cbn [map sum_list].
    by rewrite IH.
Qed.

Lemma sum_list_plus {A} (f g : A -> nat) (l : list A) :
  sum_list (map (fun x => f x + g x) l) = sum_list (map f l) + sum_list (map g l).
Proof. induction l as [|x l IH]; simpl; [done|]. rewrite IH. lia. Qed.

Lemma sections_count (ns : list string) (pairs : list (string * option string)) :
  NoDup ns ->
  Forall (fun p => forall name, snd p = Some name -> name ∈ ns) pairs ->
  sum_list (map (fun n => length (filter (fun p => snd p = Some n) pairs)) ns)
  = length (filter (fun p => is_Some (snd p)) pairs).
Proof.
  intros Hns. induction 1 as [|[line o] pairs Hp Hpairs IH].
  - simpl. induction ns as [|n ns IHn]; [done|].
    cbn [map sum_list]. rewrite IHn; [done|]. by apply NoDup_cons in Hns as [_ ?].
  - rewrite (filter_cons (fun p => is_Some (snd p))).
    erewrite map_ext; last first.
    { intros n. rewrite filter_cons. cbn [snd].
      instantiate (1 := fun n => (if decide (o = Some n) then 1 else 0)
                                 + length (filter (fun p => snd p = Some n) pairs)).
      cbn beta. by destruct (decide (o = Some n)). }
    rewrite sum_list_plus, IH. cbn [snd] in *.
    rewrite count_once by done. by destruct (decide (is_Some o)).
Qed.

Lemma sections_distinct : NoDup sections.*1.
Proof. apply (bool_decide_unpack _). by vm_compute. Qed.

(** Every line goes into one file at most, and into one exactly when the
    loop over the lines gave it a section: the lines of each file are
    lines of the input in the order of the input, and the files together
    hold as many lines as have an entry in [line_sections].  A file is
    written for a section only when it was given a line. *)
Theorem split_files_partition_lines (lines : list string) :
  (forall section_name, section_lines lines section_name `sublist_of` lines)
  /\ sum_list (map (fun sec => length (section_lines lines (fst sec))) sections)
     = length (filter (fun o : option string => is_Some o) (line_sections lines))
  /\ (forall file ls,
        (file, ls) ∈ split_documentation lines ->
        file ∈ sections.*1 /\ ls = section_lines lines file /\ ls <> []).
Proof.
  split; [|split].
  - intros section_name. unfold section_lines.
    etrans; [apply fmap_sublist, sublist_filter|].
    rewrite fst_zip; [done|]. unfold line_sections.
    by rewrite assign_lines_length.
  - unfold section_lines.
    pose proof (sections_count sections.*1
                  (zip lines (line_sections lines)) sections_distinct) as H.
    rewrite map_map in H.
    erewrite map_ext; [|intros sec; by rewrite length_fmap].
    rewrite H.
    + clear H. unfold line_sections. generalize (@None string) as c.
      induction lines as [|line lines IH]; intros c; [done|].
      cbn [assign_lines zip zip_with]. rewrite !filter_cons. cbn [snd].
      destruct (decide (is_Some _)); cbn [length]; by rewrite IH.
    + pose proof (assign_lines_names lines None) as Hn.
      unfold line_sections.
      assert (forall (ls : list string) (os : list (option string)),
        Forall (fun o => forall name, o = Some name -> name ∈ sections.*1) os ->
        Forall (fun p : string * option string =>
                  forall name, snd p = Some name -> name ∈ sections.*1)
          (zip ls os)) as Hzip.
      { intros ls os Hos. revert ls.
        induction Hos as [|o os Ho Hos IHos]; intros [|l ls]; simpl;
          constructor; auto. }
      apply Hzip, Hn. done.
  - intros file ls. unfold split_documentation.
    rewrite list_elem_of_omap. intros ([name ps] & Hin & Hsome).
    cbn [fst] in Hsome.
    destruct (section_lines lines name) as [|l0 ls0] eqn:E; [done|].
    injection Hsome as <- <-. split; [|by rewrite E].
    by apply (list_elem_of_fmap_2 fst _ (name, ps)).
Qed.

(** *** A [Source:] line and the lines below it *)

Lemma assign_lines_block (body post : list string) (current : option string) :
  Forall (fun l => startswith l "Source: https://docs.crewai.com/" = false) body ->
  assign_lines (body ++ post) current
  = replicate (length body) current ++ assign_lines post current.
Proof.
  induction 1 as [|l body Hl Hbody IH]; [done|].
  cbn [app assign_lines length replicate]. rewrite Hl. by rewrite IH.
Qed.

Lemma assign_lines_app (pre rest : list string) : forall current,
  exists current',
    assign_lines (pre ++ rest) current
    = assign_lines pre current ++ assign_lines rest current'.
Proof.
  induction pre as [|l pre IH]; intros current; [by exists current|].
  cbn [app assign_lines].
  destruct (startswith l "Source: https://docs.crewai.com/").
  - destruct (IH (match_section sections (strip l))) as [c' ->]. by exists c'.
  - destruct (IH current) as [c' ->]. by exists c'.
Qed.

(** The lines above the first [Source:] line go into no file.  A
    [Source:] line decides for itself and for the lines below it, down to
    the next [Source:] line: they all go where its address goes, or
    nowhere when no pattern occurs in the address, whatever came before.  *)
Theorem lines_follow_their_header (pre body post : list string) (line : string) :
  Forall (fun l => startswith l "Source: https://docs.crewai.com/" = false) body ->
  line_sections (body ++ post)
  = replicate (length body) None ++ line_sections post
  /\ (startswith line "Source: https://docs.crewai.com/" = true ->
      exists after,
        line_sections (pre ++ line :: body ++ post)
        = line_sections pre
          ++ replicate (S (length body)) (match_section sections (strip line))
          ++ after
        /\ length after = length post).
Proof.
  intros Hbody. split; [by apply assign_lines_block|].
  intros Hline. unfold line_sections.
  destruct (assign_lines_app pre (line :: body ++ post) None) as [c ->].
  cbn [assign_lines]. rewrite Hline, assign_lines_block by done.
  eexists. split; [reflexivity|]. apply assign_lines_length.
Qed.

Lemma lines_follow_their_header_witness :
  exists after,
    line_sections
      (["# CrewAI"; ""]
       ++ "Source: https://docs.crewai.com/en/concepts/agents"
          :: ["Agents are ..."]
          ++ ["Source: https://docs.crewai.com/en/changelog"; "v1"])
    = [None; None]
      ++ replicate 2 (Some "core-concepts.md")
      ++ after
    /\ length after = 2.
Proof.
  apply (proj2 (lines_follow_their_header ["# CrewAI"; ""] ["Agents are ..."]
                  ["Source: https://docs.crewai.com/en/changelog"; "v1"]
                  "Source: https://docs.crewai.com/en/concepts/agents"
                  ltac:(by repeat constructor))).
  reflexivity.
Defined.

(** *** The pattern that ends in a dollar sign *)

Lemma prefix_append (p b : string) : String.prefix p (p +:+ b) = true.
Proof.
  induction p as [|a p IH]; [by destruct b|].
  change (String a p +:+ b) with (String a (p +:+ b)). cbn [String.prefix].
  by destruct (ascii_dec a a).
Qed.

Lemma prefix_split (p s : string) :
  String.prefix p s = true -> exists b, s = p +:+ b.
Proof.
  revert s. induction p as [|a p IH]; intros s.
  - intros _. by exists s.
  - destruct s as [|c s]; [done|]. cbn [String.prefix].
    destruct (ascii_dec a c) as [->|]; [|done].
    intros [b ->]%IH. by exists b.
Qed.

Lemma contains_prefix (p s : string) :
  String.prefix p s = true -> contains p s = true.
Proof. intros H. destruct s; cbn [contains]; by rewrite H. Qed.

Lemma contains_intro (a q b : string) : contains q (a +:+ q +:+ b) = true.
Proof.
  induction a as [|c a IH].
  - change (contains q (q +:+ b) = true).
    apply contains_prefix, prefix_append.
  - change (String c a +:+ q +:+ b) with (String c (a +:+ q +:+ b)).
    cbn [contains]. rewrite IH. apply orb_true_r.
Qed.

(** A text in which a pattern occurs holds every end of the pattern. *)
Lemma contains_end (p q s : string) :
  contains (p +:+ q) s = true -> contains q s = true.
Proof.
  assert (forall s, String.prefix (p +:+ q) s = true -> contains q s = true)
    as Hpre.
  { intros s0 [b ->]%prefix_split. rewrite string_app_assoc.
    apply contains_intro. }
  induction s as [|c s IH]; intros H; cbn [contains] in H.
  - apply Hpre. by rewrite orb_false_r in H.
  - apply orb_true_iff in H as [H|H]; [by apply Hpre|].
    cbn [contains]. rewrite (IH H). apply orb_true_r.
Qed.

(** The pattern [concepts/tools$] is looked for as it is written, dollar
    sign included: it occurs in no address without a dollar sign, so such
    an address goes to [core-concepts.md] only through one of the other
    three patterns of that section. *)
Theorem dollar_pattern_is_literal (url : string) :
  contains "$" url = false ->
  contains "concepts/tools$" url = false
  /\ (match_section sections url = Some "core-concepts.md" ->
      contains "concepts/agents" url || contains "concepts/tasks" url
      || contains "concepts/crews" url = true).
Proof.
  intros Hd.
  assert (contains "concepts/tools$" url = false) as Ht.
  { destruct (contains "concepts/tools$" url) eqn:E; [|done].
    apply (contains_end "concepts/tools" "$") in E. congruence. }
  split; [done|].
  unfold sections. cbn [match_section existsb]. rewrite Ht.
  rewrite !orb_false_r.
  repeat match goal with
         | |- context [if ?b then Some _ else _] =>
             lazymatch b with
             | context [contains "concepts/agents"] => fail
             | _ => destruct b
             end
         end; try discriminate.
  all: rewrite <- orb_assoc; by destruct (contains "concepts/agents" url || _).
Qed.

Lemma dollar_pattern_is_literal_witness :
  contains "concepts/tools$" "Source: https://docs.crewai.com/en/concepts/tools"
  = false
  /\ match_section sections "Source: https://docs.crewai.com/en/concepts/tools"
     = None.
Proof.
  split.
  - apply (dollar_pattern_is_literal
             "Source: https://docs.crewai.com/en/concepts/tools" eq_refl).
  - by vm_compute.
Defined.

(** ** [scripts/detect_llms_txt.py]: the first variant found *)

Lemma all_variants_acc (head : string -> response) (root_url : string)
    (variants : list (string * string)) : forall acc,
  all_variants head root_url variants acc
  = acc ++ all_variants head root_url variants [].
Proof.
  induction variants as [|[f v] variants IH]; intros acc; simpl.
  - by rewrite app_nil_r.
  - rewrite IH. destruct (_check_url_exists head _).
    + rewrite (IH [_]). by rewrite <- app_assoc.
    + done.
Qed.

Lemma first_variant_head (head : string -> response) (root_url : string)
    (variants : list (string * string)) :
  first_variant head root_url variants
  = List.head (all_variants head root_url variants []).
Proof.
  induction variants as [|[f v] variants IH]; simpl; [done|].
  rewrite all_variants_acc. by destruct (_check_url_exists head _).
Qed.

(** The detector answers with the first of the variants that the
    all-variants detector finds, and with [None] exactly when that one
    finds none; what is found lies at the root of the site, whatever path
    the address given has, and the full variant is preferred to the
    standard one and that to the small one. *)
Theorem detect_is_first_of_all (urlparse : string -> parsed)
    (head : string -> response) (base_url : string) :
  let root := scheme (urlparse base_url) +:+ "://" +:+ netloc (urlparse base_url) in
  detect_llms_txt urlparse head base_url
  = List.head (detect_all_variants urlparse head base_url)
  /\ detect_all_variants urlparse head base_url
     = filter (fun f => _check_url_exists head (url f) = true)
         [Found (root +:+ "/llms-full.txt") "full" "llms-full.txt";
          Found (root +:+ "/llms.txt") "standard" "llms.txt";
          Found (root +:+ "/llms-small.txt") "small" "llms-small.txt"].
Proof.
  intros root. split; [apply first_variant_head|].
  unfold detect_all_variants, LLMS_TXT_VARIANTS. fold root.
  cbn [all_variants]. rewrite !filter_cons, filter_nil. cbn [url].
  change (root +:+ "/" +:+ "llms-full.txt") with (root +:+ "/llms-full.txt").
  change (root +:+ "/" +:+ "llms.txt") with (root +:+ "/llms.txt").
  change (root +:+ "/" +:+ "llms-small.txt") with (root +:+ "/llms-small.txt").
  by repeat match goal with
            | |- context [_check_url_exists head ?u] =>
                destruct (_check_url_exists head u)
            end.
Qed.

(** ** Where new material goes, and the delete-all operation on concrete trees *)

Lemma find_agree {A} (f g : A -> bool) (l : list A) :
  Forall (fun x => f x = g x) l -> find f l = find g l.
Proof.
  induction 1 as [|x l Hx Hl IH]; [done|]. cbn [find]. by rewrite Hx, IH.
Qed.

(** Where new material goes: [get_smart_materials_dir] answers with the
    materials directory of the project boundary that the search of
    [fetch_source.py] finds, in project mode, and with the one in the home
    directory otherwise, in global mode, whether or not the directory
    exists and whatever the name of the project; it creates nothing.  In
    project mode the boundary is never the tool's own directory, when that
    is recognised.  Unless the search started inside the recognised tool
    directory, the answer is the place where [cleanup_materials.py] looks
    when no root exists. *)
Theorem smart_materials_dir_is_default_target (project_name : string)
    (w : world) :
  Fetch.get_smart_materials_dir project_name w
  = (Ok (match fetch_project_root w with
         | Some root => (project_materials root, true)
         | None => (global_materials w, false)
         end), w)
  /\ (is_tool_dir w = true -> fetch_project_root w <> Some (tool_dir w))
  /\ (is_tool_dir w = false \/ tool_dir w ∉ ancestors (cwd w) ->
      fetch_project_root w = project_root w
      /\ exists project_mode,
           fst (Fetch.get_smart_materials_dir project_name w)
           = Ok (default_target w, project_mode)).
Proof.
  assert (Fetch.get_smart_materials_dir project_name w
          = (Ok (match fetch_project_root w with
                 | Some root => (project_materials root, true)
                 | None => (global_materials w, false)
                 end), w)) as Hrun.
  { unfold Fetch.get_smart_materials_dir.
    rewrite (bind_read _ _ _ _ (fetch_find_project_root w)).
    destruct (fetch_project_root w); [done|]. by rewrite bind_gets. }
  split; [exact Hrun|]. split.
  - intros Htool Hr.
    apply (fetch_search_skips_tool_dir w None _ w Htool
             (fetch_find_project_root w)).
    by rewrite Hr.
  - intros Hout.
    assert (fetch_project_root w = project_root w) as Hsame.
    { unfold fetch_project_root, project_root. apply find_agree.
      apply Forall_forall. intros d Hd. unfold fetch_boundary.
      destruct Hout as [->|Hout]; [by rewrite andb_true_r|].
      rewrite bool_decide_false; [by rewrite andb_false_r, andb_true_r|].
      by intros ->. }
    split; [done|]. rewrite Hrun. cbn [fst]. rewrite Hsame.
    unfold default_target. destruct (project_root w); by eexists.
Qed.

Lemma cleanup_all_cancelled_witness :
  let alpha := Material "alpha" ["home"; "u"; "skill-materials"; "alpha"]
                 10 "10.0 B" "global" in
  exists w',
    cleanup_all false (Scenarios.one_entry ["delete all"]) = (Ok tt, w')
    /\ fs w' = Scenarios.one_entry_tree /\ rmtree_log w' = []
    /\ fst (list_materials w') = Ok [alpha].
Proof.
  intros alpha.
  destruct (cleanup_all_cancelled (Scenarios.one_entry ["delete all"]) [alpha]
              "delete all" [])
    as (w' & Hrun & Hfs & Hlog & _ & Hlist);
    [vm_compute; reflexivity|done|reflexivity|by vm_compute|].
  exists w'. repeat split; assumption.
Defined.

(** Two entries in the Global root, the second holding a directory out
    of which nothing can be taken: after the phrase both are tried, the
    first is gone, the second is still there, and one of two is
    reported. *)
Lemma cleanup_all_confirmed_witness :
  let root := ["home"; "u"; "skill-materials"] in
  let tree :=
    Scenarios.dir [("home", Scenarios.dir [("u", Scenarios.dir [
      ("skill-materials", Scenarios.dir [
         ("alpha", Scenarios.dir [("f", File 10)]);
         ("locked", Scenarios.dir [
            ("sub", Dir (Mode true false) [("k", File 1)])])])])])] in
  let w := World tree ["home"; "u"] ["home"; "u"]
             ["opt"; "skill-forge"; "scripts"; "cleanup_materials.py"]
             [" DELETE ALL "] [] [] [] in
  let alpha := Material "alpha" (root ++ ["alpha"]) 10 "10.0 B" "global" in
  let locked := Material "locked" (root ++ ["locked"]) 1 "1.0 B" "global" in
  exists w',
    cleanup_all false w = (Ok tt, w')
    /\ rmtree_log w' = [m_path alpha; m_path locked]
    /\ lstat (fs w') (m_path alpha) = None
    /\ lstat (fs w') (m_path locked) <> None
    /\ length (stdin w') = 0
    /\ last (stdout w') = Some (nl +:+ "✅ Deleted 1/2 materials").
Proof.
  intros root tree w alpha locked.
  destruct (cleanup_all_confirmed w false [alpha; locked])
    as (w' & Hrun & Hreach & Hin & Hlast);
    [vm_compute; reflexivity|done
    |right; exists " DELETE ALL ", []; split; [reflexivity|by vm_compute]|].
  destruct Hreach as [_ _ _ _ Hlog Hfs _ _].
  exists w'. split; [exact Hrun|]. split; [exact Hlog|].
  rewrite Hfs.
  split; [vm_compute; reflexivity|]. split; [by vm_compute|].
  split; [exact Hin|]. rewrite Hlast. vm_compute. reflexivity.
Defined.

(** ** From fetching to listing *)

Lemma same_kind_refl (k : node) : same_kind k k.
Proof. by destruct k. Qed.

Lemma assoc_app_l {A} c (l l' : list (string * A)) v :
  assoc c l = Some v -> assoc c (l ++ l') = Some v.
Proof.
  induction l as [|[c0 v0] l IH]; simpl; [done|].
  by destruct (String.eqb c0 c).
Qed.

Lemma assoc_snoc_ne {A} c c' (l : list (string * A)) v :
  c <> c' -> assoc c' (l ++ [(c, v)]) = assoc c' l.
Proof.
  intros Hne. induction l as [|[c0 v0] l IH]; simpl.
  - by destruct (String.eqb_spec c c').
  - by destruct (String.eqb c0 c').
Qed.

(** [mkdir] with parents takes nothing away. *)
Lemma mkdir_p_grows (p : path) : forall n, grows n (fst (mkdir_p n p)).
Proof.
  induction p as [|c rest IH]; intros n q k Hq.
  - exists k. split; [|apply same_kind_refl].
    simpl. by destruct n.
  - destruct n as [s|t|m kids]; try (exists k; split; [done|apply same_kind_refl]).
    cbn [mkdir_p].
    destruct (assoc c kids) as [k0|] eqn:Ec.
    + specialize (IH k0). destruct (mkdir_p k0 rest) as [k0' e]. cbn [fst] in *.
      destruct q as [|c' q'].
      * injection Hq as <-. by eexists.
      * cbn [lstat] in *. destruct (decide (c = c')) as [<-|Hne].
        -- rewrite Ec in Hq. rewrite (assoc_set_entry_eq _ _ _ _ Ec).
           by apply IH.
        -- rewrite assoc_set_entry_ne by done.
           exists k. split; [done|apply same_kind_refl].
    + destruct (can_write m);
        [|exists k; split; [done|apply same_kind_refl]].
      destruct (mkdir_p (Dir rw []) rest) as [k' e]. cbn [fst].
      destruct q as [|c' q'].
      * injection Hq as <-. by eexists.
      * cbn [lstat] in *.
        destruct (assoc c' kids) as [kk|] eqn:Ec'; [|done].
        rewrite (assoc_app_l _ _ _ _ Ec').
        exists k. split; [done|apply same_kind_refl].
Qed.

Lemma follow_grows (t t' : node) :
  grows t t' ->
  forall fuel k k' r,
    same_kind k k' -> follow fuel t k = Some r ->
    exists r', follow fuel t' k' = Some r' /\ same_kind r r'.
Proof.
  intros Hg. induction fuel as [|fuel IH]; intros k k' r Hk Hf.
  - destruct k as [s|l|m kids], k' as [s'|l'|m' kids']; try done;
      simpl in *; injection Hf as <-; by eexists.
  - destruct k as [s|l|m kids], k' as [s'|l'|m' kids']; try done;
      simpl in *; try (injection Hf as <-; by eexists).
    subst l'. destruct (lstat t l) as [n1|] eqn:E; [|done].
    destruct (Hg _ _ E) as (n1' & -> & Hn1). by eapply IH.
Qed.

Lemma stat_grows (t t' : node) (q : path) (r : node) :
  grows t t' -> stat t q = Some r ->
  exists r', stat t' q = Some r' /\ same_kind r r'.
Proof.
  intros Hg. unfold stat. destruct (lstat t q) as [k|] eqn:E; [|done].
  destruct (Hg _ _ E) as (k' & -> & Hk). by apply follow_grows.
Qed.

Lemma exists_grows (t t' : node) (q : path) :
  grows t t' -> exists_ t q = true -> exists_ t' q = true.
Proof.
  intros Hg. unfold exists_. destruct (stat t q) as [r|] eqn:E; [|done].
  by destruct (stat_grows _ _ _ _ Hg E) as (r' & -> & _).
Qed.

(** What [mkdir] with parents adds lies on the path it was given. *)
Lemma mkdir_p_new (p : path) : forall n q,
  lstat n q = None -> lstat (fst (mkdir_p n p)) q <> None -> q `prefix_of` p.
Proof.
  induction p as [|c rest IH]; intros n q Hq Hq'.
  - simpl in Hq'. by destruct n.
  - destruct n as [s|t|m kids]; try done. cbn [mkdir_p] in Hq'.
    destruct q as [|c' q']; [done|]. cbn [lstat] in Hq.
    destruct (assoc c kids) as [k0|] eqn:Ec.
    + specialize (IH k0 q'). destruct (mkdir_p k0 rest) as [k0' e].
      cbn [fst lstat] in *. destruct (decide (c = c')) as [<-|Hne].
      * rewrite Ec in Hq. rewrite (assoc_set_entry_eq _ _ _ _ Ec) in Hq'.
        by apply prefix_cons, IH.
      * by rewrite assoc_set_entry_ne in Hq' by done.
    + destruct (can_write m); [|done].
      specialize (IH (Dir rw []) q').
      destruct (mkdir_p (Dir rw []) rest) as [k' e]. cbn [fst lstat] in *.
      destruct (decide (c = c')) as [<-|Hne].
      * rewrite (assoc_snoc_fresh _ _ _ Ec) in Hq'.
        destruct q' as [|c2 q2]; [apply prefix_cons, prefix_nil|].
        by apply prefix_cons, IH.
      * by rewrite assoc_snoc_ne in Hq' by done.
Qed.

Lemma exists_lstat (t : node) (q : path) :
  exists_ t q = true -> lstat t q <> None.
Proof. unfold exists_, stat. by destruct (lstat t q). Qed.

(** Creating a directory for new material below the materials directory
    of the project leaves the project boundary where it was. *)
Lemma project_root_after_mkdir (w w1 : world) (root : path) (x : string) :
  project_root w = Some root ->
  fs w1 = fst (mkdir_p (fs w) (joinpath (project_materials root) x)) ->
  cwd w1 = cwd w ->
  hidden x = false ->
  markers_resolve (fs w) (cwd w) ->
  project_root w1 = Some root.
Proof.
  intros Hroot Hfs Hcwd Hx Hres.
  pose proof (mkdir_p_grows (joinpath (project_materials root) x) (fs w)) as Hg.
  rewrite <- Hfs in Hg.
  unfold project_root in *. rewrite Hcwd.
  apply find_first in Hroot as (l1 & l2 & Hl & Hm & Hl1).
  apply find_first. exists l1, l2. split; [done|]. split.
  - unfold has_marker in *. apply orb_true_iff in Hm as [Hm|Hm];
      apply (exists_grows _ _ _ Hg) in Hm; rewrite Hm; [done|apply orb_true_r].
  - apply Forall_forall. intros d Hd.
    assert (d `prefix_of` cwd w /\ root `prefix_of` d /\ root <> d)
      as (Hdc & Hrd & Hne).
    { assert (d ∈ ancestors (cwd w)) as Hda
        by (rewrite Hl, elem_of_app; by left).
      assert (root ∈ ancestors (cwd w)) as Hra
        by (rewrite Hl, elem_of_app; right; by left).
      apply ancestors_elem in Hda as [_ Hda].
      apply ancestors_elem in Hra as [_ Hra].
      pose proof (ancestors_decreasing (cwd w)) as Hs. rewrite Hl in Hs.
      assert (length root < length d) as Hlen.
      { apply (StronglySorted_app_1_elem_of _ _ _ _ _ Hs Hd). by left. }
      split; [done|]. split.
      - destruct (prefix_weak_total _ _ _ Hra Hda) as [?|Hp]; [done|].
        apply prefix_length in Hp. lia.
      - intros ->. lia. }
    rewrite Forall_forall in Hl1. specialize (Hl1 d Hd).
    unfold has_marker in *. apply orb_false_iff in Hl1 as [Hgit Hclaude].
    assert (forall marker,
              marker = ".git" \/ marker = ".claude" ->
              exists_ (fs w) (joinpath d marker) = false ->
              exists_ (fs w1) (joinpath d marker) = false) as Hstill.
    { intros marker Hmk Hold.
      destruct (exists_ (fs w1) (joinpath d marker)) eqn:Hnew; [|done].
      exfalso. apply exists_lstat in Hnew.
      destruct (lstat (fs w) (joinpath d marker)) as [k|] eqn:Hk.
      - rewrite (Hres d marker Hdc Hmk) in Hold; [done|by rewrite Hk].
      - rewrite Hfs in Hnew. apply mkdir_p_new in Hnew; [|done].
        destruct Hrd as [rel ->].
        unfold joinpath, project_materials, joinpath in Hnew.
        rewrite <- !app_assoc in Hnew. apply prefix_app_inv in Hnew.
        cbn [app] in Hnew.
        destruct rel as [|c1 rel]; [by rewrite app_nil_r in Hne|].
        cbn [app] in Hnew.
        pose proof (prefix_cons_inv_1 _ _ _ _ Hnew) as ->.
        apply prefix_cons_inv_2 in Hnew.
        destruct rel as [|c2 rel]; cbn [app] in Hnew.
        { pose proof (prefix_cons_inv_1 _ _ _ _ Hnew) as ->.
          by destruct Hmk. }
        pose proof (prefix_cons_inv_1 _ _ _ _ Hnew) as ->.
        apply prefix_cons_inv_2 in Hnew.
        destruct rel as [|c3 rel]; cbn [app] in Hnew.
        { pose proof (prefix_cons_inv_1 _ _ _ _ Hnew) as ->.
          by destruct Hmk as [->| ->]. }
        pose proof (prefix_cons_inv_1 _ _ _ _ Hnew) as ->.
        apply prefix_cons_inv_2 in Hnew.
        destruct rel as [|c4 rel]; cbn [app] in Hnew;
          by apply prefix_nil_inv in Hnew. }
    by rewrite (Hstill ".git"), (Hstill ".claude") by auto.
Qed.

Lemma inventory_lists_roots (t : node) (dirs : list (path * string))
    (ms : list material) (d : path) (mode : string) :
  inventory t dirs = Ok ms -> (d, mode) ∈ dirs ->
  exists kids, scandir t d = Ok kids.
Proof.
  revert ms. induction dirs as [|[d0 mode0] dirs IH]; intros ms; simpl.
  - by intros _ ?%elem_of_nil.
  - destruct (scandir t d0) as [kids| |] eqn:Es; [|done..].
    destruct (inventory t dirs) as [ms'| |]; [|done..].
    intros _ [[= -> ->]|Hd]%elem_of_cons; [by exists kids|by eapply IH].
Qed.

(** The directory made for new material is a candidate root's entry. *)
Lemma fetched_root_is_candidate (w w1 : world) (x : string) :
  mkdir_parents (joinpath (default_target w) x) w = (Ok tt, w1) ->
  hidden x = false ->
  markers_resolve (fs w) (cwd w) ->
  (default_target w,
   match project_root w with Some _ => "project" | None => "global" end)
  ∈ candidate_roots w1
  /\ is_dir (fs w1) (joinpath (default_target w) x) = true.
Proof.
  intros Hmk Hx Hres.
  destruct (mkdir_parents_exists _ _ _ Hmk) as (Hex & Hhome & Hcwd).
  assert (fs w1 = fst (mkdir_p (fs w) (joinpath (default_target w) x))) as Hfs.
  { unfold mkdir_parents in Hmk.
    destruct (mkdir_p (fs w) _) as [t [e|]]; [done|]. by injection Hmk as <-. }
  assert (is_dir (fs w1) (joinpath (default_target w) x) = true) as Hdir.
  { unfold mkdir_parents in Hmk.
    destruct (mkdir_p (fs w) _) as [t [e|]] eqn:E; [done|].
    apply mkdir_p_dir in E as (m & kids & E). cbn [fst] in Hfs.
    unfold is_dir, stat. by rewrite Hfs, E, follow_dir. }
  split; [|done].
  pose proof (is_dir_exists _ _ (exists_parent _ _ _ Hex)) as Hbase.
  unfold candidate_roots, default_target in *.
  destruct (project_root w) as [root|] eqn:Hroot.
  - rewrite (project_root_after_mkdir w w1 root x Hroot Hfs Hcwd Hx Hres).
    rewrite Hbase. apply elem_of_app. left. by left.
  - unfold global_materials in *. rewrite Hhome, Hbase.
    apply elem_of_app. right. by left.
Qed.

(** What is fetched is found again.  Let the fetch tool choose its target
    for a project whose name is a single path component that does not
    start with a dot, and let it create the output directory there.  Then
    the cleanup tool, whenever its listing succeeds, lists that directory,
    under the name of the project and with the mode in which it was
    fetched.  This holds when the fetch tool was not started inside its
    own recognised directory, where the two tools disagree about the
    project, and when no link called [.git] or [.claude] above the working
    directory leads nowhere. *)
Theorem fetched_material_is_listed (w w1 : world) (project_name : string)
    (materials_base : path) (is_project_mode : bool) (ms : list material) :
  is_tool_dir w = false \/ tool_dir w ∉ ancestors (cwd w) ->
  hidden project_name = false ->
  markers_resolve (fs w) (cwd w) ->
  fst (Fetch.get_smart_materials_dir project_name w)
  = Ok (materials_base, is_project_mode) ->
  mkdir_parents (joinpath materials_base project_name) w = (Ok tt, w1) ->
  fst (list_materials w1) = Ok ms ->
  exists mat,
    mat ∈ ms
    /\ m_name mat = project_name
    /\ m_path mat = joinpath materials_base project_name
    /\ m_mode mat = if is_project_mode then "project" else "global".
Proof.
  intros Hout Hx Hres Hsmart Hmk Hlist.
  assert (fetch_project_root w = project_root w) as Hsame.
  { unfold fetch_project_root, project_root. apply find_agree.
    apply Forall_forall. intros d Hd. unfold fetch_boundary.
    destruct Hout as [->|Hout]; [by rewrite andb_true_r|].
    rewrite bool_decide_false; [by rewrite andb_false_r, andb_true_r|].
    by intros ->. }
  assert (materials_base = default_target w
          /\ (if is_project_mode then "project" else "global")
             = match project_root w with
               | Some _ => "project" | None => "global"
               end) as [-> Hmode].
  { unfold Fetch.get_smart_materials_dir in Hsmart.
    rewrite (bind_read _ _ _ _ (fetch_find_project_root w)), Hsame in Hsmart.
    unfold default_target.
    destruct (project_root w); [by injection Hsmart as <- <-|].
    rewrite bind_gets in Hsmart. by injection Hsmart as <- <-. }
  rewrite Hmode.
  destruct (fetched_root_is_candidate w w1 project_name Hmk Hx Hres)
    as [Hcand Hdir].
  destruct (list_materials_reads w1) as (out & Hrun & _).
  rewrite Hrun in Hlist. cbn [fst] in Hlist.
  destruct (inventory_lists_roots _ _ _ _ _ Hlist Hcand) as [kids Hkids].
  exists (entry_of (fs w1)
            match project_root w with Some _ => "project" | None => "global" end
            (joinpath (default_target w) project_name)).
  split.
  - apply (inventory_elem _ _ _ _ Hlist).
    assert (exists k, (project_name, k) ∈ kids) as [k Hk].
    { unfold is_dir, stat in Hdir.
      destruct (lstat (fs w1) (joinpath (default_target w) project_name))
        as [k|] eqn:E; [|done].
      apply lstat_snoc in E as (m & kids' & Hb & Ha).
      unfold scandir, stat in Hkids. rewrite Hb, follow_dir in Hkids.
      destruct (can_read m); [|done]. injection Hkids as <-.
      exists k. by apply assoc_elem_of. }
    eexists _, _, kids, project_name, k. split; [exact Hcand|].
    split; [exact Hkids|]. split; [exact Hk|]. split; [|done].
    unfold qualifies. rewrite Hdir. unfold joinpath. by rewrite name_snoc, Hx.
  - unfold entry_of, joinpath. cbn [m_name m_path m_mode].
    by rewrite name_snoc.
Qed.

Lemma fetched_material_is_listed_witness :
  let w := Scenarios.no_roots in
  let base := ["home"; "u"; "proj"; ".claude"; "temp-materials"] in
  exists w1 ms mat,
    mkdir_parents (joinpath base "repo") w = (Ok tt, w1)
    /\ fst (list_materials w1) = Ok ms
    /\ mat ∈ ms
    /\ m_name mat = "repo"
    /\ m_path mat = joinpath base "repo"
    /\ m_mode mat = "project".
Proof.
  intros w base.
  destruct (mkdir_parents (joinpath base "repo") w) as [r w1] eqn:Emk.
  assert (r = Ok tt) as ->.
  { apply (f_equal fst) in Emk. vm_compute in Emk. by symmetry. }
  destruct (fst (list_materials w1)) as [ms| |] eqn:Els.
  2,3: apply (f_equal snd) in Emk; vm_compute in Emk; subst w1;
       vm_compute in Els; discriminate Els.
  destruct (fetched_material_is_listed w w1 "repo" base true ms)
    as (mat & Hin & Hname & Hpath & Hmode).
  - left. by vm_compute.
  - by vm_compute.
  - intros d marker Hd Hm Hl. unfold w in *.
    destruct Hd as [rel Hd]. cbn [cwd Scenarios.no_roots] in Hd.
    destruct Hm as [-> | ->];
      (destruct d as [|c1 [|c2 [|c3 [|c4 d]]]];
       simpl in Hd; try discriminate Hd; simplify_eq;
       first [by vm_compute | by vm_compute in Hl]).
  - by vm_compute.
  - exact Emk.
  - exact Els.
  - exists w1, ms, mat. by repeat split.
Defined.

(** ** From deleting to listing *)

Import Growth.

Lemma no_links_plain (q : path) : forall t, no_links t = true -> plain t q.
Proof.
  induction q as [|c q IH]; intros t Ht target.
  - cbn [lstat]. intros [= ->]. done.
  - destruct t as [s|l|m kids]; try done. cbn [lstat].
    destruct (assoc c kids) as [k|] eqn:E; [|done].
    apply (IH k). clear IH. simpl in Ht.
    induction kids as [|[c0 k0] kids IHk]; [done|].
    apply andb_true_iff in Ht as [Hk0 Hrest]. simpl in E.
    destruct (String.eqb c0 c); [by injection E as <-|by apply IHk].
Qed.

(** A successful [shutil.rmtree] of [p] leaves in place whatever does not
    lie at or below [p]: what was there is there, of the same kind, and
    unchanged unless it is a directory on the way to [p]; what was not
    there is not there. *)
Lemma rmtree_at_kept (p : path) : forall n n' q,
  rmtree_at n p = (n', None) -> ~ p `prefix_of` q ->
  match lstat n q with
  | Some k =>
      exists k', lstat n' q = Some k' /\ same_kind k k'
                 /\ (~ q `prefix_of` p -> k' = k)
  | None => lstat n' q = None
  end.
Proof.
  induction p as [|c rest IH]; intros n n' q Hrm Hpq.
  { simpl in Hrm. by destruct (rmtree_contents n) as [? [?|]]. }
  destruct n as [s|t|m kids]; try done. cbn [rmtree_at] in Hrm.
  destruct (assoc c kids) as [k0|] eqn:Ec; [|done].
  destruct rest as [|c2 rest'].
  - assert (n' = Dir m (remove_entry c kids)) as ->.
    { destruct k0 as [s|t|m0 kids0]; try done;
        destruct (rmtree_contents _) as [k0' [e|]]; try done;
        destruct (can_write m); try done; by injection Hrm as <-. }
    destruct q as [|c' q'].
    + cbn [lstat]. eexists. split; [done|]. split; [done|].
      intros H. destruct H. apply prefix_nil.
    + assert (c <> c') as Hne.
      { intros ->. apply Hpq. apply prefix_cons, prefix_nil. }
      cbn [lstat]. rewrite assoc_remove_entry_ne by done.
      destruct (assoc c' kids) as [kk|]; [|done].
      destruct (lstat kk q') as [k|]; [|done].
      exists k. split; [done|]. split; [apply same_kind_refl|done].
  - destruct (rmtree_at k0 (c2 :: rest')) as [k0' e] eqn:Er.
    injection Hrm as <- ->.
    destruct q as [|c' q'].
    + cbn [lstat]. eexists. split; [done|]. split; [done|].
      intros H. destruct H. apply prefix_nil.
    + cbn [lstat]. destruct (decide (c = c')) as [<-|Hne].
      * rewrite Ec, (assoc_set_entry_eq _ _ _ _ Ec).
        specialize (IH k0 k0' q' Er).
        assert (~ c2 :: rest' `prefix_of` q') as Hq'
          by (intros H; apply Hpq; by apply prefix_cons).
        specialize (IH Hq').
        destruct (lstat k0 q') as [k|]; [|done].
        destruct IH as (k' & Hk' & Hkind & Heq).
        exists k'. split; [done|]. split; [done|].
        intros H. apply Heq. intros H'. apply H. by apply prefix_cons.
      * rewrite assoc_set_entry_ne by done.
        destruct (assoc c' kids) as [kk|]; [|done].
        destruct (lstat kk q') as [k|]; [|done].
        exists k. split; [done|]. split; [apply same_kind_refl|done].
Qed.

(** After a successful [shutil.rmtree] of an entry, its directory holds
    the other entries. *)
Lemma rmtree_at_parent (d : path) (c : string) : forall n n' m kids,
  rmtree_at n (d ++ [c]) = (n', None) ->
  lstat n d = Some (Dir m kids) ->
  lstat n' d = Some (Dir m (remove_entry c kids)).
Proof.
  induction d as [|c0 d IH]; intros n n' m kids Hrm Hd.
  - cbn [lstat] in *. injection Hd as ->. cbn [app rmtree_at] in Hrm.
    destruct (assoc c kids) as [k0|]; [|done].
    destruct k0 as [s|t|m0 kids0]; try done;
      destruct (rmtree_contents _) as [k0' [e|]]; try done;
      destruct (can_write m); try done; by injection Hrm as <-.
  - destruct n as [s|t|m0 kids0]; try done. cbn [lstat] in Hd.
    destruct (assoc c0 kids0) as [k0|] eqn:Ec; [|done].
    change ((c0 :: d) ++ [c]) with (c0 :: (d ++ [c])) in Hrm.
    cbn [rmtree_at] in Hrm. rewrite Ec in Hrm.
    destruct (d ++ [c]) as [|c2 rest'] eqn:Erest.
    { by destruct d. }
    destruct (rmtree_at k0 (c2 :: rest')) as [k0' e] eqn:Er.
    injection Hrm as <- ->. cbn [lstat].
    rewrite (assoc_set_entry_eq _ _ _ _ Ec). by eapply IH.
Qed.

Lemma stat_plain (t : node) (q : path) :
  plain t q -> stat t q = lstat t q.
Proof.
  unfold plain, stat. intros H. destruct (lstat t q) as [[s|l|m kids]|]; try done.
  by destruct (H l).
Qed.

#[global] Instance path_le_antisym : AntiSymm (=) path_le.
Proof.
  intros p. unfold path_le.
  induction p as [|a p IH]; intros [|b q]; simpl; try done.
  rewrite (String.compare_antisym b a).
  destruct (String.compare a b) eqn:E; simpl; try done.
  apply String.compare_eq_iff in E as ->. intros H1 H2. f_equal. by apply IH.
Qed.

(** Sorting what is left after some paths were taken out gives what is
    left of the sorted list. *)
Lemma sorted_filter (P : path -> Prop) `{!forall q, Decision (P q)}
    (l : list path) :
  sorted (filter P l) = filter P (sorted l).
Proof.
  apply (StronglySorted_unique path_le).
  - apply sorted_strongly.
  - apply StronglySorted_filter_keep, sorted_strongly.
  - unfold sorted. by rewrite !merge_sort_Permutation.
Qed.

Lemma items_of_remove_entry (d : path) (c : string) (kids : list (string * node)) :
  items_of d (remove_entry c kids)
  = filter (fun q => q <> joinpath d c) (items_of d kids).
Proof.
  unfold items_of, joinpath.
  induction kids as [|[c0 k0] kids IH]; [done|].
  cbn [remove_entry map fst]. rewrite filter_cons.
  destruct (String.eqb_spec c0 c) as [->|Hne].
  - by rewrite decide_False by (intros H; by apply H).
  - rewrite decide_True; [by rewrite <- IH|].
    intros H. by apply app_inv_head in H as [= ?].
Qed.

(** The entries made of the items that are left. *)
Lemma map_filter_remove {A B : Type} `{EqDecision A}
    (f f' : A -> bool) (g g' : A -> B) (k : B -> A) (p : A) (l : list A) :
  (forall q, k (g q) = q) ->
  Forall (fun q => q <> p -> f' q = f q /\ g' q = g q) l ->
  map g' (filter (fun x => f' x = true) (filter (fun q => q <> p) l))
  = filter (fun b => k b <> p) (map g (filter (fun x => f x = true) l)).
Proof.
  intros Hk. induction 1 as [|q l Hq Hl IH]; [done|].
  rewrite (filter_cons (fun q => q <> p)).
  rewrite (filter_cons (fun x => f x = true)).
  destruct (decide (q <> p)) as [Hne|Heq].
  - destruct (Hq Hne) as [Hqual Hentry].
    rewrite filter_cons, Hqual.
    destruct (decide (f q = true)).
    + cbn [map]. rewrite filter_cons, Hk.
      rewrite decide_True by done. by rewrite Hentry, IH.
    + exact IH.
  - apply dec_stable in Heq as ->.
    destruct (decide (f p = true)); [|exact IH].
    cbn [map]. rewrite filter_cons, Hk.
    rewrite decide_False by (intros H'; by apply H'). exact IH.
Qed.

Lemma collect_filter (t t' : node) (mode : string) (p : path) (l : list path) :
  Forall (fun q => q <> p ->
                   qualifies t' q = qualifies t q
                   /\ entry_of t' mode q = entry_of t mode q) l ->
  collect t' mode (filter (fun q => q <> p) l)
  = filter (fun mat => m_path mat <> p) (collect t mode l).
Proof.
  intros H.
  exact (map_filter_remove (qualifies t) (qualifies t') (entry_of t mode)
           (entry_of t' mode) m_path p l (fun q => eq_refl) H).
Qed.

Lemma map_filter_agree {A B : Type} (f f' : A -> bool) (g g' : A -> B)
    (l : list A) :
  Forall (fun q => f' q = f q /\ g' q = g q) l ->
  map g' (filter (fun x => f' x = true) l)
  = map g (filter (fun x => f x = true) l).
Proof.
  induction 1 as [|q l [Hf Hg] Hl IH]; [done|].
  rewrite !filter_cons, Hf.
  destruct (decide (f q = true)); [|exact IH].
  cbn [map]. by rewrite Hg, IH.
Qed.

Lemma collect_agree (t t' : node) (mode : string) (l : list path) :
  Forall (fun q => qualifies t' q = qualifies t q
                   /\ entry_of t' mode q = entry_of t mode q) l ->
  collect t' mode l = collect t mode l.
Proof.
  intros H.
  exact (map_filter_agree (qualifies t) (qualifies t') (entry_of t mode)
           (entry_of t' mode) l H).
Qed.

(** What lies apart from what was removed, and is no link, is seen as
    before. *)
Lemma seen_as_before (t t' : node) (p q : path) :
  rmtree_at t p = (t', None) -> apart p q -> plain t q ->
  stat t' q = stat t q.
Proof.
  intros Hrm [Hpq Hqp] Hplain.
  pose proof (rmtree_at_frame p q t Hpq Hqp) as Hl. rewrite Hrm in Hl.
  cbn [fst] in Hl.
  rewrite (stat_plain t q Hplain), stat_plain; [done|].
  intros target. rewrite Hl. apply Hplain.
Qed.

Lemma apart_siblings (d : path) (c c' : string) :
  c <> c' -> apart (d ++ [c]) (d ++ [c']).
Proof.
  intros Hne. split; intros H%prefix_app_inv;
    apply prefix_cons_inv_1 in H; congruence.
Qed.

Lemma prefix_snoc_inv {A} (l1 l2 : list A) (x : A) :
  l1 `prefix_of` l2 ++ [x] -> l1 = l2 ++ [x] \/ l1 `prefix_of` l2.
Proof.
  intros [k Hk]. destruct k as [|y k _] using rev_ind.
  - left. by rewrite app_nil_r in Hk.
  - right. rewrite app_assoc in Hk. apply app_inj_tail in Hk as [-> _].
    by exists k.
Qed.

Lemma apart_entries (d d2 : path) (c c2 : string) :
  apart d d2 ->
  apart (d ++ [c]) d2 /\ apart (d ++ [c]) (d2 ++ [c2]).
Proof.
  intros [H1 H2]. repeat split.
  - intros H. apply H1. by eapply prefix_app_l.
  - intros [Heq|H]%prefix_snoc_inv; [|done].
    apply H1. rewrite Heq. by apply prefix_app_r.
  - intros [Heq|H]%prefix_snoc_inv.
    + apply app_inj_tail in Heq as [-> _]. by apply H1.
    + apply H1. by eapply prefix_app_l.
  - intros [Heq|H]%prefix_snoc_inv.
    + apply app_inj_tail in Heq as [-> _]. by apply H1.
    + apply H2. by eapply prefix_app_l.
Qed.

Lemma entry_as_before (t t' : node) (p q : path) (mode : string) :
  rmtree_at t p = (t', None) -> apart p q -> plain t q ->
  qualifies t' q = qualifies t q /\ entry_of t' mode q = entry_of t mode q.
Proof.
  intros Hrm Hap Hplain.
  pose proof (seen_as_before t t' p q Hrm Hap Hplain) as Hs.
  clear Hrm Hap Hplain.
  unfold qualifies, entry_of, is_dir, size_at. rewrite Hs. split; reflexivity.
Qed.

(** The root from which an entry was removed lists the other entries as
    before. *)
Lemma root_after_delete (t t' : node) (d : path) (c : string) (mode : string)
    (kids : list (string * node)) :
  rmtree_at t (d ++ [c]) = (t', None) ->
  lstat t (d ++ [c]) <> None ->
  scandir t d = Ok kids ->
  (forall c', plain t (joinpath d c')) ->
  scandir t' d = Ok (remove_entry c kids)
  /\ collect t' mode (sorted (items_of d (remove_entry c kids)))
     = filter (fun mat => m_path mat <> d ++ [c])
         (collect t mode (sorted (items_of d kids))).
Proof.
  intros Hrm Hthere Hscan Hplain.
  destruct (lstat t (d ++ [c])) as [k|] eqn:Ek; [|done].
  apply lstat_snoc in Ek as (m & kids' & Hd & _).
  assert (stat t d = Some (Dir m kids')) as Hst
    by (unfold stat; by rewrite Hd, follow_dir).
  unfold scandir in Hscan. rewrite Hst in Hscan.
  destruct (can_read m) eqn:Hread; [|done]. injection Hscan as ->.
  pose proof (rmtree_at_parent d c t t' m kids Hrm Hd) as Hd'.
  split.
  - unfold scandir, stat. by rewrite Hd', follow_dir, Hread.
  - rewrite items_of_remove_entry, sorted_filter. apply collect_filter.
    apply Forall_forall. intros q Hq Hne.
    apply (proj1 (sorted_elem _ _)) in Hq.
    apply list_elem_of_fmap in Hq as [[c' k'] [-> _]]. cbn [fst] in *.
    apply (entry_as_before t t' (d ++ [c])); [done| |apply Hplain].
    apply apart_siblings. intros ->. by apply Hne.
Qed.

(** A root that lies apart from the one of the entry lists what it
    listed. *)
Lemma other_root_after_delete (t t' : node) (d d2 : path) (c : string)
    (mode : string) :
  rmtree_at t (d ++ [c]) = (t', None) ->
  apart d d2 ->
  plain t d2 -> (forall c', plain t (joinpath d2 c')) ->
  scandir t' d2 = scandir t d2
  /\ forall kids,
       collect t' mode (sorted (items_of d2 kids))
       = collect t mode (sorted (items_of d2 kids))
       /\ Forall (fun mat => m_path mat <> d ++ [c])
            (collect t mode (sorted (items_of d2 kids))).
Proof.
  intros Hrm Hap Hplain Hitems. split.
  - unfold scandir.
    by rewrite (seen_as_before t t' (d ++ [c]) d2 Hrm
                  (proj1 (apart_entries d d2 c "" Hap)) Hplain).
  - intros kids.
    assert (Forall (fun q => exists c2, q = d2 ++ [c2])
              (sorted (items_of d2 kids))) as Hshape.
    { apply Forall_forall. intros q Hq.
      apply (proj1 (sorted_elem _ _)) in Hq.
      apply list_elem_of_fmap in Hq as [[c2 k2] [-> _]]. by exists c2. }
    split.
    + apply collect_agree. eapply Forall_impl; [exact Hshape|].
      intros q [c2 ->].
      exact (entry_as_before t t' (d ++ [c]) (d2 ++ [c2]) mode Hrm
               (proj2 (apart_entries d d2 c c2 Hap)) (Hitems c2)).
    + apply Forall_forall. intros mat (q & Hq & _ & ->)%collect_elem.
      rewrite Forall_forall in Hshape. destruct (Hshape q Hq) as [c2 ->].
      cbn [entry_of m_path]. intros Heq.
      destruct (proj2 (apart_entries d d2 c c2 Hap)) as [H _].
      apply H. by rewrite Heq.
Qed.

Lemma filter_all {A} (P : A -> Prop) `{!forall x, Decision (P x)} (l : list A) :
  Forall P l -> filter P l = l.
Proof.
  induction 1 as [|x l Hx Hl IH]; [done|].
  by rewrite filter_cons, decide_True, IH by done.
Qed.

(** The inventory over roots that are the root of the removed entry or
    lie apart from it. *)
Lemma inventory_after_delete (t t' : node) (d : path) (c : string)
    (dirs : list (path * string)) : forall ms,
  rmtree_at t (d ++ [c]) = (t', None) ->
  lstat t (d ++ [c]) <> None ->
  Forall (fun r => (fst r = d \/ apart d (fst r))
                   /\ plain t (fst r)
                   /\ forall c', plain t (joinpath (fst r) c')) dirs ->
  inventory t dirs = Ok ms ->
  inventory t' dirs = Ok (filter (fun mat => m_path mat <> d ++ [c]) ms).
Proof.
  intros ms Hrm Hthere Hdirs. revert ms.
  induction Hdirs as [|[d2 mode] dirs (Hd2 & Hplain & Hitems) Hdirs IH];
    intros ms; cbn [inventory]; [by intros [= <-]|].
  cbn [fst] in *.
  destruct (scandir t d2) as [kids| |] eqn:Es; [|done..].
  destruct (inventory t dirs) as [ms'| |] eqn:Ei; [|done..].
  intros [= <-]. rewrite (IH ms' eq_refl), filter_app.
  destruct Hd2 as [->|Hap].
  - destruct (root_after_delete t t' d c mode kids Hrm Hthere Es Hitems)
      as [-> ->]. done.
  - destruct (other_root_after_delete t t' d d2 c mode Hrm Hap Hplain Hitems)
      as [-> Hkids]. rewrite Es.
    destruct (Hkids kids) as [-> Hall]. by rewrite (filter_all _ _ Hall).
Qed.

Lemma exists_after_delete (t t' : node) (p q : path) :
  rmtree_at t p = (t', None) -> ~ p `prefix_of` q -> plain t q ->
  exists_ t' q = exists_ t q.
Proof.
  intros Hrm Hpq Hplain.
  pose proof (rmtree_at_kept p t t' q Hrm Hpq) as Hk.
  unfold exists_. rewrite (stat_plain t q Hplain).
  destruct (lstat t q) as [k|] eqn:E.
  - destruct Hk as (k' & Hk' & Hkind & _).
    rewrite stat_plain, Hk'; [done|].
    intros target. rewrite Hk'. intros [= ->].
    destruct k; try done. simpl in Hkind. subst. by destruct (Hplain target).
  - unfold stat. by rewrite Hk.
Qed.

(** A successful deletion is a successful [shutil.rmtree] of the path of
    the material, and nothing else happens to the disk. *)
Lemma delete_material_true (mat : material) (force : bool) (w w' : world) :
  delete_material mat force w = (Ok true, w') ->
  rmtree_at (fs w) (m_path mat) = (fs w', None)
  /\ cwd w' = cwd w /\ home w' = home w.
Proof.
  unfold delete_material.
  assert (forall w1, fs w1 = fs w -> cwd w1 = cwd w -> home w1 = home w ->
      try_except
        (rmtree (m_path mat);;
         print ("   ✅ Deleted: " +:+ m_name mat +:+ " (" +:+ m_size_str mat +:+ ")");;
         ret true)
        (fun e => Some (print ("   ❌ Error deleting " +:+ m_name mat +:+ ": "
                               +:+ str_exn e);; ret false)) w1
      = (Ok true, w') ->
      rmtree_at (fs w) (m_path mat) = (fs w', None)
      /\ cwd w' = cwd w /\ home w' = home w) as Htry.
  { intros w1 Hfs Hcwd Hhome. unfold try_except, bind, rmtree, print, ret.
    rewrite Hfs.
    destruct (rmtree_at (fs w) (m_path mat)) as [t [e|]] eqn:E; simpl; [done|].
    intros [= <-]. simpl. by rewrite Hcwd, Hhome. }
  destruct force; simpl.
  - rewrite bind_ret. simpl. by apply Htry.
  - unfold confirm_deletion. rewrite !bind_assoc, bind_print.
    rewrite bind_assoc. unfold bind at 1, input. cbn [stdin set_stdout].
    destruct (stdin w) as [|line rest]; [done|].
    rewrite bind_ret.
    destruct (negb _); [by rewrite bind_print|].
    by apply Htry.
Qed.

Lemma candidate_root_place (w : world) (d : path) (mode : string) :
  (d, mode) ∈ candidate_roots w -> d ∈ root_places w.
Proof.
  unfold candidate_roots, root_places. rewrite !elem_of_app.
  intros [H|H]; [left|right].
  - destruct (project_root w); [|by apply elem_of_nil in H].
    destruct (exists_ _ _); [|by apply elem_of_nil in H].
    apply list_elem_of_singleton in H. injection H as -> _. by left.
  - destruct (exists_ _ _); [|by apply elem_of_nil in H].
    apply list_elem_of_singleton in H. injection H as -> _. by left.
Qed.

Lemma root_places_cases (w : world) (d q : path) :
  listing_plain w -> d ∈ root_places w -> q ∈ root_places w ->
  q = d \/ apart d q.
Proof.
  intros (_ & _ & Hapart). unfold root_places.
  destruct (project_root w) as [root|].
  - specialize (Hapart root eq_refl). cbn [app].
    rewrite !elem_of_cons.
    intros [->|[->|Hn]] [->|[->|Hn']];
      try (by apply elem_of_nil in Hn); try (by apply elem_of_nil in Hn');
      auto.
    right. destruct Hapart. by split.
  - cbn [app]. rewrite !list_elem_of_singleton. intros -> ->. by left.
Qed.

Lemma not_below_entry (d q : path) (c : string) :
  q = d \/ apart d q -> ~ d ++ [c] `prefix_of` q.
Proof.
  intros [->|[H _]] Hp.
  - apply prefix_length in Hp. rewrite length_app in Hp. simpl in Hp. lia.
  - apply H. by eapply prefix_app_l.
Qed.

(** Deleting an entry takes that entry, and nothing else, out of the
    listing.  Let an entry of the inventory be deleted with success, by an
    operator who does not stand inside it, and let the listing meet no
    symbolic link and the two roots not lie inside one another.  Then the
    roots are the same afterwards, and the next [list_materials] returns
    the former inventory without the entries at the deleted path: the
    other entries are there, in the same order, with the same sizes. *)
Theorem deleted_entry_leaves_listing (w w' : world) (ms : list material)
    (mat : material) (force : bool) :
  inventory (fs w) (candidate_roots w) = Ok ms -> mat ∈ ms ->
  delete_material mat force w = (Ok true, w') ->
  listing_plain w ->
  ~ m_path mat `prefix_of` cwd w ->
  candidate_roots w' = candidate_roots w
  /\ fst (list_materials w')
     = Ok (filter (fun m => m_path m <> m_path mat) ms).
Proof.
  intros Hms Hmat Hdel Hplain Hcwd.
  apply (inventory_elem _ _ _ _ Hms) in Hmat
    as (d & mode & kids & c & k & Hd & Hscan & Hk & Hq & ->).
  cbn [entry_of m_path] in *. unfold joinpath in *.
  apply delete_material_true in Hdel as (Hrm & Hcwd' & Hhome').
  cbn [m_path] in Hrm.
  apply andb_true_iff in Hq as [Hdir Hhid]. apply negb_true_iff in Hhid.
  rewrite name_snoc in Hhid.
  assert (lstat (fs w) (d ++ [c]) <> None) as Hthere.
  { unfold is_dir, stat in Hdir. by destruct (lstat (fs w) (d ++ [c])). }
  pose proof (candidate_root_place w d mode Hd) as Hplace.
  pose proof Hplain as (Hmarkers & Hroots & _).
  assert (forall q, q ∈ root_places w ->
                    exists_ (fs w') q = exists_ (fs w) q) as Hex.
  { intros q Hq. apply (exists_after_delete _ _ (d ++ [c])); [done| |].
    - apply not_below_entry. by apply (root_places_cases w).
    - by apply (Hroots q ""). }
  assert (project_root w' = project_root w) as Hproj.
  { unfold project_root. rewrite Hcwd'. apply find_agree.
    apply Forall_forall. intros a [_ Ha]%ancestors_elem.
    assert (forall marker,
              marker = ".git" \/ marker = ".claude" ->
              exists_ (fs w') (joinpath a marker)
              = exists_ (fs w) (joinpath a marker)) as Hsame.
    { intros marker Hmk.
      apply (exists_after_delete _ _ (d ++ [c])); [done| |by apply Hmarkers].
      unfold joinpath. intros [Heq|Hp]%prefix_snoc_inv.
      - apply app_inj_tail in Heq as [_ ->].
        by destruct Hmk as [->| ->].
      - apply Hcwd. by etrans. }
    unfold has_marker. by rewrite !Hsame by auto. }
  assert (candidate_roots w' = candidate_roots w) as Hcand.
  { assert (global_materials w' = global_materials w) as Hglob
      by (unfold global_materials; by rewrite Hhome').
    assert (exists_ (fs w') (global_materials w)
            = exists_ (fs w) (global_materials w)) as Hg.
    { apply Hex. unfold root_places. apply elem_of_app. right. by left. }
    unfold candidate_roots. rewrite Hproj, Hglob, Hg.
    destruct (project_root w) as [root|] eqn:Er; [|reflexivity].
    rewrite (Hex (project_materials root)); [reflexivity|].
    unfold root_places. rewrite Er. by left. }
  split; [exact Hcand|].
  destruct (list_materials_reads w') as (out & -> & _). cbn [fst].
  rewrite Hcand.
  apply (inventory_after_delete (fs w) (fs w') d c); try done.
  apply Forall_forall. intros [d2 mode2] Hd2. cbn [fst].
  pose proof (candidate_root_place w d2 mode2 Hd2) as Hplace2.
  split; [by apply (root_places_cases w)|].
  split; [by apply (Hroots d2 "")|]. intros c'. by apply (Hroots d2 c').
Qed.

(** The scenario of two entries in the Global root: [alpha] of 10 bytes
    and [beta] of 20 bytes are listed in this order; after [alpha] was
    deleted without a question, nothing is left of it and the listing
    holds [beta] alone. *)
Lemma deleted_entry_leaves_listing_witness :
  let root := ["home"; "u"; "skill-materials"] in
  let tree :=
    Scenarios.dir [("home", Scenarios.dir [("u", Scenarios.dir [
      ("skill-materials", Scenarios.dir [
         ("alpha", Scenarios.dir [("f", File 10)]);
         ("beta", Scenarios.dir [("g", File 20)])])])])] in
  let w := World tree ["home"; "u"] ["home"; "u"]
             ["opt"; "skill-forge"; "scripts"; "cleanup_materials.py"]
             [] [] [] [] in
  let alpha := Material "alpha" (root ++ ["alpha"]) 10 "10.0 B" "global" in
  let beta := Material "beta" (root ++ ["beta"]) 20 "20.0 B" "global" in
  fst (list_materials w) = Ok [alpha; beta]
  /\ exists w',
       delete_material alpha true w = (Ok true, w')
       /\ lstat (fs w') (root ++ ["alpha"]) = None
       /\ fst (list_materials w') = Ok [beta].
Proof.
  intros root tree w alpha beta.
  split; [by vm_compute|].
  destruct (delete_material alpha true w) as [r w'] eqn:Edel.
  assert (r = Ok true) as ->.
  { apply (f_equal fst) in Edel. vm_compute in Edel. by symmetry. }
  exists w'. split; [done|]. split.
  { apply (f_equal snd) in Edel. vm_compute in Edel. by subst w'. }
  assert (no_links (fs w) = true) as Hno by (by vm_compute).
  destruct (deleted_entry_leaves_listing w w' [alpha; beta] alpha true)
    as [_ Hlist]; [by vm_compute|by left|exact Edel| | |].
  2:{ intros Hp. apply prefix_length in Hp. vm_compute in Hp. lia. }
  - split; [|split].
    + intros a marker _ _. by apply no_links_plain.
    + intros d c _. split; by apply no_links_plain.
    + intros root' Hroot. by vm_compute in Hroot.
  - rewrite Hlist. by vm_compute.
Defined.
